(** * skal: the integration-test harness ([integration-tests.py])

    A shallow embedding of the harness that spawns [skald], a reader and a
    writer, guards every scenario with a watchdog timer, terminates the
    processes it started and reports a verdict.

    The module-level globals of the script ([proc], [outputFiles],
    [outputPaths], [results]) are the fields of one [state] record that is
    threaded through a state-and-exception monad.  Everything the harness
    does to the outside world (signals sent to children, files opened and
    closed, processes created, lines printed, log records) is appended to a
    chronological [trace].  What the outside world answers (does a child
    die on SIGTERM, what is its exit status, does the kernel accept a
    signal, can an executable be launched, what does a log file contain)
    is read from a [World] record of oracles, over which the theorems
    quantify.

    Conventions of the model:
    - durations are in milliseconds ([0.5] s is [500], [0.2] s is [200]);
      time itself is not modelled: when the watchdog strikes is part of
      the environment's schedule;
    - one interrupt per run: the field [pending] says after how many steps
      of the main flow a signal (from the watchdog or from outside) is
      served; the timer thread's "Timeout!" line and the delivery of the
      SIGTERM it sends are one step;
    - a list passed to [spawn] is an address in [heap], so that the
      caller and [spawn] see the same object;
    - a dictionary is an association list in insertion order;
    - [EvLog] records a call of the logger, whatever the verbosity chosen
      on the command line;
    - the text of a log file is what the world says it is when the file
      is read: decoded, and with its line ends translated to LF, as
      [open] in text mode presents it;
    - the module [Flow] is the harness on a file system that obliges:
      [open] does not fail and every log decodes.  The module [FlowIO]
      is the same harness with the two failures the file system can
      answer with, the [OSError] of [open] and the [UnicodeDecodeError]
      of reading a log; the two agree when neither occurs;
    - the model starts where the globals are set up and the handlers
      installed, and ends where the script is left: the parsing of the
      command line, the time before [signal.signal] has run, and what the
      interpreter does on its way out (a [Timer] still armed fires while
      the interpreter waits for its thread) are not part of it;
    - writing to standard output and to the log does not fail. *)

From Stdlib Require Import List String Ascii ZArith Bool Lia PeanoNat.
From Stdlib Require Import DecimalString.
Import ListNotations.
Open Scope string_scope.

Set Implicit Arguments.

(* ================================================================== *)
(** ** Strings and POSIX paths *)

(** [s.startswith(p)] *)
Fixpoint starts_with (p s : string) : bool :=
  match p, s with
  | EmptyString, _ => true
  | String a p', String b s' => Ascii.eqb a b && starts_with p' s'
  | String _ _, EmptyString => false
  end.

(** Python's [needle in hay] on [str]. *)
Fixpoint contains (needle hay : string) : bool :=
  starts_with needle hay
  || match hay with
     | EmptyString => false
     | String _ hay' => contains needle hay'
     end.

Definition ends_with (c : ascii) (s : string) : bool :=
  match rev (list_ascii_of_string s) with
  | [] => false
  | x :: _ => Ascii.eqb x c
  end.

(** [os.sep] on the supported platform (x64-linux). *)
Definition os_sep : string := "/".

(** [os.path.basename]: everything after the last separator. *)
Fixpoint basename (p : string) : string :=
  match p with
  | EmptyString => EmptyString
  | String c p' =>
      if Ascii.eqb c "/" then basename p'
      else if contains os_sep p' then basename p'
      else p
  end.

(** [os.path.join a b] for two components (posixpath). *)
Definition path_join (a b : string) : string :=
  if starts_with "/" b then b
  else if orb (String.eqb a "") (ends_with "/" a) then a ++ b
  else a ++ "/" ++ b.

(** [str(n)] for a non-negative integer, as [str.format] renders it. *)
Definition str_of_nat (n : nat) : string :=
  NilEmpty.string_of_uint (Nat.to_uint n).

Definition newline : ascii := "010"%char.

(** Iterating over a text file: the lines, each with its terminator. *)
Fixpoint readlines (content : string) : list string :=
  match content with
  | EmptyString => []
  | String c rest =>
      if Ascii.eqb c newline then String c EmptyString :: readlines rest
      else match readlines rest with
           | [] => [String c EmptyString]
           | l :: ls => String c l :: ls
           end
  end.

(* ================================================================== *)
(** ** Python dictionaries, in insertion order *)

Module Dict.
Section Dict.
Variable V : Type.

Definition t := list (string * V).

(** [d.get(k)] *)
Fixpoint get (k : string) (d : t) : option V :=
  match d with
  | [] => None
  | (k', v) :: d' => if String.eqb k k' then Some v else get k d'
  end.

(** [d[k] = v]: an existing key keeps its position. *)
Fixpoint set (k : string) (v : V) (d : t) : t :=
  match d with
  | [] => [(k, v)]
  | (k', v') :: d' =>
      if String.eqb k k' then (k, v) :: d' else (k', v') :: set k v d'
  end.

(** [del d[k]]: [None] stands for [KeyError]. *)
Fixpoint del (k : string) (d : t) : option t :=
  match d with
  | [] => None
  | (k', v') :: d' =>
      if String.eqb k k' then Some d'
      else match del k d' with
           | Some d'' => Some ((k', v') :: d'')
           | None => None
           end
  end.

Definition keys (d : t) : list string := map fst d.
Definition values (d : t) : list V := map snd d.
End Dict.
End Dict.

(* ================================================================== *)
(** ** Data model *)

Definition pid := nat.        (* a [subprocess.Popen] object *)
Definition fd := nat.         (* an open file object *)
Definition loc := nat.        (* a Python list object on the heap *)

Inductive level := DEBUG | INFO | WARNING.
Inductive mode := ModeR | ModeW.

(** Where [Popen] sends the child's standard error. *)
Inductive redirect := ToFile (f : fd) | ToStdout.

Inductive event :=
| EvLog (lvl : level) (msg : string)
| EvPrint (msg : string)
| EvTerminate (p : pid)                    (* process.terminate() *)
| EvKill (p : pid)                         (* process.kill() *)
| EvPoll (p : pid)                         (* process.poll() *)
| EvWait (p : pid)                         (* process.wait() *)
| EvSleep (ms : nat)                       (* time.sleep() *)
| EvOpen (path : string) (m : mode) (f : fd)
| EvClose (f : fd)
| EvPopen (argv : list string) (out : fd) (err : redirect) (p : pid)
| EvTimerStart (ms : nat)
| EvTimerCancel
| EvRegistryClear                          (* proc.clear() *)
| EvResult (description : string) (success : bool).

Inductive exn :=
| IndexError
| KeyError (k : string)
| OSError (what : string)
| UnicodeDecodeError.

(** How a computation of the harness ends: it returns, or [sys.exit]
    unwinds the whole script, or an exception propagates (nothing in the
    script catches either). *)
Inductive outcome (A : Type) :=
| Ret (a : A)
| Exit (code : Z)
| Raise (e : exn).
Arguments Exit {A} code.
Arguments Raise {A} e.

Definition is_ret {A} (o : outcome A) : bool :=
  match o with Ret _ => true | _ => false end.

(** Exit status of the interpreter for each way the script can end. *)
Definition exit_status {A} (o : outcome A) : Z :=
  match o with
  | Ret _ => 0
  | Exit c => c
  | Raise _ => 1
  end.

Inductive sigsource := Watchdog | ExternalSIGTERM | ExternalSIGINT.

Record state := mkState {
  heap : list (list string);          (* list objects, by address *)
  proc : Dict.t pid;                 (* role -> process *)
  outputFiles : Dict.t fd;           (* basename -> open log file *)
  outputPaths : Dict.t string;       (* basename -> path of log file *)
  results : list (string * bool);
  timer_armed : bool;                 (* a started, uncancelled Timer *)
  next_pid : nat;
  next_fd : nat;
  pending : option (nat * sigsource); (* an interrupt still to come *)
  trace : list event
}.

(** The environment's answers. *)
Record World := mkWorld {
  can_launch : list string -> bool;    (* Popen creates the process *)
  term_refused : pid -> bool;          (* terminate() raises OSError *)
  kill_refused : pid -> bool;          (* kill() raises OSError *)
  alive_after_grace : pid -> bool;     (* poll() is None *)
  wait_status : pid -> Z;              (* what wait()/poll() return *)
  log_content : string -> string       (* text of a log file when read *)
}.

(** The answers of the file system. *)
Record Disk := mkDisk {
  open_refused : string -> mode -> bool;  (* open() raises OSError *)
  undecodable : string -> bool            (* reading the file as text raises
                                             UnicodeDecodeError before a line
                                             with the marker is met *)
}.

Definition set_heap h s :=
  mkState h (proc s) (outputFiles s) (outputPaths s) (results s)
          (timer_armed s) (next_pid s) (next_fd s) (pending s) (trace s).
Definition set_proc d s :=
  mkState (heap s) d (outputFiles s) (outputPaths s) (results s)
          (timer_armed s) (next_pid s) (next_fd s) (pending s) (trace s).
Definition set_outputFiles d s :=
  mkState (heap s) (proc s) d (outputPaths s) (results s)
          (timer_armed s) (next_pid s) (next_fd s) (pending s) (trace s).
Definition set_outputPaths d s :=
  mkState (heap s) (proc s) (outputFiles s) d (results s)
          (timer_armed s) (next_pid s) (next_fd s) (pending s) (trace s).
Definition set_results r s :=
  mkState (heap s) (proc s) (outputFiles s) (outputPaths s) r
          (timer_armed s) (next_pid s) (next_fd s) (pending s) (trace s).
Definition set_timer_armed b s :=
  mkState (heap s) (proc s) (outputFiles s) (outputPaths s) (results s)
          b (next_pid s) (next_fd s) (pending s) (trace s).
Definition set_next_pid n s :=
  mkState (heap s) (proc s) (outputFiles s) (outputPaths s) (results s)
          (timer_armed s) n (next_fd s) (pending s) (trace s).
Definition set_next_fd n s :=
  mkState (heap s) (proc s) (outputFiles s) (outputPaths s) (results s)
          (timer_armed s) (next_pid s) n (pending s) (trace s).
Definition set_pending p s :=
  mkState (heap s) (proc s) (outputFiles s) (outputPaths s) (results s)
          (timer_armed s) (next_pid s) (next_fd s) p (trace s).
Definition set_trace t s :=
  mkState (heap s) (proc s) (outputFiles s) (outputPaths s) (results s)
          (timer_armed s) (next_pid s) (next_fd s) (pending s) t.

Definition record (e : event) (s : state) : state :=
  set_trace (trace s ++ [e])%list s.

(** The state in which the script starts: empty globals, and the one
    interrupt (if any) the environment is going to deliver. *)
Definition initial (sched : option (nat * sigsource)) : state :=
  mkState [] [] [] [] [] false 0 0 sched [].

(* ================================================================== *)
(** ** The monad *)

Definition M (A : Type) : Type := state -> outcome A * state.

Definition ret {A} (a : A) : M A := fun s => (Ret a, s).

Definition bind {A B} (m : M A) (f : A -> M B) : M B :=
  fun s =>
    match m s with
    | (Ret a, s') => f a s'
    | (Exit c, s') => (Exit c, s')
    | (Raise e, s') => (Raise e, s')
    end.

Definition raise {A} (e : exn) : M A := fun s => (Raise e, s).
Definition sys_exit {A} (code : Z) : M A := fun s => (Exit code, s).
Definition gets {A} (f : state -> A) : M A := fun s => (Ret (f s), s).
Definition modify (f : state -> state) : M unit := fun s => (Ret tt, f s).

Declare Scope harness_scope.
Delimit Scope harness_scope with harness.
Notation "x <- m ;; k" := (bind m (fun x => k))
  (at level 61, m at next level, right associativity) : harness_scope.
Notation "m ;; k" := (bind m (fun _ => k))
  (at level 61, right associativity) : harness_scope.
Open Scope harness_scope.

(** A [for] loop over a snapshot of a sequence. *)
Fixpoint for_each {A} (l : list A) (f : A -> M unit) : M unit :=
  match l with
  | [] => ret tt
  | x :: l' => f x ;; for_each l' f
  end.

(** A [for] loop that carries one local variable. *)
Fixpoint fold_each {A B} (l : list A) (f : B -> A -> M B) (b : B) : M B :=
  match l with
  | [] => ret b
  | x :: l' => b' <- f b x ;; fold_each l' f b'
  end.

(* ================================================================== *)
(** ** The harness, parametric in its interruption points

    Python runs a signal handler in the main thread between two of its
    steps.  Every primitive below that has an effect or mutates a global
    therefore starts with [checkpoint], the place where a pending
    interrupt is served.  The functions of the script are written once,
    over an abstract [checkpoint]; the main flow instantiates it with
    [poll_signals] (further down) and the handler itself runs with an
    empty one. *)

Module Flow.
Section Flow.
Variable w : World.
Variable checkpoint : M unit.

Definition act (f : state -> state) : M unit :=
  checkpoint ;; modify f.

(** *** Primitives *)

Definition logger_debug (msg : string) : M unit := act (record (EvLog DEBUG msg)).
Definition logger_info (msg : string) : M unit := act (record (EvLog INFO msg)).
Definition logger_warning (msg : string) : M unit := act (record (EvLog WARNING msg)).
Definition print (msg : string) : M unit := act (record (EvPrint msg)).
Definition time_sleep (ms : nat) : M unit := act (record (EvSleep ms)).

Definition process_terminate (p : pid) : M unit :=
  act (record (EvTerminate p)) ;;
  if term_refused w p then raise (OSError "terminate") else ret tt.

Definition process_kill (p : pid) : M unit :=
  act (record (EvKill p)) ;;
  if kill_refused w p then raise (OSError "kill") else ret tt.

Definition process_poll (p : pid) : M (option Z) :=
  act (record (EvPoll p)) ;;
  ret (if alive_after_grace w p then None else Some (wait_status w p)).

Definition process_wait (p : pid) : M Z :=
  act (record (EvWait p)) ;;
  ret (wait_status w p).

Definition timer_start (ms : nat) : M unit :=
  act (fun s => record (EvTimerStart ms) (set_timer_armed true s)).

Definition timer_cancel : M unit :=
  act (fun s => record EvTimerCancel (set_timer_armed false s)).

(** [proc.clear()] *)
Definition proc_clear : M unit :=
  act (fun s => record EvRegistryClear (set_proc [] s)).

(** [proc[role] = p] *)
Definition proc_set (role : string) (p : pid) : M unit :=
  act (fun s => set_proc (Dict.set role p (proc s)) s).

(** [proc[role]] *)
Definition proc_lookup (role : string) : M pid :=
  d <- gets proc ;;
  match Dict.get role d with
  | Some p => ret p
  | None => raise (KeyError role)
  end.

(** [del(proc[role])] *)
Definition proc_del (role : string) : M unit :=
  d <- gets proc ;;
  match Dict.del role d with
  | Some d' => act (set_proc d')
  | None => raise (KeyError role)
  end.

(** [results.append((description, success))] *)
Definition results_append (description : string) (success : bool) : M unit :=
  act (fun s => record (EvResult description success)
                  (set_results (results s ++ [(description, success)])%list s)).

(** A list display or [+] of lists builds a new list object. *)
Definition new_list (l : list string) : M loc :=
  a <- gets (fun s => List.length (heap s)) ;;
  act (fun s => set_heap (heap s ++ [l])%list s) ;;
  ret a.

Definition list_read (a : loc) : M (list string) :=
  h <- gets heap ;; ret (nth a h []).

(** [l[0]] *)
Definition list_get0 (a : loc) : M string :=
  l <- list_read a ;;
  match l with
  | [] => raise IndexError
  | x :: _ => ret x
  end.

Fixpoint replace_nth {A} (n : nat) (x : A) (l : list A) : list A :=
  match l, n with
  | [], _ => []
  | _ :: l', O => x :: l'
  | y :: l', S n' => y :: replace_nth n' x l'
  end.

(** [l[0] = x] *)
Definition list_set0 (a : loc) (x : string) : M unit :=
  l <- list_read a ;;
  match l with
  | [] => raise IndexError
  | _ :: rest =>
      act (fun s => set_heap (replace_nth a (x :: rest) (heap s)) s)
  end.

(** [open(path, 'w')] and [open(path)] *)
Definition open_file (path : string) (m : mode) : M fd :=
  checkpoint ;;
  f <- gets next_fd ;;
  modify (fun s => record (EvOpen path m f) (set_next_fd (S f) s)) ;;
  ret f.

Definition file_close (f : fd) : M unit := act (record (EvClose f)).

(** [subprocess.Popen(argv, stdout=out, stderr=subprocess.STDOUT)] *)
Definition popen (argv : list string) (out : fd) : M pid :=
  checkpoint ;;
  if can_launch w argv then
    p <- gets next_pid ;;
    modify (fun s => record (EvPopen argv out ToStdout p)
                       (set_next_pid (S p) s)) ;;
    ret p
  else raise (OSError "Popen").

(** *** [terminateAll] *)

Definition terminateAll : M unit :=
  items <- gets proc ;;
  for_each items (fun '(name, process) =>
    logger_debug ("Terminating process '" ++ name ++ "'") ;;
    process_terminate process) ;;
  time_sleep 200 ;;
  items <- gets proc ;;
  for_each items (fun '(name, process) =>
    r <- process_poll process ;;
    match r with
    | None =>
        logger_debug ("Process '" ++ name ++ "' is still alive; killing it!") ;;
        process_kill process
    | Some _ => ret tt
    end) ;;
  proc_clear.

(** *** [spawn] *)

Definition spawn (arguments : loc) : M pid :=
  a0 <- list_get0 arguments ;;
  (if negb (contains os_sep a0)
   then list_set0 arguments (path_join "." a0)
   else ret tt) ;;
  a0 <- list_get0 arguments ;;
  let procname := basename a0 in
  files <- gets outputFiles ;;
  match Dict.get procname files with
  | None =>
      act (fun s => set_outputPaths
                      (Dict.set procname (procname ++ ".log") (outputPaths s)) s) ;;
      paths <- gets outputPaths ;;
      match Dict.get procname paths with
      | None => raise (KeyError procname)
      | Some path =>
          f <- open_file path ModeW ;;
          act (fun s => set_outputFiles (Dict.set procname f (outputFiles s)) s)
      end
  | Some _ => ret tt
  end ;;
  argv <- list_read arguments ;;
  files <- gets outputFiles ;;
  match Dict.get procname files with
  | None => raise (KeyError procname)
  | Some out => popen argv out
  end.

(** *** [runTest] *)

Definition runTest (description : string) (timeout_ms : nat) (body : M bool)
  : M unit :=
  proc_clear ;;
  logger_info description ;;
  timer_start timeout_ms ;;
  success <- body ;;
  timer_cancel ;;
  terminateAll ;;
  results_append description success.

(** *** The scenarios *)

Definition startSkaldReaderWriter
    (socketUrl : string) (argsSkald argsReader argsWriter : list string)
  : M unit :=
  logger_debug "Starting SKALD" ;;
  l <- new_list (["skald"; "-u"; socketUrl] ++ argsSkald)%list ;;
  p <- spawn l ;;
  proc_set "skald" p ;;
  time_sleep 10 ;;
  logger_debug "Starting reader process" ;;
  l <- new_list (["reader"; "-u"; socketUrl] ++ argsReader)%list ;;
  p <- spawn l ;;
  proc_set "reader" p ;;
  time_sleep 10 ;;
  logger_debug "Starting writer process" ;;
  l <- new_list (["writer"; "-u"; socketUrl] ++ argsWriter)%list ;;
  p <- spawn l ;;
  proc_set "writer" p.

(** The shared tail of the four scenario bodies. *)
Definition waitReader : M bool :=
  logger_debug "Wait for reader process to finish" ;;
  p <- proc_lookup "reader" ;;
  _ <- process_wait p ;;
  proc_del "reader" ;;
  ret true.

Definition testSendOneMsg : M bool :=
  startSkaldReaderWriter "unix://skald.sock"
    ["-d"; "TestDomain"] [] ["-c"; "1"; "reader"] ;;
  waitReader.

Definition testSendFiveMsg : M bool :=
  startSkaldReaderWriter "unix://skald.sock"
    ["-d"; "TestDomain"] [] ["-c"; "5"; "reader"] ;;
  waitReader.

Definition testSendOneMsgToGroup : M bool :=
  startSkaldReaderWriter "unix://skald.sock"
    ["-d"; "TestDomain"] ["-m"; "TestGr"] ["-c"; "1"; "-m"; "TestGr"] ;;
  waitReader.

Definition testSendFiveMsgToGroup : M bool :=
  startSkaldReaderWriter "unix://skald.sock"
    ["-d"; "TestDomain"] ["-m"; "TestGr"] ["-c"; "5"; "-m"; "TestGr"] ;;
  waitReader.

(** *** The leak scan and the verdict (end of the script) *)

Definition leak_marker : string := "Memory leak detected".

(** [for line in f: if marker in line: ...; break] *)
Fixpoint scan_lines (lines : list string) : bool :=
  match lines with
  | [] => false
  | line :: rest => if contains leak_marker line then true else scan_lines rest
  end.

Definition leak_message (p filepath : string) : string :=
  "Memory leak detected for process '" ++ p ++
  "'; please refer to file '" ++ filepath ++ "'".

Definition check_leaks : M bool :=
  files <- gets outputFiles ;;
  for_each files (fun '(p, f) => file_close f) ;;
  paths <- gets outputPaths ;;
  fold_each paths (fun memoryLeak '(p, filepath) =>
    f <- open_file filepath ModeR ;;
    let found := scan_lines (readlines (log_content w filepath)) in
    (if found then print (leak_message p filepath) else ret tt) ;;
    file_close f ;;      (* the explicit f.close() *)
    file_close f ;;      (* leaving the [with] block *)
    ret (found || memoryLeak)) false.

Fixpoint count_failed (rs : list (string * bool)) : nat :=
  match rs with
  | [] => 0
  | (_, success) :: rest =>
      if negb success then S (count_failed rest) else count_failed rest
  end.

Definition summary_failed (failCount total : nat) : string :=
  "INTEGRATION TEST FAIL - " ++ str_of_nat failCount ++ "/" ++
  str_of_nat total ++ " integration tests failed".

Definition summary_leaks (total : nat) : string :=
  "INTEGRATION TEST FAIL - " ++ str_of_nat total ++ "/" ++
  str_of_nat total ++ " integration tests passed, but with memory leaks".

Definition summary_pass (total : nat) : string :=
  "INTEGRATION TEST PASS - " ++ str_of_nat total ++ "/" ++
  str_of_nat total ++ " integration tests passed".

Definition print_results (memoryLeak : bool) : M unit :=
  rs <- gets results ;;
  let failCount := count_failed rs in
  if Nat.ltb 0 failCount then
    print (summary_failed failCount (List.length rs)) ;;
    sys_exit 1
  else if memoryLeak then
    print (summary_leaks (List.length rs)) ;;
    sys_exit 1
  else
    print (summary_pass (List.length rs)).

Definition report : M unit :=
  memoryLeak <- check_leaks ;;
  print_results memoryLeak.

(** *** The script *)

Definition run_scenarios : M unit :=
  runTest "Send one message through SKALD" 500 testSendOneMsg ;;
  runTest "Send five messages through SKALD" 500 testSendFiveMsg ;;
  runTest "Send one message to a multicast group" 500 testSendOneMsgToGroup ;;
  runTest "Send five messages to a multicast group" 500 testSendFiveMsgToGroup.

Definition script : M unit :=
  run_scenarios ;;
  report.

End Flow.
End Flow.

(* ================================================================== *)
(** ** Signals and the watchdog *)

(** The handler runs to completion once entered: its own steps are not
    interrupted again (one interrupt per run is modelled). *)
Definition uninterrupted : M unit := ret tt.

Definition sigtermHandler (w : World) : M unit :=
  Flow.logger_warning uninterrupted "Signal caught; cleaning up" ;;
  Flow.terminateAll w uninterrupted ;;
  sys_exit 1.

(** [timeout]: the timer thread prints and signals the harness itself;
    both SIGTERM and SIGINT are bound to [sigtermHandler]. *)
Definition timeout (w : World) : M unit :=
  Flow.print uninterrupted "Timeout!" ;;
  sigtermHandler w.

(** The interruption point of the main flow.  [pending s = Some (n, src)]
    says that [src] strikes after [n] more steps; the watchdog can only
    strike while a timer is armed, and waits for that. *)
Definition poll_signals (w : World) : M unit :=
  fun s =>
    match pending s with
    | None => (Ret tt, s)
    | Some (S n, src) => (Ret tt, set_pending (Some (n, src)) s)
    | Some (O, Watchdog) =>
        if timer_armed s
        then timeout w (set_timer_armed false (set_pending None s))
        else (Ret tt, s)
    | Some (O, _) => sigtermHandler w (set_pending None s)
    end.

(** The functions of the script as the main flow runs them. *)
Definition terminateAll (w : World) : M unit := Flow.terminateAll w (poll_signals w).
Definition spawn (w : World) (arguments : loc) : M pid := Flow.spawn w (poll_signals w) arguments.
Definition runTest (w : World) := Flow.runTest w (poll_signals w).
Definition testSendOneMsg (w : World) := Flow.testSendOneMsg w (poll_signals w).
Definition testSendFiveMsg (w : World) := Flow.testSendFiveMsg w (poll_signals w).
Definition testSendOneMsgToGroup (w : World) := Flow.testSendOneMsgToGroup w (poll_signals w).
Definition testSendFiveMsgToGroup (w : World) := Flow.testSendFiveMsgToGroup w (poll_signals w).
Definition report (w : World) := Flow.report w (poll_signals w).
Definition run_scenarios (w : World) := Flow.run_scenarios w (poll_signals w).
Definition script (w : World) := Flow.script w (poll_signals w).

(** The four scenarios the script runs, by name. *)
Inductive scenario :=
| SendOneMsg | SendFiveMsg | SendOneMsgToGroup | SendFiveMsgToGroup.

Definition description_of (sc : scenario) : string :=
  match sc with
  | SendOneMsg => "Send one message through SKALD"
  | SendFiveMsg => "Send five messages through SKALD"
  | SendOneMsgToGroup => "Send one message to a multicast group"
  | SendFiveMsgToGroup => "Send five messages to a multicast group"
  end.

Definition body_of (w : World) (sc : scenario) : M bool :=
  match sc with
  | SendOneMsg => testSendOneMsg w
  | SendFiveMsg => testSendFiveMsg w
  | SendOneMsgToGroup => testSendOneMsgToGroup w
  | SendFiveMsgToGroup => testSendFiveMsgToGroup w
  end.

(* ================================================================== *)
(** ** The harness on a file system that can fail

    [open] raises [OSError] when the file cannot be created or opened,
    and reading a log in text mode raises [UnicodeDecodeError] when its
    bytes do not decode.  The functions below are those of [Flow] that
    open or read a file, directly or through a callee, with these two
    failures written out; everything else is taken from [Flow]. *)

Module FlowIO.
Section FlowIO.
Variable d : Disk.
Variable w : World.
Variable checkpoint : M unit.

(** [open(path, 'w')] and [open(path)] *)
Definition open_file (path : string) (m : mode) : M fd :=
  checkpoint ;;
  if open_refused d path m then raise (OSError "open")
  else
    f <- gets next_fd ;;
    modify (fun s => record (EvOpen path m f) (set_next_fd (S f) s)) ;;
    ret f.

(** *** [spawn] *)

Definition spawn (arguments : loc) : M pid :=
  a0 <- Flow.list_get0 arguments ;;
  (if negb (contains os_sep a0)
   then Flow.list_set0 checkpoint arguments (path_join "." a0)
   else ret tt) ;;
  a0 <- Flow.list_get0 arguments ;;
  let procname := basename a0 in
  files <- gets outputFiles ;;
  match Dict.get procname files with
  | None =>
      Flow.act checkpoint
        (fun s => set_outputPaths
                    (Dict.set procname (procname ++ ".log") (outputPaths s)) s) ;;
      paths <- gets outputPaths ;;
      match Dict.get procname paths with
      | None => raise (KeyError procname)
      | Some path =>
          f <- open_file path ModeW ;;
          Flow.act checkpoint
            (fun s => set_outputFiles (Dict.set procname f (outputFiles s)) s)
      end
  | Some _ => ret tt
  end ;;
  argv <- Flow.list_read arguments ;;
  files <- gets outputFiles ;;
  match Dict.get procname files with
  | None => raise (KeyError procname)
  | Some out => Flow.popen w checkpoint argv out
  end.

(** *** The scenarios *)

Definition startSkaldReaderWriter
    (socketUrl : string) (argsSkald argsReader argsWriter : list string)
  : M unit :=
  Flow.logger_debug checkpoint "Starting SKALD" ;;
  l <- Flow.new_list checkpoint (["skald"; "-u"; socketUrl] ++ argsSkald)%list ;;
  p <- spawn l ;;
  Flow.proc_set checkpoint "skald" p ;;
  Flow.time_sleep checkpoint 10 ;;
  Flow.logger_debug checkpoint "Starting reader process" ;;
  l <- Flow.new_list checkpoint (["reader"; "-u"; socketUrl] ++ argsReader)%list ;;
  p <- spawn l ;;
  Flow.proc_set checkpoint "reader" p ;;
  Flow.time_sleep checkpoint 10 ;;
  Flow.logger_debug checkpoint "Starting writer process" ;;
  l <- Flow.new_list checkpoint (["writer"; "-u"; socketUrl] ++ argsWriter)%list ;;
  p <- spawn l ;;
  Flow.proc_set checkpoint "writer" p.

Definition testSendOneMsg : M bool :=
  startSkaldReaderWriter "unix://skald.sock"
    ["-d"; "TestDomain"] [] ["-c"; "1"; "reader"] ;;
  Flow.waitReader w checkpoint.

Definition testSendFiveMsg : M bool :=
  startSkaldReaderWriter "unix://skald.sock"
    ["-d"; "TestDomain"] [] ["-c"; "5"; "reader"] ;;
  Flow.waitReader w checkpoint.

Definition testSendOneMsgToGroup : M bool :=
  startSkaldReaderWriter "unix://skald.sock"
    ["-d"; "TestDomain"] ["-m"; "TestGr"] ["-c"; "1"; "-m"; "TestGr"] ;;
  Flow.waitReader w checkpoint.

Definition testSendFiveMsgToGroup : M bool :=
  startSkaldReaderWriter "unix://skald.sock"
    ["-d"; "TestDomain"] ["-m"; "TestGr"] ["-c"; "5"; "-m"; "TestGr"] ;;
  Flow.waitReader w checkpoint.

(** *** The leak scan and the verdict *)

Definition check_leaks : M bool :=
  files <- gets outputFiles ;;
  for_each files (fun '(p, f) => Flow.file_close checkpoint f) ;;
  paths <- gets outputPaths ;;
  fold_each paths (fun memoryLeak '(p, filepath) =>
    f <- open_file filepath ModeR ;;
    if undecodable d filepath then
      Flow.file_close checkpoint f ;;   (* leaving the [with] block *)
      raise UnicodeDecodeError
    else
      let found := Flow.scan_lines (readlines (log_content w filepath)) in
      (if found then Flow.print checkpoint (Flow.leak_message p filepath)
       else ret tt) ;;
      Flow.file_close checkpoint f ;;   (* the explicit f.close() *)
      Flow.file_close checkpoint f ;;   (* leaving the [with] block *)
      ret (found || memoryLeak)) false.

Definition report : M unit :=
  memoryLeak <- check_leaks ;;
  Flow.print_results checkpoint memoryLeak.

(** *** The script *)

Definition run_scenarios : M unit :=
  Flow.runTest w checkpoint "Send one message through SKALD" 500
    testSendOneMsg ;;
  Flow.runTest w checkpoint "Send five messages through SKALD" 500
    testSendFiveMsg ;;
  Flow.runTest w checkpoint "Send one message to a multicast group" 500
    testSendOneMsgToGroup ;;
  Flow.runTest w checkpoint "Send five messages to a multicast group" 500
    testSendFiveMsgToGroup.

Definition script : M unit :=
  run_scenarios ;;
  report.

End FlowIO.
End FlowIO.

(* ================================================================== *)
(** ** Vocabulary of the specifications

    Everything below this point is about the harness defined above: the
    definitions used to state its properties come first (expected traces,
    concrete worlds and states used as inputs, the logic for interruptible
    runs, the monitor of the log sinks), the lemmas and the claims
    follow. *)

(* ------------------------------------------------------------------ *)
(** *** Concrete worlds and states, used as inputs *)

(** Every request succeeds, every child dies on SIGTERM and exits 0. *)
Definition calm_world : World :=
  mkWorld (fun _ => true) (fun _ => false) (fun _ => false)
          (fun _ => false) (fun _ => 0%Z) (fun _ => "").

(** As [calm_world], but [skald] (the first process) survives SIGTERM. *)
Definition lingering_world : World :=
  mkWorld (fun _ => true) (fun _ => false) (fun _ => false)
          (fun p => Nat.eqb p 0) (fun _ => 0%Z) (fun _ => "").

(** As [calm_world], but the system refuses to signal [skald]. *)
Definition refusing_world : World :=
  mkWorld (fun _ => true) (fun p => Nat.eqb p 0) (fun _ => false)
          (fun _ => false) (fun _ => 0%Z) (fun _ => "").

(** As [calm_world], but the reader (the second process of a scenario)
    exits with status 1. *)
Definition failing_reader_world : World :=
  mkWorld (fun _ => true) (fun _ => false) (fun _ => false)
          (fun _ => false) (fun p => if Nat.eqb p 1 then 1%Z else 0%Z)
          (fun _ => "").

(** As [calm_world], but the reader reports a leak in its log. *)
Definition leaky_world : World :=
  mkWorld (fun _ => true) (fun _ => false) (fun _ => false)
          (fun _ => false) (fun _ => 0%Z)
          (fun path => if String.eqb path "reader.log"
                       then "got 1 message
Memory leak detected: 16 bytes
" else "").

(** A fresh harness holding one list object, [["skald"; "-u"; "url"]]. *)
Definition one_list_state : state :=
  set_heap [["skald"; "-u"; "url"]] (initial None).

(** The registry of a harness that has just started its three roles. *)
Definition three_roles (w : World) : state :=
  snd (Flow.startSkaldReaderWriter w (poll_signals w) "unix://skald.sock"
         ["-d"; "TestDomain"] [] ["-c"; "1"; "reader"] (initial None)).

(** The state in which the four scenarios leave a harness that nothing
    disturbs. *)
Definition after_scenarios (w : World) : state :=
  snd (run_scenarios w (initial None)).

(** A body that fails: it spawns nothing and returns [False]. *)
Definition failing_body : M bool := ret false.

(* ------------------------------------------------------------------ *)
(** *** Runs that no signal disturbs *)

(** [silent cp s]: no interrupt is served at [cp] from [s] on, as long as
    nothing touches the [pending] field. *)
Definition silent (cp : M unit) (s : state) : Prop :=
  forall s', pending s' = pending s -> cp s' = (Ret tt, s').

(* ------------------------------------------------------------------ *)
(** *** What [spawn] is expected to do *)

(** The executable path [spawn] launches for a given [arguments[0]]. *)
Definition resolved (a0 : string) : string :=
  if contains os_sep a0 then a0 else path_join "." a0.

(** The sink [spawn] hands to [Popen]: the one on record for the
    basename, or the file it is about to open. *)
Definition sink_for (b : string) (s : state) : fd :=
  match Dict.get b (outputFiles s) with
  | Some f => f
  | None => next_fd s
  end.

(** The state just before [Popen] is called. *)
Definition spawn_prepared (a : loc) (a0 : string) (rest : list string)
    (s : state) : state :=
  let exe := resolved a0 in
  let b := basename exe in
  let s1 := if contains os_sep a0 then s
            else set_heap (Flow.replace_nth a (exe :: rest) (heap s)) s in
  match Dict.get b (outputFiles s) with
  | Some _ => s1
  | None =>
      set_outputFiles (Dict.set b (next_fd s) (outputFiles s))
        (record (EvOpen (b ++ ".log") ModeW (next_fd s))
           (set_next_fd (S (next_fd s))
              (set_outputPaths (Dict.set b (b ++ ".log") (outputPaths s)) s1)))
  end.

(* ------------------------------------------------------------------ *)
(** *** What [terminateAll] and the signal handler are expected to do *)

(** The two debug messages of [terminateAll]. *)
Definition terminate_msg (name : string) : string :=
  "Terminating process '" ++ name ++ "'".

Definition kill_msg (name : string) : string :=
  "Process '" ++ name ++ "' is still alive; killing it!".

(** What the first loop does to the registered [items]: it stops at the
    first request the system refuses. *)
Fixpoint term_events (w : World) (items : Dict.t pid) : list event :=
  match items with
  | [] => []
  | (name, p) :: rest =>
      EvLog DEBUG (terminate_msg name) :: EvTerminate p ::
      (if term_refused w p then [] else term_events w rest)
  end.

(** No request of the first loop is refused. *)
Definition terms_accepted (w : World) (items : Dict.t pid) : bool :=
  forallb (fun np => negb (term_refused w (snd np))) items.

(** What the second loop does. *)
Fixpoint kill_events (w : World) (items : Dict.t pid) : list event :=
  match items with
  | [] => []
  | (name, p) :: rest =>
      EvPoll p ::
      (if alive_after_grace w p
       then EvLog DEBUG (kill_msg name) :: EvKill p ::
            (if kill_refused w p then [] else kill_events w rest)
       else kill_events w rest)
  end.

(** No request of the second loop is refused. *)
Definition kills_accepted (w : World) (items : Dict.t pid) : bool :=
  forallb (fun np => negb (alive_after_grace w (snd np) && kill_refused w (snd np)))
          items.

(** The nominal effects of the two loops, every request being accepted. *)
Definition graceful_requests (items : Dict.t pid) : list event :=
  flat_map (fun np => [EvLog DEBUG (terminate_msg (fst np)); EvTerminate (snd np)])
           items.

(** Every process is polled; those still alive are killed. *)
Definition forced_kills (w : World) (items : Dict.t pid) : list event :=
  flat_map (fun np =>
              EvPoll (snd np) ::
              if alive_after_grace w (snd np)
              then [EvLog DEBUG (kill_msg (fst np)); EvKill (snd np)]
              else [])
           items.

(** Everything [terminateAll] records for a given registry, refusals
    included. *)
Definition termination_events (w : World) (items : Dict.t pid) : list event :=
  (term_events w items ++
   if terms_accepted w items
   then [EvSleep 200] ++ kill_events w items ++
        (if kills_accepted w items then [EvRegistryClear] else [])
   else [])%list.

(** How the handler ends: [sys.exit(1)], unless a refused request makes
    [terminateAll] raise first. *)
Definition handler_outcome (w : World) (items : Dict.t pid) : outcome unit :=
  if terms_accepted w items
  then if kills_accepted w items then Exit 1 else Raise (OSError "kill")
  else Raise (OSError "terminate").

(** The warning of the handler. *)
Definition signal_msg : string := "Signal caught; cleaning up".

(** What serving a signal means, by source. *)
Definition on_signal (w : World) (src : sigsource) : M unit :=
  match src with
  | Watchdog => timeout w
  | ExternalSIGTERM | ExternalSIGINT => sigtermHandler w
  end.

(* ------------------------------------------------------------------ *)
(** *** The leak scan and the verdict *)

(** [no_newline p]: the text [p] contains no line break. *)
Fixpoint no_newline (p : string) : bool :=
  match p with
  | EmptyString => true
  | String c p' => negb (Ascii.eqb c newline) && no_newline p'
  end.

(** [leaking w paths]: some log file on record contains the marker. *)
Definition leaking (w : World) (paths : Dict.t string) : bool :=
  existsb (fun pp => contains Flow.leak_marker (log_content w (snd pp))) paths.

(** What the scan loop does from file object number [f] on. *)
Fixpoint scan_events (w : World) (f : fd) (paths : Dict.t string) : list event :=
  match paths with
  | [] => []
  | (p, filepath) :: rest =>
      EvOpen filepath ModeR f ::
      (if contains Flow.leak_marker (log_content w filepath)
       then [EvPrint (Flow.leak_message p filepath)] else []) ++
      EvClose f :: EvClose f :: scan_events w (S f) rest
  end.

(** The summary line the script prints last. *)
Definition summary_line (failCount total : nat) (leak : bool) : string :=
  if Nat.ltb 0 failCount then Flow.summary_failed failCount total
  else if leak then Flow.summary_leaks total
  else Flow.summary_pass total.

(** The way the script ends. *)
Definition verdict (failCount : nat) (leak : bool) : outcome unit :=
  if Nat.ltb 0 failCount then Exit 1
  else if leak then Exit 1
  else Ret tt.

(** The last character of a string, if any. *)
Fixpoint last_char (s : string) : option ascii :=
  match s with
  | EmptyString => None
  | String c s' =>
      match s' with
      | EmptyString => Some c
      | String _ _ => last_char s'
      end
  end.

(* ------------------------------------------------------------------ *)
(** *** What the scenarios record *)

(** Every recorded result is a success. *)
Definition all_passed (s : state) : Prop :=
  Forall (fun r => snd r = true) (results s).

(** The end of the script with the "tests failed" branch cut out. *)
Definition print_results_unfailed (w : World) (memoryLeak : bool) : M unit :=
  rs <- gets results ;;
  if memoryLeak then
    Flow.print (poll_signals w) (Flow.summary_leaks (List.length rs)) ;;
    sys_exit 1
  else
    Flow.print (poll_signals w) (Flow.summary_pass (List.length rs)).

(** The script with that branch cut out. *)
Definition script_unfailed (w : World) : M unit :=
  run_scenarios w ;;
  memoryLeak <- Flow.check_leaks w (poll_signals w) ;;
  print_results_unfailed w memoryLeak.

(** The steps of one [runTest] from [s] to [s'], in order: [s1] is where
    the body starts, [s2] where it returns [success]. *)
Definition steps_in_order (w : World) (description : string) (timeout_ms : nat)
    (body : M bool) (s s' : state) : Prop :=
  exists s1 s2 success,
    trace s1 = (trace s ++ [EvRegistryClear; EvLog INFO description;
                            EvTimerStart timeout_ms])%list
    /\ proc s1 = [] /\ timer_armed s1 = true /\ results s1 = results s
    /\ body s1 = (Ret success, s2)
    /\ trace s' = (trace s2 ++ [EvTimerCancel] ++
                   graceful_requests (proc s2) ++ [EvSleep 200] ++
                   forced_kills w (proc s2) ++
                   [EvRegistryClear; EvResult description success])%list
    /\ proc s' = [] /\ timer_armed s' = false
    /\ results s' = (results s2 ++ [(description, success)])%list.

(* ------------------------------------------------------------------ *)
(** *** A logic for runs that signals may interrupt *)

(** The ways a computation can end without returning. *)
Inductive abnormal := AExit (code : Z) | ARaise (e : exn).

Definition abnormal_status (x : abnormal) : Z :=
  match x with AExit c => c | ARaise _ => 1%Z end.

(** An abnormal end, as the outcome of a computation that returns nothing. *)
Definition outcome_of (x : abnormal) : outcome unit :=
  match x with AExit c => Exit c | ARaise e => Raise e end.

(** [hoare P m Q E]: started in a state satisfying [P], the computation
    [m] either returns [a] in a state satisfying [Q a], or ends abnormally
    (by [sys.exit] or by an exception) in a state satisfying [E]. *)
Definition hoare {A} (P : state -> Prop) (m : M A)
    (Q : A -> state -> Prop) (E : abnormal -> state -> Prop) : Prop :=
  forall s, P s ->
    match m s with
    | (Ret a, s') => Q a s'
    | (Exit c, s') => E (AExit c) s'
    | (Raise e, s') => E (ARaise e) s'
    end.

(** [keeps I E m]: [m] maintains the invariant [I] as long as it returns. *)
Definition keeps {A} (I : state -> Prop) (E : abnormal -> state -> Prop)
    (m : M A) : Prop :=
  hoare I m (fun _ => I) E.

(** Events that concern neither files, nor process creation, nor the
    bookkeeping of [runTest]. *)
Definition plain (e : event) : bool :=
  match e with
  | EvLog _ _ | EvPrint _ | EvTerminate _ | EvKill _ | EvPoll _ | EvWait _
  | EvSleep _ => true
  | _ => false
  end.

(** A signal from [src0] is still to come and [results] is [R0]. *)
Definition awaiting (R0 : list (string * bool)) (src0 : sigsource)
    (s : state) : Prop :=
  results s = R0 /\ exists n, pending s = Some (n, src0).

(** The run has ended abnormally with status 1 and [results] is still
    [R0]; if the signal has been served, the run ended as the handler
    ended. *)
Definition aborted (w : World) (R0 : list (string * bool)) (src0 : sigsource)
    (x : abnormal) (s' : state) : Prop :=
  results s' = R0
  /\ abnormal_status x = 1%Z
  /\ (pending s' = None ->
      exists s0, results s0 = R0 /\ on_signal w src0 s0 = (outcome_of x, s')).

(* ------------------------------------------------------------------ *)
(** *** The discipline of the log sinks, as a monitor of the trace

    [sink_monitor] reads a trace from its beginning and keeps the log
    files opened for writing so far (with their file objects) and the
    sinks closed so far.  It gives up ([None]) as soon as the trace
    - opens for writing a path that has been opened for writing before,
    - starts a process whose standard error is not sent to its standard
      output, or whose standard output is not the file object opened for
      [<basename of its executable>.log], or is a sink already closed,
    - closes a sink a second time, or
    - opens a file for reading while some sink is still open. *)

(** What the monitor remembers. *)
Record sinks := mkSinks {
  opened : list (string * fd);
  closed : list fd
}.

(** Membership tests. *)
Definition mem_fd (f : fd) (l : list fd) : bool := existsb (Nat.eqb f) l.

Definition mem_path (p : string) (l : list string) : bool :=
  existsb (String.eqb p) l.

Definition mem_sink (p : string) (f : fd) (l : list (string * fd)) : bool :=
  existsb (fun x => String.eqb p (fst x) && Nat.eqb f (snd x)) l.

(** One event: the new record, or [None] when the event breaks the
    discipline. *)
Definition sink_step (m : sinks) (e : event) : option sinks :=
  match e with
  | EvOpen path ModeW f =>
      if mem_path path (map fst (opened m)) || mem_fd f (map snd (opened m))
      then None
      else Some (mkSinks (opened m ++ [(path, f)]) (closed m))
  | EvPopen argv out err _ =>
      match err with
      | ToStdout =>
          if mem_sink (basename (hd "" argv) ++ ".log") out (opened m)
             && negb (mem_fd out (closed m))
          then Some m else None
      | ToFile _ => None
      end
  | EvClose f =>
      if mem_fd f (map snd (opened m))
      then if mem_fd f (closed m) then None
           else Some (mkSinks (opened m) (f :: closed m))
      else Some m
  | EvOpen path ModeR f =>
      if forallb (fun x => mem_fd (snd x) (closed m)) (opened m)
         && negb (mem_fd f (map snd (opened m)))
      then Some m else None
  | _ => Some m
  end.

(** A whole trace, from a given record. *)
Definition sink_run (start : option sinks) (tr : list event) : option sinks :=
  fold_left (fun om e => match om with
                         | Some m => sink_step m e
                         | None => None
                         end) tr start.

(** A whole trace, from the start of the script. *)
Definition sink_monitor (tr : list event) : option sinks :=
  sink_run (Some (mkSinks [] [])) tr.

(** The trace obeys the discipline. *)
Definition accepted_trace (tr : list event) : Prop :=
  exists m, sink_monitor tr = Some m.

(** Events the monitor does not look at. *)
Definition quiet_event (e : event) : bool :=
  match e with
  | EvOpen _ _ _ | EvClose _ | EvPopen _ _ _ _ => false
  | _ => true
  end.

(* ------------------------------------------------------------------ *)
(** *** Assertions on the way to the discipline *)

(** The sink of an entry of [outputFiles]. *)
Definition log_pair (x : string * fd) : string * fd := (fst x ++ ".log", snd x).

(** While the scenarios run, the monitor's record is the dictionary
    [outputFiles], no sink is closed, and every file object on record is
    older than the next one to be created. *)
Record sinks_inv (s : state) (m : sinks) : Prop := mkSinksInv {
  inv_monitor : sink_monitor (trace s) = Some m;
  inv_opened : opened m = map log_pair (outputFiles s);
  inv_closed : closed m = [];
  inv_fds : Forall (fun x => snd x < next_fd s) (outputFiles s)
}.

(** The invariant, for some record of the monitor. *)
Definition sinks_ok (s : state) : Prop := exists m, sinks_inv s m.

(** An abnormal end is fine as long as the trace so far obeys the
    discipline. *)
Definition trace_ok (_ : abnormal) (s : state) : Prop := accepted_trace (trace s).

(** [stable P]: [P] does not depend on the countdown of the pending
    signal, and a trace of a state in [P] obeys the discipline.  Such an
    assertion survives every checkpoint. *)
Definition stable (P : state -> Prop) : Prop :=
  (forall s p, P s -> P (set_pending p s))
  /\ (forall s, P s -> accepted_trace (trace s)).

(** The list object passed to [spawn] starts with [a0]. *)
Definition holds_list (a : loc) (a0 : string) (s : state) : Prop :=
  exists rest, nth a (heap s) [] = a0 :: rest.

(** The invariant holds and the list object is as said. *)
Definition ready (a : loc) (a0 : string) (s : state) : Prop :=
  sinks_ok s /\ holds_list a a0 s.

(** No sink yet for the basename; its path is on record. *)
Definition path_recorded (a : loc) (a0 : string) (s : state) : Prop :=
  ready a a0 s
  /\ Dict.get (basename a0) (outputFiles s) = None
  /\ Dict.get (basename a0) (outputPaths s) = Some (basename a0 ++ ".log").

(** The log file is open as [f], not yet on record in [outputFiles]. *)
Definition file_opened (a : loc) (a0 : string) (f : fd) (s : state) : Prop :=
  (exists m, sink_monitor (trace s) = Some m
             /\ opened m = (map log_pair (outputFiles s) ++
                            [((basename a0 ++ ".log")%string, f)])%list
             /\ closed m = [])
  /\ Forall (fun x => snd x < next_fd s) (outputFiles s)
  /\ f < next_fd s
  /\ Dict.get (basename a0) (outputFiles s) = None
  /\ holds_list a a0 s.

(** While the sinks are being closed: those of [done] are closed, the
    others are still open. *)
Definition closing (files : Dict.t fd) (done : Dict.t fd) (s : state) : Prop :=
  exists m, sink_monitor (trace s) = Some m
            /\ opened m = map log_pair files
            /\ (forall f, In f (closed m) <-> In f (Dict.values done))
            /\ Forall (fun x => snd x < next_fd s) files
            /\ outputFiles s = files.

(** While the logs are being read: every sink is closed. *)
Definition scanning (s : state) : Prop :=
  exists m, sink_monitor (trace s) = Some m
            /\ opened m = map log_pair (outputFiles s)
            /\ (forall f, In f (Dict.values (outputFiles s)) -> In f (closed m))
            /\ Forall (fun x => snd x < next_fd s) (outputFiles s).

(** ... and [f] is the file object of the log being read. *)
Definition scanning_with (f : fd) (s : state) : Prop :=
  scanning s /\ ~ In f (Dict.values (outputFiles s)).

(* ------------------------------------------------------------------ *)
(** *** More worlds and states, used as inputs *)

(** As [calm_world], but no executable named [reader] can be started. *)
Definition no_reader_world : World :=
  mkWorld (fun argv => negb (String.eqb (hd "" argv) "./reader"))
          (fun _ => false) (fun _ => false)
          (fun _ => false) (fun _ => 0%Z) (fun _ => "").

(** As [calm_world], but nothing can be started at all. *)
Definition barren_world : World :=
  mkWorld (fun _ => false) (fun _ => false) (fun _ => false)
          (fun _ => false) (fun _ => 0%Z) (fun _ => "").

(** A harness with two logs on record, the second one being the log of
    the reader. *)
Definition two_logs_state : state :=
  set_outputPaths [("skald", "skald.log"); ("reader", "reader.log")]
    (set_outputFiles [("skald", 0); ("reader", 1)]
       (set_next_fd 2 (initial None))).

(** A fresh harness holding one list object, the empty list. *)
Definition empty_list_state : state := set_heap [[]] (initial None).

(* ------------------------------------------------------------------ *)
(** *** The states a scenario goes through when no signal arrives *)

(** The state after a new list [a0 :: rest] has been built and passed to
    a [spawn] that succeeds. *)
Definition launched (a0 : string) (rest : list string) (s : state) : state :=
  let s1 := set_heap (heap s ++ [a0 :: rest]) s in
  record (EvPopen (resolved a0 :: rest) (sink_for (basename (resolved a0)) s1)
                  ToStdout (next_pid s))
    (set_next_pid (S (next_pid s))
       (spawn_prepared (List.length (heap s)) a0 rest s1)).

(** The same when [Popen] fails. *)
Definition not_launched (a0 : string) (rest : list string) (s : state) : state :=
  spawn_prepared (List.length (heap s)) a0 rest
    (set_heap (heap s ++ [a0 :: rest]) s).

(** The arguments of the four calls of [startSkaldReaderWriter], as
    written in the scenario bodies. *)
Definition socket_url : string := "unix://skald.sock".

Definition args_skald (sc : scenario) : list string := ["-d"; "TestDomain"].

Definition args_reader (sc : scenario) : list string :=
  match sc with
  | SendOneMsg | SendFiveMsg => []
  | SendOneMsgToGroup | SendFiveMsgToGroup => ["-m"; "TestGr"]
  end.

Definition args_writer (sc : scenario) : list string :=
  match sc with
  | SendOneMsg => ["-c"; "1"; "reader"]
  | SendFiveMsg => ["-c"; "5"; "reader"]
  | SendOneMsgToGroup => ["-c"; "1"; "-m"; "TestGr"]
  | SendFiveMsgToGroup => ["-c"; "5"; "-m"; "TestGr"]
  end.

(** What the three [Popen] calls of [startSkaldReaderWriter] receive. *)
Definition argv_of (role url : string) (args : list string) : list string :=
  ("./" ++ role)%string :: "-u" :: url :: args.

(** The state after [proc[role] = spawn([role, "-u", url] + args)] has
    succeeded. *)
Definition role_started (role url : string) (args : list string) (s : state)
  : state :=
  let u := launched role ("-u" :: url :: args) s in
  set_proc (Dict.set role (next_pid s) (proc u)) u.

(** The states [startSkaldReaderWriter] goes through: before the launch
    of each role, and after the launch of each role when it succeeds. *)
Definition before_skald (s : state) : state :=
  record (EvLog DEBUG "Starting SKALD") s.

Definition after_skald (url : string) (aS : list string) (s : state) : state :=
  role_started "skald" url aS (before_skald s).

Definition before_reader (url : string) (aS : list string) (s : state) : state :=
  record (EvLog DEBUG "Starting reader process")
    (record (EvSleep 10) (after_skald url aS s)).

Definition after_reader (url : string) (aS aR : list string) (s : state) : state :=
  role_started "reader" url aR (before_reader url aS s).

Definition before_writer (url : string) (aS aR : list string) (s : state) : state :=
  record (EvLog DEBUG "Starting writer process")
    (record (EvSleep 10) (after_reader url aS aR s)).

Definition after_writer (url : string) (aS aR aW : list string) (s : state)
  : state :=
  role_started "writer" url aW (before_writer url aS aR s).

(** The state in which [runTest] starts the body: registry cleared,
    description logged, watchdog armed. *)
Definition body_start (description : string) (timeout_ms : nat) (s : state)
  : state :=
  record (EvTimerStart timeout_ms)
    (set_timer_armed true
       (record (EvLog INFO description)
          (record EvRegistryClear (set_proc [] s)))).

(** The state in which a scenario body has waited for the reader [p]. *)
Definition reader_awaited (p : pid) (s : state) : state :=
  record (EvWait p) (record (EvLog DEBUG "Wait for reader process to finish") s).

(* ------------------------------------------------------------------ *)
(** *** The life of the processes, as seen in the trace *)

(** Events about the processes the harness starts: their creation, the
    waits, the signals, the polls, and the pauses in between. *)
Definition lifecycle_event (e : event) : bool :=
  match e with
  | EvPopen _ _ _ _ | EvWait _ | EvTerminate _ | EvKill _ | EvPoll _
  | EvSleep _ => true
  | _ => false
  end.

Definition lifecycle (tr : list event) : list event := filter lifecycle_event tr.

(** What [terminateAll] does to one process after the grace interval. *)
Definition poll_and_kill (w : World) (p : pid) : list event :=
  EvPoll p :: if alive_after_grace w p then [EvKill p] else [].

(** The life of the three processes of a completed scenario, [n] being
    the first fresh process number and [o1], [o2], [o3] their sinks. *)
Definition scenario_lifecycle (w : World) (sc : scenario) (n : pid)
    (o1 o2 o3 : fd) : list event :=
  ([EvPopen (argv_of "skald" socket_url (args_skald sc)) o1 ToStdout n;
    EvSleep 10;
    EvPopen (argv_of "reader" socket_url (args_reader sc)) o2 ToStdout (S n);
    EvSleep 10;
    EvPopen (argv_of "writer" socket_url (args_writer sc)) o3 ToStdout (S (S n));
    EvWait (S n);
    EvTerminate n; EvTerminate (S (S n));
    EvSleep 200] ++
   poll_and_kill w n ++ poll_and_kill w (S (S n)))%list.

(** [l] is the life of the processes of scenario [sc], the first of them
    being process number [n]. *)
Definition scenario_run (w : World) (sc : scenario) (n : pid)
    (l : list event) : Prop :=
  exists o1 o2 o3, l = scenario_lifecycle w sc n o1 o2 o3.

(* ------------------------------------------------------------------ *)
(** *** What the script prints and reads *)

(** The lines printed on standard output, in order. *)
Definition printed (tr : list event) : list string :=
  flat_map (fun e => match e with EvPrint msg => [msg] | _ => [] end) tr.

(** The files opened for reading, in order. *)
Definition files_read (tr : list event) : list string :=
  flat_map (fun e => match e with EvOpen path ModeR _ => [path] | _ => [] end) tr.

(** Standard output shows [P] and the files read so far are [F]. *)
Definition output_is (P F : list string) (s : state) : Prop :=
  printed (trace s) = P /\ files_read (trace s) = F.

(** The entries of [outputPaths] whose log contains the marker. *)
Definition leaking_logs (w : World) (paths : Dict.t string) : Dict.t string :=
  filter (fun pp => contains Flow.leak_marker (log_content w (snd pp))) paths.

(* ------------------------------------------------------------------ *)
(** *** The log files on record *)

(** The entries of [outputPaths] for the given basenames. *)
Definition paths_of (keys : list string) : Dict.t string :=
  map (fun k => (k, k ++ ".log")) keys.

(** The basenames on record once [k] has been spawned. *)
Definition add_key (k : string) (keys : list string) : list string :=
  if existsb (String.eqb k) keys then keys else (keys ++ [k])%list.

(** [outputFiles] and [outputPaths] hold the logs of [keys], in order. *)
Definition logs_recorded (keys : list string) (s : state) : Prop :=
  Dict.keys (outputFiles s) = keys /\ outputPaths s = paths_of keys.

(** The basenames on record once a scenario has started its roles. *)
Definition add_roles (keys : list string) : list string :=
  add_key "writer" (add_key "reader" (add_key "skald" keys)).

(** The logs of the three roles. *)
Definition role_logs : Dict.t string :=
  [("skald", "skald.log"); ("reader", "reader.log"); ("writer", "writer.log")].

(* ------------------------------------------------------------------ *)
(** *** File systems *)

(** A file system that obliges: every [open] succeeds and every log
    decodes. *)
Definition obliging (d : Disk) : Prop :=
  (forall path m, open_refused d path m = false)
  /\ (forall path, undecodable d path = false).

(** The log at [path] can be opened for reading and decodes. *)
Definition readable (d : Disk) (path : string) : Prop :=
  open_refused d path ModeR = false /\ undecodable d path = false.

(** The file system on which nothing fails. *)
Definition plain_disk : Disk := mkDisk (fun _ _ => false) (fun _ => false).

(** A file system on which no file can be created. *)
Definition read_only_disk : Disk :=
  mkDisk (fun _ m => match m with ModeW => true | ModeR => false end)
         (fun _ => false).

(** A file system on which the log of the reader does not decode. *)
Definition garbled_reader_disk : Disk :=
  mkDisk (fun _ _ => false) (fun path => String.eqb path "reader.log").

(** Two computations that do the same from every state. *)
Definition same_run {A} (m m' : M A) : Prop := forall s, m s = m' s.

(* ------------------------------------------------------------------ *)
(** *** The ways the script may end *)

(** The exceptions of a failed lookup in a list or a dictionary. *)
Definition lookup_error (e : exn) : bool :=
  match e with
  | IndexError | KeyError _ => true
  | OSError _ | UnicodeDecodeError => false
  end.

(** An end that is not a return: [sys.exit(1)], or an exception that is
    not the error of a lookup. *)
Definition expected_end (x : abnormal) (_ : state) : Prop :=
  match x with
  | AExit c => c = 1%Z
  | ARaise e => lookup_error e = false
  end.

(** Assertions that do not look at the pending signal, and assertions
    that only look at the registry. *)
Definition steady (P : state -> Prop) : Prop :=
  forall s p, P s -> P (set_pending p s).

Definition about_proc (J : state -> Prop) : Prop :=
  forall s s', proc s' = proc s -> J s -> J s'.

(** The list object at [a] has a first element. *)
Definition nonempty_at (a : loc) (s : state) : Prop := nth a (heap s) [] <> [].

(** A process is registered as the reader. *)
Definition reader_registered (s : state) : Prop :=
  Dict.get "reader" (proc s) <> None.

(** No condition on the state. *)
Definition any (_ : state) : Prop := True.

(* ------------------------------------------------------------------ *)
(** *** The logger, as the script configures it

    The script sets the level of its logger to [DEBUG] when it is run
    with [-v] and to [WARNING] otherwise, and formats a record as
    ["%(levelname)s: %(message)s"].  A record is emitted when its level
    is not below the level of the logger. *)

(** The numeric levels of Python's [logging]. *)
Definition level_no (l : level) : nat :=
  match l with DEBUG => 10 | INFO => 20 | WARNING => 30 end.

Definition levelname (l : level) : string :=
  match l with DEBUG => "DEBUG" | INFO => "INFO" | WARNING => "WARNING" end.

(** [logger.setLevel(...)], by the value of [args.verbose]. *)
Definition logger_level (verbose : bool) : level :=
  if verbose then DEBUG else WARNING.

(** The formatter of the handler. *)
Definition format_record (l : level) (msg : string) : string :=
  levelname l ++ ": " ++ msg.

(** The lines the handler of the logger writes, in order. *)
Definition log_lines (verbose : bool) (tr : list event) : list string :=
  flat_map (fun e => match e with
                     | EvLog l msg =>
                         if Nat.leb (level_no (logger_level verbose)) (level_no l)
                         then [format_record l msg] else []
                     | _ => []
                     end) tr.

(** The line the signal handler logs. *)
Definition warning_line : string := format_record WARNING signal_msg.

(** Without [-v], the log shows the lines [L]. *)
Definition shows (L : list string) (s : state) : Prop :=
  log_lines false (trace s) = L.

(** Without [-v], the log shows the lines [L], followed by nothing but
    warnings of the signal handler. *)
Definition warned (L : list string) (_ : abnormal) (s : state) : Prop :=
  exists k, log_lines false (trace s) = (L ++ repeat warning_line k)%list.

(** An interruption point at which nothing but the signal handler can
    run: when it returns the log is as it was, and when it ends the run
    the log has gained nothing but warnings of the handler. *)
Definition warns_only (cp : M unit) : Prop :=
  forall L, keeps (shows L) (warned L) cp.

(* ================================================================== *)
(** ** Basic facts about the monad and the interruption points *)

Lemma silent_uninterrupted s : silent uninterrupted s.
Proof. intros s' _. reflexivity. Qed.

Lemma silent_poll w s : pending s = None -> silent (poll_signals w) s.
Proof.
  intros H s' E. unfold poll_signals. rewrite E, H. reflexivity.
Qed.

Lemma silent_same cp s s' : silent cp s -> pending s' = pending s -> silent cp s'.
Proof. intros H E t Et. apply H. congruence. Qed.

Lemma act_silent cp f s :
  silent cp s -> Flow.act cp f s = (Ret tt, f s).
Proof.
  intros H. unfold Flow.act, bind, modify. rewrite (H s eq_refl). reflexivity.
Qed.

Lemma bind_ret_inv A B (m : M A) (f : A -> M B) s b s' :
  bind m f s = (Ret b, s') ->
  exists a s1, m s = (Ret a, s1) /\ f a s1 = (Ret b, s').
Proof.
  unfold bind. destruct (m s) as [[a| |] s1]; intros H; try discriminate.
  exists a, s1. auto.
Qed.

Lemma set_pending_same s : set_pending (pending s) s = s.
Proof. destruct s; reflexivity. Qed.

(** A served checkpoint that returns has changed nothing but the
    countdown. *)
Lemma poll_ret_inv w s s' :
  poll_signals w s = (Ret tt, s') -> s' = set_pending (pending s') s.
Proof.
  unfold poll_signals, timeout, sigtermHandler.
  destruct (pending s) as [[[|n] src]|] eqn:E.
  - destruct src.
    + destruct (timer_armed s).
      * unfold bind at 1. 
        destruct (Flow.print uninterrupted "Timeout!" _) as [[[]| |] s1]; try discriminate.
        unfold bind at 1.
        destruct (Flow.logger_warning uninterrupted _ s1) as [[[]| |] s2]; try discriminate.
        unfold bind at 1.
        destruct (Flow.terminateAll w uninterrupted s2) as [[[]| |] s3]; discriminate.
      * intros H. inversion H; subst. symmetry. apply set_pending_same.
    + unfold bind at 1.
      destruct (Flow.logger_warning uninterrupted _ _) as [[[]| |] s2]; try discriminate.
      unfold bind at 1.
      destruct (Flow.terminateAll w uninterrupted s2) as [[[]| |] s3]; discriminate.
    + unfold bind at 1.
      destruct (Flow.logger_warning uninterrupted _ _) as [[[]| |] s2]; try discriminate.
      unfold bind at 1.
      destruct (Flow.terminateAll w uninterrupted s2) as [[[]| |] s3]; discriminate.
  - intros H. inversion H; subst. destruct s; reflexivity.
  - intros H. inversion H; subst. symmetry. apply set_pending_same.
Qed.

Lemma act_ret_inv w f s s' :
  Flow.act (poll_signals w) f s = (Ret tt, s') ->
  exists p, s' = f (set_pending p s).
Proof.
  unfold Flow.act. intros H.
  apply bind_ret_inv in H. destruct H as ([] & s1 & H1 & H2).
  apply poll_ret_inv in H1. unfold modify in H2. inversion H2; subst.
  eexists. rewrite H1 at 1. reflexivity.
Qed.

(* ------------------------------------------------------------------ *)
(** *** Dictionaries *)

Lemma dict_get_set_same V k (v : V) d : Dict.get k (Dict.set k v d) = Some v.
Proof.
  induction d as [|[k' v'] d IH]; simpl.
  - rewrite String.eqb_refl. reflexivity.
  - destruct (String.eqb k k') eqn:E; simpl; rewrite ?E, ?String.eqb_refl; auto.
Qed.

Lemma dict_set_fresh V k (v : V) d :
  Dict.get k d = None -> Dict.set k v d = (d ++ [(k, v)])%list.
Proof.
  induction d as [|[k' v'] d IH]; simpl; auto.
  destruct (String.eqb k k'); try discriminate.
  intros H. rewrite IH; auto.
Qed.

Lemma dict_get_none_keys V k (d : Dict.t V) :
  Dict.get k d = None <-> ~ In k (Dict.keys d).
Proof.
  induction d as [|[k' v'] d IH]; simpl.
  - tauto.
  - destruct (String.eqb_spec k k').
    + subst. split; [discriminate | tauto].
    + rewrite IH. split; [intros H [E|I]; auto; congruence | tauto].
Qed.

Lemma dict_get_in V k (v : V) d : Dict.get k d = Some v -> In (k, v) d.
Proof.
  induction d as [|[k' v'] d IH]; simpl; try discriminate.
  destruct (String.eqb_spec k k').
  - intros H; inversion H; subst; auto.
  - auto.
Qed.

(* ------------------------------------------------------------------ *)
(** *** Strings and paths *)

Lemma contains_sep_cons c b :
  contains os_sep (String c b) = Ascii.eqb "/" c || contains os_sep b.
Proof. simpl. rewrite andb_true_r. reflexivity. Qed.

Lemma starts_with_sep_cons c b :
  starts_with "/" (String c b) = Ascii.eqb "/" c.
Proof. simpl. apply andb_true_r. Qed.

Lemma path_join_dot b :
  contains os_sep b = false -> path_join "." b = "./" ++ b.
Proof.
  unfold path_join. intros H.
  destruct b as [|c b]; [reflexivity|].
  rewrite contains_sep_cons in H. apply orb_false_elim in H. destruct H as [H _].
  rewrite starts_with_sep_cons, H. reflexivity.
Qed.

Lemma contains_dot_slash b : contains os_sep ("./" ++ b) = true.
Proof. reflexivity. Qed.

Lemma basename_dot_slash b :
  contains os_sep b = false -> basename ("./" ++ b) = b.
Proof.
  intros H. change ("./" ++ b) with (String "." (String "/" b)).
  cbn [basename]. change (Ascii.eqb "." "/") with false.
  change (Ascii.eqb "/" "/") with true. cbv iota.
  rewrite contains_sep_cons. change (Ascii.eqb "/" "/") with true. cbv iota. cbn [orb].
  destruct b as [|c b]; [reflexivity|].
  rewrite contains_sep_cons in H. apply orb_false_elim in H. destruct H as [H1 H2].
  cbn [basename]. rewrite Ascii.eqb_sym, H1, H2. reflexivity.
Qed.

(* ------------------------------------------------------------------ *)
(** *** List objects *)

Lemma nth_replace_nth A (a : nat) (x d : A) h :
  a < List.length h -> nth a (Flow.replace_nth a x h) d = x.
Proof.
  revert a. induction h as [|y h IH]; simpl; intros a L; [lia|].
  destruct a; simpl; auto. apply IH. lia.
Qed.

Lemma nth_replace_nth_other A (a b : nat) (x d : A) h :
  a <> b -> nth b (Flow.replace_nth a x h) d = nth b h d.
Proof.
  revert a b. induction h as [|y h IH]; simpl; intros a b N.
  - destruct a, b; reflexivity.
  - destruct a, b; simpl; auto; congruence.
Qed.

Lemma nth_nonnil_lt A (a : nat) (h : list (list A)) x l :
  nth a h [] = x :: l -> a < List.length h.
Proof.
  intros H. destruct (Nat.lt_ge_cases a (List.length h)); auto.
  rewrite nth_overflow in H; [discriminate | lia].
Qed.

(* ================================================================== *)
(** ** [spawn], step by step *)

Ltac quiet H := repeat (rewrite H by reflexivity).

Lemma spawn_exec w cp a a0 rest s :
  silent cp s ->
  nth a (heap s) [] = a0 :: rest ->
  Flow.spawn w cp a s =
    let argv := resolved a0 :: rest in
    let s2 := spawn_prepared a a0 rest s in
    if can_launch w argv
    then (Ret (next_pid s),
          record (EvPopen argv (sink_for (basename (resolved a0)) s) ToStdout (next_pid s))
            (set_next_pid (S (next_pid s)) s2))
    else (Raise (OSError "Popen"), s2).
Proof.
  intros Hs Hn.
  pose proof (nth_nonnil_lt _ _ Hn) as Hlt.
  unfold Flow.spawn, Flow.list_get0, Flow.list_set0, Flow.list_read,
    Flow.open_file, Flow.popen, Flow.act, spawn_prepared, sink_for, resolved.
  unfold bind, gets, modify, ret, raise. cbn [heap]. rewrite Hn.
  destruct (contains os_sep a0) eqn:Esep; cbn [negb];
    repeat first
      [ rewrite Hn
      | rewrite Hs by reflexivity
      | rewrite dict_get_set_same
      | rewrite (nth_replace_nth _ _ _ Hlt)
      | progress cbn -[path_join basename contains String.append] ];
    match goal with
    | |- context [Dict.get ?b (outputFiles s)] =>
        destruct (Dict.get b (outputFiles s)) as [f|] eqn:Eget
    end;
    repeat first
      [ rewrite Hn
      | rewrite Eget
      | rewrite Hs by reflexivity
      | rewrite dict_get_set_same
      | rewrite (nth_replace_nth _ _ _ Hlt)
      | progress cbn -[path_join basename contains String.append] ];
    match goal with
    | |- context [can_launch w ?l] => destruct (can_launch w l)
    end; reflexivity.
Qed.

Lemma basename_no_sep b : contains os_sep b = false -> basename b = b.
Proof.
  destruct b as [|c b]; [reflexivity|].
  rewrite contains_sep_cons. intros H.
  apply orb_false_elim in H. destruct H as [H1 H2].
  cbn [basename]. rewrite Ascii.eqb_sym, H1, H2. reflexivity.
Qed.

Lemma resolved_has_sep a0 : contains os_sep (resolved a0) = true.
Proof.
  unfold resolved. destruct (contains os_sep a0) eqn:E; auto.
  rewrite path_join_dot by assumption. apply contains_dot_slash.
Qed.

Lemma basename_resolved a0 : basename (resolved a0) = basename a0.
Proof.
  unfold resolved. destruct (contains os_sep a0) eqn:E; auto.
  rewrite path_join_dot, basename_dot_slash, basename_no_sep by assumption.
  reflexivity.
Qed.

Lemma heap_spawn_prepared a a0 rest s :
  heap (spawn_prepared a a0 rest s) =
    if contains os_sep a0 then heap s
    else Flow.replace_nth a (resolved a0 :: rest) (heap s).
Proof.
  unfold spawn_prepared.
  destruct (Dict.get _ (outputFiles s)), (contains os_sep a0); reflexivity.
Qed.

Lemma trace_spawn_prepared a a0 rest s :
  trace (spawn_prepared a a0 rest s) =
    (trace s ++
     match Dict.get (basename (resolved a0)) (outputFiles s) with
     | Some _ => []
     | None => [EvOpen (basename (resolved a0) ++ ".log") ModeW (next_fd s)]
     end)%list.
Proof.
  unfold spawn_prepared.
  destruct (Dict.get _ (outputFiles s)), (contains os_sep a0);
    cbn -[basename resolved String.append]; rewrite ?app_nil_r; reflexivity.
Qed.

Lemma outputFiles_spawn_prepared a a0 rest s :
  outputFiles (spawn_prepared a a0 rest s) =
    match Dict.get (basename (resolved a0)) (outputFiles s) with
    | Some _ => outputFiles s
    | None => Dict.set (basename (resolved a0)) (next_fd s) (outputFiles s)
    end.
Proof.
  unfold spawn_prepared.
  destruct (Dict.get _ (outputFiles s)), (contains os_sep a0); reflexivity.
Qed.

(* ================================================================== *)
(** ** Claims about [spawn] *)

(** C7.  For every call [spawn(arguments)] that creates a process (no
    signal arriving meanwhile): the executable launched is [arguments[0]]
    itself when it contains a separator and ["./" + arguments[0]] when it
    does not, so it always contains a separator and is never left to a
    search path; the one [Popen] call gets as standard output the sink on
    record for [basename(arguments[0])] (opened just before, in write
    mode, as [<basename>.log], if there was none), and standard error is
    sent to standard output. *)
Theorem spawn_resolves_and_redirects w s a a0 rest :
  pending s = None ->
  nth a (heap s) [] = a0 :: rest ->
  can_launch w (resolved a0 :: rest) = true ->
  exists p out s',
    spawn w a s = (Ret p, s')
    /\ (contains os_sep a0 = false -> resolved a0 = "./" ++ a0)
    /\ (contains os_sep a0 = true -> resolved a0 = a0)
    /\ contains os_sep (resolved a0) = true
    /\ Dict.get (basename a0) (outputFiles s') = Some out
    /\ (forall f, Dict.get (basename a0) (outputFiles s) = Some f -> out = f)
    /\ trace s' =
         (trace s ++
          match Dict.get (basename a0) (outputFiles s) with
          | Some _ => []
          | None => [EvOpen (basename a0 ++ ".log") ModeW out]
          end ++
          [EvPopen (resolved a0 :: rest) out ToStdout p])%list.
Proof.
  intros Hp Hn Hl.
  unfold spawn.
  rewrite (spawn_exec w a (silent_poll w _ Hp) Hn). cbv zeta. rewrite Hl.
  exists (next_pid s), (sink_for (basename (resolved a0)) s).
  eexists. split; [reflexivity|].
  split; [intro E; unfold resolved; rewrite E; apply path_join_dot; exact E|].
  split; [intro E; unfold resolved; rewrite E; reflexivity|].
  split; [apply resolved_has_sep|].
  rewrite <- (basename_resolved a0).
  split; [|split].
  - cbn -[basename resolved]. rewrite outputFiles_spawn_prepared.
    unfold sink_for.
    destruct (Dict.get (basename (resolved a0)) (outputFiles s)) eqn:E.
    + exact E.
    + apply dict_get_set_same.
  - intros f E. unfold sink_for. rewrite E. reflexivity.
  - cbn -[basename resolved String.append]. rewrite trace_spawn_prepared.
    unfold sink_for.
    destruct (Dict.get (basename (resolved a0)) (outputFiles s));
      rewrite <- app_assoc; reflexivity.
Qed.

Lemma spawn_resolves_and_redirects_witness :
  pending one_list_state = None
  /\ nth 0 (heap one_list_state) [] = "skald" :: ["-u"; "url"]
  /\ exists p out s',
       spawn calm_world 0 one_list_state = (Ret p, s')
       /\ Dict.get "skald" (outputFiles s') = Some out
       /\ trace s' = [EvOpen "skald.log" ModeW out;
                      EvPopen ["./skald"; "-u"; "url"] out ToStdout p].
Proof.
  split; [reflexivity|]. split; [reflexivity|].
  destruct (@spawn_resolves_and_redirects calm_world one_list_state 0
              "skald" ["-u"; "url"] eq_refl eq_refl eq_refl)
    as (p & out & s' & H1 & _ & _ & _ & H5 & _ & H7).
  exists p, out, s'. split; [exact H1|]. split; [exact H5|exact H7].
Defined.

(** C10.  For every call [spawn(arguments)] whose [arguments[0]] has no
    separator (no signal arriving meanwhile), the list object passed in is
    itself changed: after the call its first element is
    ["./" + arguments[0]], the other elements and every other list object
    are as before, this holds whether or not the process could be
    created, and the process that is created is launched from the changed
    list. *)
Theorem spawn_mutates_arguments w s a a0 rest :
  pending s = None ->
  nth a (heap s) [] = a0 :: rest ->
  contains os_sep a0 = false ->
  let r := spawn w a s in
  nth a (heap (snd r)) [] = ("./" ++ a0) :: rest
  /\ nth a (heap (snd r)) [] <> nth a (heap s) []
  /\ (forall b, b <> a -> nth b (heap (snd r)) [] = nth b (heap s) [])
  /\ (forall p, fst r = Ret p ->
      exists out, last (trace (snd r)) EvTimerCancel =
                    EvPopen (("./" ++ a0) :: rest) out ToStdout p).
Proof.
  intros Hp Hn Hsep r.
  assert (Er : r = spawn w a s) by reflexivity.
  unfold spawn in Er.
  rewrite (spawn_exec w a (silent_poll w _ Hp) Hn) in Er. cbv zeta in Er.
  assert (Hres : resolved a0 = "./" ++ a0).
  { unfold resolved. rewrite Hsep. apply path_join_dot. exact Hsep. }
  rewrite Hres in Er.
  assert (Hh : heap (snd r) = Flow.replace_nth a (("./" ++ a0) :: rest) (heap s)).
  { rewrite Er. destruct (can_launch w _); cbn [snd];
      [cbn [record set_trace set_next_pid heap]|];
      rewrite heap_spawn_prepared, Hsep, Hres; reflexivity. }
  pose proof (nth_nonnil_lt _ _ Hn) as Hlt.
  split; [|split; [|split]].
  - rewrite Hh. apply nth_replace_nth. exact Hlt.
  - rewrite Hh, nth_replace_nth, Hn by exact Hlt.
    intros E. inversion E as [E0].
    apply (f_equal String.length) in E0. cbn in E0. lia.
  - intros b Hb. rewrite Hh. apply nth_replace_nth_other. congruence.
  - intros p Hr. rewrite Er in Hr |- *.
    destruct (can_launch w _); [|discriminate].
    cbn [fst] in Hr. inversion Hr; subst p.
    eexists. cbn [snd record set_trace trace]. apply last_last.
Qed.

Lemma spawn_mutates_arguments_witness :
  pending one_list_state = None
  /\ contains os_sep "skald" = false
  /\ nth 0 (heap one_list_state) [] = ["skald"; "-u"; "url"]
  /\ nth 0 (heap (snd (spawn calm_world 0 one_list_state))) []
     = ["./skald"; "-u"; "url"].
Proof.
  split; [reflexivity|]. split; [reflexivity|]. split; [reflexivity|].
  exact (proj1 (@spawn_mutates_arguments calm_world one_list_state 0
                  "skald" ["-u"; "url"] eq_refl eq_refl eq_refl)).
Defined.

(* ================================================================== *)
(** ** [terminateAll], step by step *)

Ltac norm_state :=
  unfold record, raise, ret;
  repeat (progress (cbn [set_trace set_proc set_heap set_results set_timer_armed
                    set_pending set_next_pid set_next_fd set_outputFiles
                    set_outputPaths heap proc outputFiles outputPaths results
                    timer_armed next_pid next_fd pending trace fst snd app]);
          rewrite <- ?app_assoc).

Section TerminateAll.
Variable w : World.
Variable cp : M unit.

Lemma term_loop items s :
  silent cp s ->
  for_each items (fun '(name, process) =>
    Flow.logger_debug cp ("Terminating process '" ++ name ++ "'") ;;
    Flow.process_terminate w cp process) s
  = (if terms_accepted w items then Ret tt else Raise (OSError "terminate"),
     set_trace (trace s ++ term_events w items) s).
Proof.
  revert s. induction items as [|[name p] items IH]; intros s Hs.
  - cbn [for_each term_events kill_events terms_accepted kills_accepted forallb].
    rewrite app_nil_r. destruct s; reflexivity.
  - cbn [for_each term_events terms_accepted forallb snd].
    unfold Flow.logger_debug, Flow.process_terminate.
    unfold bind at 1. unfold bind at 1.
    rewrite (act_silent _ Hs).
    unfold bind at 1.
    rewrite act_silent by (eapply silent_same; [exact Hs|reflexivity]).
    destruct (term_refused w p); cbn [negb andb].
    + norm_state. reflexivity.
    + unfold ret. rewrite IH by (eapply silent_same; [exact Hs|reflexivity]).
      norm_state. reflexivity.
Qed.

Lemma kill_loop items s :
  silent cp s ->
  for_each items (fun '(name, process) =>
    r <- Flow.process_poll w cp process ;;
    match r with
    | None =>
        Flow.logger_debug cp ("Process '" ++ name ++ "' is still alive; killing it!") ;;
        Flow.process_kill w cp process
    | Some _ => ret tt
    end) s
  = (if kills_accepted w items then Ret tt else Raise (OSError "kill"),
     set_trace (trace s ++ kill_events w items) s).
Proof.
  revert s. induction items as [|[name p] items IH]; intros s Hs.
  - cbn [for_each term_events kill_events terms_accepted kills_accepted forallb].
    rewrite app_nil_r. destruct s; reflexivity.
  - cbn [for_each kill_events kills_accepted forallb snd].
    unfold Flow.process_poll, Flow.logger_debug, Flow.process_kill.
    unfold bind at 1. unfold bind at 1. unfold bind at 1.
    rewrite (act_silent _ Hs). unfold ret at 1.
    destruct (alive_after_grace w p); cbn [negb andb].
    + unfold bind at 1.
      rewrite act_silent by (eapply silent_same; [exact Hs|reflexivity]).
      unfold bind at 1.
      rewrite act_silent by (eapply silent_same; [exact Hs|reflexivity]).
      destruct (kill_refused w p); cbn [negb andb].
      * norm_state. reflexivity.
      * unfold ret. rewrite IH by (eapply silent_same; [exact Hs|reflexivity]).
        norm_state. reflexivity.
    + unfold ret. rewrite IH by (eapply silent_same; [exact Hs|reflexivity]).
      norm_state. reflexivity.
Qed.

(** The complete behaviour of [terminateAll] when no signal arrives. *)
Lemma terminateAll_exec s :
  silent cp s ->
  Flow.terminateAll w cp s =
    if terms_accepted w (proc s) then
      if kills_accepted w (proc s) then
        (Ret tt,
         set_proc []
           (set_trace (trace s ++ term_events w (proc s) ++ [EvSleep 200] ++
                       kill_events w (proc s) ++ [EvRegistryClear]) s))
      else
        (Raise (OSError "kill"),
         set_trace (trace s ++ term_events w (proc s) ++ [EvSleep 200] ++
                    kill_events w (proc s)) s)
    else
      (Raise (OSError "terminate"),
       set_trace (trace s ++ term_events w (proc s)) s).
Proof.
  intros Hs. unfold Flow.terminateAll.
  unfold bind at 1. unfold gets at 1.
  unfold bind at 1. rewrite (term_loop _ Hs).
  destruct (terms_accepted w (proc s)); [|reflexivity].
  unfold bind at 1. unfold Flow.time_sleep.
  rewrite act_silent by (eapply silent_same; [exact Hs|reflexivity]).
  unfold bind at 1. unfold gets at 1.
  unfold bind at 1.
  rewrite kill_loop by (eapply silent_same; [exact Hs|reflexivity]).
  cbn [proc record set_trace].
  destruct (kills_accepted w (proc s)).
  - unfold Flow.proc_clear.
    rewrite act_silent by (eapply silent_same; [exact Hs|reflexivity]).
    norm_state. reflexivity.
  - norm_state. reflexivity.
Qed.
End TerminateAll.

Lemma term_events_accepted w items :
  terms_accepted w items = true -> term_events w items = graceful_requests items.
Proof.
  induction items as [|[name p] items IH]; cbn [terms_accepted forallb snd]; auto.
  intros H. apply andb_prop in H. destruct H as [H1 H2].
  cbn [term_events graceful_requests flat_map fst snd app].
  destruct (term_refused w p); [discriminate|].
  rewrite IH by exact H2. reflexivity.
Qed.

Lemma kill_events_accepted w items :
  kills_accepted w items = true -> kill_events w items = forced_kills w items.
Proof.
  induction items as [|[name p] items IH]; cbn [kills_accepted forallb snd]; auto.
  intros H. apply andb_prop in H. destruct H as [H1 H2].
  cbn [kill_events forced_kills flat_map fst snd app].
  destruct (alive_after_grace w p); cbn [andb negb app] in *.
  - destruct (kill_refused w p); [discriminate|].
    rewrite IH by exact H2. reflexivity.
  - rewrite IH by exact H2. reflexivity.
Qed.

Lemma in_graceful_requests p items :
  In (EvTerminate p) (graceful_requests items) <-> In p (Dict.values items).
Proof.
  unfold graceful_requests, Dict.values. rewrite in_flat_map, in_map_iff.
  split.
  - intros ([name q] & Hin & [E|[E|[]]]); [discriminate|].
    inversion E; subst. exists (name, p). auto.
  - intros ([name q] & E & Hin). cbn in E. subst.
    exists (name, p). cbn. auto.
Qed.

Lemma in_forced_kills w p items :
  In (EvKill p) (forced_kills w items) <->
  In p (Dict.values items) /\ alive_after_grace w p = true.
Proof.
  unfold forced_kills, Dict.values. rewrite in_flat_map, in_map_iff.
  split.
  - intros ([name q] & Hin & [E|H]); [discriminate|].
    cbn [snd fst] in H.
    destruct (alive_after_grace w q) eqn:Ea; [|destruct H].
    destruct H as [E|[E|[]]]; [discriminate|].
    inversion E; subst. split; [exists (name, p); auto | exact Ea].
  - intros (([name q] & E & Hin) & Ha). cbn in E. subst.
    exists (name, p). split; [exact Hin|].
    cbn [snd fst]. rewrite Ha. cbn. auto.
Qed.

Lemma term_events_refused w items :
  terms_accepted w items = false ->
  exists evs p, term_events w items = (evs ++ [EvTerminate p])%list
                /\ term_refused w p = true.
Proof.
  induction items as [|[name p] items IH]; cbn [terms_accepted forallb snd];
    [discriminate|].
  cbn [term_events]. destruct (term_refused w p) eqn:E; cbn [negb andb].
  - intros _. exists [EvLog DEBUG (terminate_msg name)], p. auto.
  - intros H. destruct (IH H) as (evs & q & E1 & E2).
    exists (EvLog DEBUG (terminate_msg name) :: EvTerminate p :: evs), q.
    rewrite E1. auto.
Qed.

Lemma kill_events_refused w items :
  kills_accepted w items = false ->
  exists evs p, kill_events w items = (evs ++ [EvKill p])%list
                /\ kill_refused w p = true.
Proof.
  induction items as [|[name p] items IH]; cbn [kills_accepted forallb snd];
    [discriminate|].
  cbn [kill_events].
  destruct (alive_after_grace w p) eqn:Ea; cbn [negb andb].
  - destruct (kill_refused w p) eqn:E; cbn [negb andb].
    + intros _. exists [EvPoll p; EvLog DEBUG (kill_msg name)], p. auto.
    + intros H. destruct (IH H) as (evs & q & E1 & E2).
      exists (EvPoll p :: EvLog DEBUG (kill_msg name) :: EvKill p :: evs), q.
      rewrite E1. auto.
  - intros H. destruct (IH H) as (evs & q & E1 & E2).
    exists (EvPoll p :: evs), q. rewrite E1. auto.
Qed.

(** The request that is refused is the first one, in the order of the
    registry, that the system refuses. *)
Lemma term_events_first_refusal w items :
  terms_accepted w items = false ->
  exists before name p after,
    items = (before ++ (name, p) :: after)%list
    /\ terms_accepted w before = true
    /\ term_refused w p = true
    /\ term_events w items =
         (graceful_requests before ++
          [EvLog DEBUG (terminate_msg name); EvTerminate p])%list.
Proof.
  induction items as [|[name p] items IH]; cbn [terms_accepted forallb snd];
    [discriminate|].
  destruct (term_refused w p) eqn:E; cbn [negb andb].
  - intros _. exists [], name, p, items.
    cbn [term_events]. rewrite E. repeat split; reflexivity.
  - intros H. destruct (IH H) as (b & n & q & a & E1 & E2 & E3 & E4).
    exists ((name, p) :: b), n, q, a.
    split; [rewrite E1; reflexivity|].
    split; [cbn [terms_accepted forallb snd]; rewrite E; exact E2|].
    split; [exact E3|].
    cbn [term_events graceful_requests flat_map fst snd app].
    rewrite E, E4. reflexivity.
Qed.

Lemma kill_events_first_refusal w items :
  kills_accepted w items = false ->
  exists before name p after,
    items = (before ++ (name, p) :: after)%list
    /\ kills_accepted w before = true
    /\ alive_after_grace w p = true
    /\ kill_refused w p = true
    /\ kill_events w items =
         (forced_kills w before ++
          [EvPoll p; EvLog DEBUG (kill_msg name); EvKill p])%list.
Proof.
  induction items as [|[name p] items IH]; cbn [kills_accepted forallb snd];
    [discriminate|].
  destruct (alive_after_grace w p) eqn:Ea; cbn [negb andb].
  - destruct (kill_refused w p) eqn:E; cbn [negb andb].
    + intros _. exists [], name, p, items.
      cbn [kill_events]. rewrite Ea, E. repeat split; reflexivity.
    + intros H. destruct (IH H) as (b & n & q & a & E1 & E2 & E3 & E4 & E5).
      exists ((name, p) :: b), n, q, a.
      split; [rewrite E1; reflexivity|].
      split; [cbn [kills_accepted forallb snd]; rewrite Ea, E; exact E2|].
      split; [exact E3|]. split; [exact E4|].
      cbn [kill_events forced_kills flat_map fst snd app].
      rewrite Ea, E, E5. reflexivity.
  - intros H. destruct (IH H) as (b & n & q & a & E1 & E2 & E3 & E4 & E5).
    exists ((name, p) :: b), n, q, a.
    split; [rewrite E1; reflexivity|].
    split; [cbn [kills_accepted forallb snd]; rewrite Ea; exact E2|].
    split; [exact E3|]. split; [exact E4|].
    cbn [kill_events forced_kills flat_map fst snd app].
    rewrite Ea, E5. reflexivity.
Qed.

Lemma accepted_nil_registry w items :
  terms_accepted w items && kills_accepted w items = false -> items <> [].
Proof. intros H E. subst. discriminate H. Qed.

(* ================================================================== *)
(** ** Claims about [terminateAll] *)

(** C5, as the code has it.  Provided the system refuses no request (and
    no signal arrives), [terminateAll] asks every registered process to
    terminate (one request per process, in registry order), sleeps
    200 ms, polls every process and kills exactly those that are still
    alive, then clears the registry; called again right away, on the now
    empty registry, it returns normally having done nothing but sleep
    and clear: no request to terminate or kill is made.  Without the
    proviso the first part fails: see the counterexample below and the
    claim C3. *)
Theorem terminateAll_escalates_then_idles w s :
  pending s = None ->
  terms_accepted w (proc s) = true ->
  kills_accepted w (proc s) = true ->
  let s1 :=
    set_proc []
      (set_trace (trace s ++ graceful_requests (proc s) ++ [EvSleep 200] ++
                  forced_kills w (proc s) ++ [EvRegistryClear]) s) in
  terminateAll w s = (Ret tt, s1)
  /\ (forall p, In (EvTerminate p) (graceful_requests (proc s)) <->
                In p (Dict.values (proc s)))
  /\ (forall p, In (EvKill p) (forced_kills w (proc s)) <->
                In p (Dict.values (proc s)) /\ alive_after_grace w p = true)
  /\ proc s1 = []
  /\ terminateAll w s1 =
       (Ret tt, set_trace (trace s1 ++ [EvSleep 200; EvRegistryClear]) s1).
Proof.
  intros Hp Ht Hk s1.
  split; [|split; [|split; [|split]]].
  - unfold terminateAll. rewrite (terminateAll_exec w (silent_poll w _ Hp)).
    rewrite Ht, Hk.
    rewrite (term_events_accepted _ _ Ht), (kill_events_accepted _ _ Hk).
    reflexivity.
  - intros p. apply in_graceful_requests.
  - intros p. apply in_forced_kills.
  - reflexivity.
  - unfold terminateAll.
    rewrite (@terminateAll_exec w (poll_signals w) s1)
      by (apply silent_poll; exact Hp).
    reflexivity.
Qed.

Lemma terminateAll_escalates_then_idles_witness :
  let s := three_roles lingering_world in
  pending s = None
  /\ proc s = [("skald", 0); ("reader", 1); ("writer", 2)]
  /\ exists s1,
       terminateAll lingering_world s = (Ret tt, s1)
       /\ trace s1 =
            (trace s ++
             [EvLog DEBUG "Terminating process 'skald'"; EvTerminate 0;
              EvLog DEBUG "Terminating process 'reader'"; EvTerminate 1;
              EvLog DEBUG "Terminating process 'writer'"; EvTerminate 2;
              EvSleep 200;
              EvPoll 0;
              EvLog DEBUG "Process 'skald' is still alive; killing it!";
              EvKill 0;
              EvPoll 1; EvPoll 2; EvRegistryClear])%list
       /\ terminateAll lingering_world s1 =
            (Ret tt, set_trace (trace s1 ++ [EvSleep 200; EvRegistryClear]) s1).
Proof.
  intros s. split; [reflexivity|]. split; [reflexivity|].
  destruct (@terminateAll_escalates_then_idles lingering_world s
              eq_refl eq_refl eq_refl) as (H1 & _ & _ & _ & H5).
  eexists. split; [exact H1|]. split; [reflexivity|exact H5].
Defined.

(** C5 as stated fails when a request is refused: [skald] refuses the
    request to terminate, and [terminateAll] leaves at once.  The reader
    and the writer, both registered, are never asked to terminate, there
    is no grace interval, nothing is polled or killed, and the registry
    is not cleared. *)
Lemma terminateAll_escalation_counterexample :
  let s := three_roles refusing_world in
  let r := terminateAll refusing_world s in
  Dict.values (proc s) = [0; 1; 2]
  /\ ~ In (EvTerminate 1) (trace (snd r))
  /\ ~ In (EvTerminate 2) (trace (snd r))
  /\ ~ In (EvSleep 200) (trace (snd r))
  /\ (forall p, ~ In (EvPoll p) (trace (snd r)))
  /\ proc (snd r) = proc s
  /\ is_ret (fst r) = false.
Proof.
  cbv zeta.
  split; [vm_compute; reflexivity|].
  split; [intros H; vm_compute in H; intuition discriminate|].
  split; [intros H; vm_compute in H; intuition discriminate|].
  split; [intros H; vm_compute in H; intuition discriminate|].
  split; [intros p H; vm_compute in H; intuition discriminate|].
  split; vm_compute; reflexivity.
Qed.

(** C3, as the code has it.  [terminateAll] does not recover from a
    refused request.  When no signal arrives: if every request is
    accepted it returns and the registry is empty; if the system refuses
    a request, the [OSError] of the first refused request reaches the
    caller, that request is the last thing [terminateAll] did (nothing is
    logged about the failure) and the registry is left as it was, not
    cleared.  The first refused request is the first in the order of the
    registry: the requests of the entries before it have all been made
    and accepted, and nothing is asked of the entries after it. *)
Theorem terminateAll_propagates_refusal w s :
  pending s = None ->
  let r := terminateAll w s in
  (terms_accepted w (proc s) && kills_accepted w (proc s) = true ->
     fst r = Ret tt /\ proc (snd r) = [])
  /\ (terms_accepted w (proc s) && kills_accepted w (proc s) = false ->
        (exists what, fst r = Raise (OSError what))
        /\ proc (snd r) = proc s
        /\ proc (snd r) <> []
        /\ (exists evs p,
              trace (snd r) = (trace s ++ evs ++ [if terms_accepted w (proc s)
                                                  then EvKill p else EvTerminate p])%list
              /\ (if terms_accepted w (proc s)
                  then kill_refused w p else term_refused w p) = true)
        /\ exists before name p after,
             proc s = (before ++ (name, p) :: after)%list
             /\ if terms_accepted w (proc s)
                then kills_accepted w before = true
                     /\ alive_after_grace w p = true
                     /\ kill_refused w p = true
                     /\ fst r = Raise (OSError "kill")
                     /\ trace (snd r) =
                          (trace s ++ graceful_requests (proc s) ++ [EvSleep 200] ++
                           forced_kills w before ++
                           [EvPoll p; EvLog DEBUG (kill_msg name); EvKill p])%list
                else terms_accepted w before = true
                     /\ term_refused w p = true
                     /\ fst r = Raise (OSError "terminate")
                     /\ trace (snd r) =
                          (trace s ++ graceful_requests before ++
                           [EvLog DEBUG (terminate_msg name); EvTerminate p])%list).
Proof.
  intros Hp r.
  assert (Er : r = terminateAll w s) by reflexivity.
  unfold terminateAll in Er.
  rewrite (terminateAll_exec w (silent_poll w _ Hp)) in Er.
  split.
  - intros H. apply andb_prop in H. destruct H as [Ht Hk].
    rewrite Ht, Hk in Er. rewrite Er. split; reflexivity.
  - intros H. pose proof (@accepted_nil_registry _ _ H) as Hne.
    destruct (terms_accepted w (proc s)) eqn:Ht.
    + cbn [andb] in H. rewrite H in Er. rewrite Er. cbn [fst snd].
      split; [eexists; reflexivity|]. split; [reflexivity|].
      split; [exact Hne|]. split.
      * destruct (@kill_events_refused _ _ H) as (evs & p & E1 & E2).
        exists (term_events w (proc s) ++ [EvSleep 200] ++ evs)%list, p.
        split; [|exact E2].
        cbn [trace set_trace]. rewrite E1. rewrite <- !app_assoc. reflexivity.
      * destruct (@kill_events_first_refusal _ _ H)
          as (b & n & p & a & E1 & E2 & E3 & E4 & E5).
        exists b, n, p, a. split; [exact E1|].
        repeat (split; [assumption || reflexivity|]).
        cbn [trace set_trace].
        rewrite E5, (term_events_accepted _ _ Ht). reflexivity.
    + rewrite Er. cbn [fst snd].
      split; [eexists; reflexivity|]. split; [reflexivity|].
      split; [exact Hne|]. split.
      * destruct (@term_events_refused _ _ Ht) as (evs & p & E1 & E2).
        exists evs, p. split; [|exact E2].
        cbn [trace set_trace]. rewrite E1. reflexivity.
      * destruct (@term_events_first_refusal _ _ Ht)
          as (b & n & p & a & E1 & E2 & E3 & E4).
        exists b, n, p, a. split; [exact E1|].
        repeat (split; [assumption || reflexivity|]).
        cbn [trace set_trace]. rewrite E4. reflexivity.
Qed.

Lemma terminateAll_propagates_refusal_witness :
  let s := three_roles refusing_world in
  pending s = None
  /\ terms_accepted refusing_world (proc s) && kills_accepted refusing_world (proc s)
     = false
  /\ (exists what, fst (terminateAll refusing_world s) = Raise (OSError what))
  /\ proc (snd (terminateAll refusing_world s)) = proc s.
Proof.
  intros s. split; [reflexivity|]. split; [reflexivity|].
  destruct (proj2 (@terminateAll_propagates_refusal refusing_world s eq_refl)
              eq_refl) as (H1 & H2 & _).
  split; [exact H1|exact H2].
Defined.

(** C3 as stated fails: [skald] refuses the request, the error leaves
    [terminateAll] and all three processes stay registered. *)
Lemma terminateAll_refusal_counterexample :
  let r := terminateAll refusing_world (three_roles refusing_world) in
  fst r = Raise (OSError "terminate")
  /\ proc (snd r) = [("skald", 0); ("reader", 1); ("writer", 2)]
  /\ trace (snd r) =
       (trace (three_roles refusing_world) ++
        [EvLog DEBUG "Terminating process 'skald'"; EvTerminate 0])%list
  /\ ~ (fst r = Ret tt /\ proc (snd r) = []).
Proof.
  cbv zeta. repeat (split; [vm_compute; reflexivity|]).
  intros [H _]. vm_compute in H. discriminate H.
Qed.

(* ================================================================== *)
(** ** The leak scan and the verdict, step by step *)

Lemma readlines_nil c : readlines c = [] -> c = "".
Proof.
  destruct c as [|x rest]; auto. cbn [readlines].
  destruct (Ascii.eqb x newline); [discriminate|].
  destruct (readlines rest); discriminate.
Qed.

Lemma starts_with_first_line p :
  no_newline p = true ->
  forall c l ls, readlines c = l :: ls -> starts_with p l = starts_with p c.
Proof.
  induction p as [|a p IH]; intros Hp c l ls Hc.
  - destruct l, c; reflexivity.
  - cbn [no_newline] in Hp. apply andb_prop in Hp. destruct Hp as [Ha Hp].
    apply negb_true_iff in Ha.
    destruct c as [|y r]; [discriminate|].
    cbn [readlines] in Hc.
    destruct (Ascii.eqb_spec y newline) as [Ey|Ey].
    + inversion Hc; subst. cbn [starts_with]. rewrite Ha. reflexivity.
    + destruct (readlines r) as [|l' ls'] eqn:Er.
      * apply readlines_nil in Er. subst. inversion Hc; subst. reflexivity.
      * inversion Hc; subst. cbn [starts_with].
        erewrite IH by eauto. reflexivity.
Qed.

Lemma existsb_contains_readlines p :
  no_newline p = true -> p <> "" ->
  forall c, existsb (contains p) (readlines c) = contains p c.
Proof.
  intros Hp Hne. induction c as [|x rest IH].
  - destruct p; [congruence|reflexivity].
  - cbn [readlines].
    destruct (Ascii.eqb_spec x newline) as [Ex|Ex].
    + cbn [existsb]. rewrite IH. subst x.
      destruct p as [|a p']; [congruence|].
      cbn [no_newline] in Hp. apply andb_prop in Hp. destruct Hp as [Ha _].
      apply negb_true_iff in Ha.
      cbn [contains starts_with]. rewrite Ha. reflexivity.
    + destruct (readlines rest) as [|l ls] eqn:Er.
      * apply readlines_nil in Er. subst rest. cbn [existsb].
        apply orb_false_r.
      * cbn [existsb] in *.
        change (contains p (String x rest))
          with (starts_with p (String x rest) || contains p rest).
        change (contains p (String x l))
          with (starts_with p (String x l) || contains p l).
        rewrite <- IH.
        destruct p as [|a p']; [congruence|].
        cbn [no_newline] in Hp. apply andb_prop in Hp. destruct Hp as [_ Hp'].
        cbn [starts_with]. rewrite (starts_with_first_line p' Hp' rest Er).
        rewrite orb_assoc. reflexivity.
Qed.

Lemma scan_lines_existsb ls :
  Flow.scan_lines ls = existsb (contains Flow.leak_marker) ls.
Proof.
  induction ls as [|l ls IH]; cbn [Flow.scan_lines existsb]; [reflexivity|].
  rewrite IH. destruct (contains Flow.leak_marker l); reflexivity.
Qed.

(** The scan of one log file finds the marker exactly when the file's
    text contains it. *)
Lemma scan_lines_readlines c :
  Flow.scan_lines (readlines c) = contains Flow.leak_marker c.
Proof.
  rewrite scan_lines_existsb. apply existsb_contains_readlines.
  - reflexivity.
  - discriminate.
Qed.

Section Report.
Variable w : World.
Variable cp : M unit.

Lemma close_loop files s :
  silent cp s ->
  for_each files (fun '(p, f) => Flow.file_close cp f) s
  = (Ret tt, set_trace (trace s ++ map EvClose (Dict.values files)) s).
Proof.
  revert s. induction files as [|[p f] files IH]; intros s Hs.
  - cbn [for_each Dict.values map]. rewrite app_nil_r. destruct s; reflexivity.
  - cbn [for_each Dict.values map snd]. unfold Flow.file_close.
    unfold bind at 1. rewrite (act_silent _ Hs).
    rewrite IH by (eapply silent_same; [exact Hs|reflexivity]).
    norm_state. reflexivity.
Qed.

Lemma scan_loop paths acc s :
  silent cp s ->
  fold_each paths (fun memoryLeak '(p, filepath) =>
    f <- Flow.open_file cp filepath ModeR ;;
    let found := Flow.scan_lines (readlines (log_content w filepath)) in
    (if found then Flow.print cp (Flow.leak_message p filepath) else ret tt) ;;
    Flow.file_close cp f ;;
    Flow.file_close cp f ;;
    ret (found || memoryLeak)) acc s
  = (Ret (leaking w paths || acc),
     set_next_fd (next_fd s + List.length paths)
       (set_trace (trace s ++ scan_events w (next_fd s) paths) s)).
Proof.
  revert acc s. induction paths as [|[p filepath] paths IH]; intros acc s Hs.
  - cbn [fold_each leaking existsb List.length scan_events orb].
    rewrite app_nil_r, Nat.add_0_r. destruct s; reflexivity.
  - cbn [fold_each scan_events leaking existsb snd List.length].
    unfold Flow.open_file, Flow.print, Flow.file_close.
    unfold bind at 1. unfold bind at 1. unfold bind at 1.
    rewrite (Hs s eq_refl). unfold bind at 1. unfold gets at 1.
    unfold bind at 1. unfold modify at 1. unfold ret at 1.
    cbv zeta. rewrite scan_lines_readlines.
    fold (leaking w paths).
    destruct (contains Flow.leak_marker (log_content w filepath)).
    + unfold bind at 1. unfold bind at 1.
      rewrite act_silent by (eapply silent_same; [exact Hs|reflexivity]).
      unfold bind at 1.
      rewrite act_silent by (eapply silent_same; [exact Hs|reflexivity]).
      unfold bind at 1.
      rewrite act_silent by (eapply silent_same; [exact Hs|reflexivity]).
      unfold ret at 1.
      rewrite IH by (eapply silent_same; [exact Hs|reflexivity]).
      norm_state. rewrite Nat.add_succ_r. rewrite orb_true_r. reflexivity.
    + unfold bind at 1. unfold bind at 1. unfold ret at 1.
      unfold bind at 1.
      rewrite act_silent by (eapply silent_same; [exact Hs|reflexivity]).
      unfold bind at 1.
      rewrite act_silent by (eapply silent_same; [exact Hs|reflexivity]).
      unfold ret at 1.
      rewrite IH by (eapply silent_same; [exact Hs|reflexivity]).
      norm_state. rewrite Nat.add_succ_r. rewrite orb_assoc, orb_false_r.
      reflexivity.
Qed.

(** The complete behaviour of the end of the script when no signal
    arrives. *)
Lemma report_exec s :
  silent cp s ->
  Flow.report w cp s =
    let failCount := Flow.count_failed (results s) in
    let leak := leaking w (outputPaths s) in
    (verdict failCount leak,
     set_next_fd (next_fd s + List.length (outputPaths s))
       (set_trace
          (trace s ++ map EvClose (Dict.values (outputFiles s)) ++
           scan_events w (next_fd s) (outputPaths s) ++
           [EvPrint (summary_line failCount (List.length (results s)) leak)]) s)).
Proof.
  intros Hs. unfold Flow.report, Flow.check_leaks, Flow.print_results.
  unfold bind at 1. unfold bind at 1. unfold gets at 1.
  unfold bind at 1. rewrite (close_loop _ Hs).
  unfold bind at 1. unfold gets at 1.
  rewrite scan_loop by (eapply silent_same; [exact Hs|reflexivity]).
  rewrite orb_false_r.
  unfold bind at 1. unfold gets at 1. cbv zeta.
  unfold verdict, summary_line, Flow.print.
  cbn [results set_trace set_next_fd outputPaths next_fd trace].
  destruct (Nat.ltb 0 (Flow.count_failed (results s))).
  - unfold bind at 1.
    rewrite act_silent by (eapply silent_same; [exact Hs|reflexivity]).
    unfold sys_exit. norm_state. reflexivity.
  - destruct (leaking w (outputPaths s)).
    + unfold bind at 1.
      rewrite act_silent by (eapply silent_same; [exact Hs|reflexivity]).
      unfold sys_exit. norm_state. reflexivity.
    + rewrite act_silent by (eapply silent_same; [exact Hs|reflexivity]).
      norm_state. reflexivity.
Qed.
End Report.

(* ------------------------------------------------------------------ *)
(** *** The three summary lines are told apart *)

Lemma append_nonempty a b : b <> "" -> a ++ b <> "".
Proof. destruct a; cbn; [auto|discriminate]. Qed.

Lemma last_char_append a b : b <> "" -> last_char (a ++ b) = last_char b.
Proof.
  intros Hb. induction a as [|x a IH]; [reflexivity|].
  change (String x a ++ b) with (String x (a ++ b)).
  cbn [last_char]. rewrite IH.
  destruct (a ++ b) eqn:E; [|reflexivity].
  exfalso. exact (append_nonempty a Hb E).
Qed.

Lemma last_char_summary_failed k n :
  last_char (Flow.summary_failed k n) = Some "d"%char.
Proof.
  unfold Flow.summary_failed.
  rewrite !last_char_append;
    try reflexivity; repeat apply append_nonempty; discriminate.
Qed.

Lemma last_char_summary_leaks n :
  last_char (Flow.summary_leaks n) = Some "s"%char.
Proof.
  unfold Flow.summary_leaks.
  rewrite !last_char_append;
    try reflexivity; repeat apply append_nonempty; discriminate.
Qed.

Lemma summary_failed_not_leaks k n m :
  Flow.summary_failed k n <> Flow.summary_leaks m.
Proof.
  intros E. apply (f_equal last_char) in E.
  rewrite last_char_summary_failed, last_char_summary_leaks in E. discriminate.
Qed.

Lemma summary_pass_not_fail k n m :
  Flow.summary_pass m <> Flow.summary_failed k n
  /\ Flow.summary_pass m <> Flow.summary_leaks n.
Proof.
  unfold Flow.summary_pass, Flow.summary_failed, Flow.summary_leaks.
  split; intros E; cbn [String.append] in E;
    repeat (injection E as _ E || injection E as E); discriminate.
Qed.

Lemma count_failed_filter rs :
  Flow.count_failed rs = List.length (filter (fun r => negb (snd r)) rs).
Proof.
  induction rs as [|[d b] rs IH]; cbn [Flow.count_failed filter snd]; auto.
  destruct b; cbn [negb List.length]; auto.
Qed.

Lemma leaking_iff w paths :
  leaking w paths = true <->
  exists p filepath, In (p, filepath) paths
                     /\ contains "Memory leak detected" (log_content w filepath) = true.
Proof.
  unfold leaking. rewrite existsb_exists. split.
  - intros ([p f] & Hin & H). exists p, f. auto.
  - intros (p & f & Hin & H). exists (p, f). auto.
Qed.

(* ================================================================== *)
(** ** Claim about the verdict *)

(** C1.  At the end of a run that no signal interrupts, with [failCount]
    the number of recorded results whose success is false and a leak
    meaning that the text of some log file on record contains
    "Memory leak detected": the script ends with status 0, having printed
    the PASS line, exactly when [failCount = 0] and there is no leak;
    with [failCount > 0] it prints the "failed" line and exits with 1;
    with [failCount = 0] and a leak it prints the "passed, but with memory
    leaks" line and exits with 1; and the three lines are pairwise
    different whatever the counts. *)
Theorem verdict_pass_iff_clean w s :
  pending s = None ->
  let failCount := List.length (filter (fun r => negb (snd r)) (results s)) in
  let total := List.length (results s) in
  let leak := exists p filepath,
                In (p, filepath) (outputPaths s)
                /\ contains "Memory leak detected" (log_content w filepath) = true in
  let r := report w s in
  (exit_status (fst r) = 0%Z <-> failCount = 0 /\ ~ leak)
  /\ (failCount = 0 /\ ~ leak ->
        fst r = Ret tt
        /\ last (trace (snd r)) EvTimerCancel = EvPrint (Flow.summary_pass total))
  /\ (0 < failCount ->
        fst r = Exit 1
        /\ last (trace (snd r)) EvTimerCancel
           = EvPrint (Flow.summary_failed failCount total))
  /\ (failCount = 0 /\ leak ->
        fst r = Exit 1
        /\ last (trace (snd r)) EvTimerCancel = EvPrint (Flow.summary_leaks total))
  /\ (forall k n m, Flow.summary_failed k n <> Flow.summary_leaks m)
  /\ (forall k n m, Flow.summary_pass m <> Flow.summary_failed k n
                    /\ Flow.summary_pass m <> Flow.summary_leaks n).
Proof.
  intros Hp failCount total leak r.
  assert (Er : r = report w s) by reflexivity.
  unfold report in Er.
  rewrite (report_exec w (silent_poll w _ Hp)) in Er. cbv zeta in Er.
  rewrite count_failed_filter in Er. fold failCount total in Er.
  assert (Hleak : leaking w (outputPaths s) = true <-> leak)
    by apply leaking_iff.
  assert (Hlast : last (trace (snd r)) EvTimerCancel
                  = EvPrint (summary_line failCount total (leaking w (outputPaths s)))).
  { rewrite Er. cbn [snd trace set_trace set_next_fd].
    rewrite !app_assoc. apply last_last. }
  assert (Hfst : fst r = verdict failCount (leaking w (outputPaths s)))
    by (rewrite Er; reflexivity).
  unfold verdict in Hfst. unfold summary_line in Hlast.
  split; [|split; [|split; [|split; [|split]]]].
  - rewrite Hfst.
    destruct (Nat.ltb_spec 0 failCount) as [L|L]; cbn [exit_status].
    + split; [discriminate | intros [E _]; lia].
    + destruct (leaking w (outputPaths s)); cbn [exit_status].
      * split; [discriminate | intros [_ N]; exfalso; apply N, Hleak; reflexivity].
      * split; [|reflexivity]. intros _. split; [lia|].
        intros H. apply Hleak in H. discriminate.
  - intros [E N]. rewrite Hfst, Hlast.
    destruct (Nat.ltb_spec 0 failCount) as [L|L]; [lia|].
    destruct (leaking w (outputPaths s)); [|auto].
    exfalso. apply N, Hleak. reflexivity.
  - intros L. rewrite Hfst, Hlast.
    destruct (Nat.ltb_spec 0 failCount) as [L'|L']; [auto|lia].
  - intros [E H]. rewrite Hfst, Hlast.
    destruct (Nat.ltb_spec 0 failCount) as [L|L]; [lia|].
    apply Hleak in H. rewrite H. auto.
  - apply summary_failed_not_leaks.
  - apply summary_pass_not_fail.
Qed.

Lemma verdict_pass_iff_clean_witness :
  pending (after_scenarios leaky_world) = None
  /\ outputPaths (after_scenarios leaky_world)
     = [("skald", "skald.log"); ("reader", "reader.log"); ("writer", "writer.log")]
  /\ fst (report leaky_world (after_scenarios leaky_world)) = Exit 1
  /\ last (trace (snd (report leaky_world (after_scenarios leaky_world))))
          EvTimerCancel
     = EvPrint "INTEGRATION TEST FAIL - 4/4 integration tests passed, but with memory leaks".
Proof.
  split; [reflexivity|]. split; [reflexivity|].
  refine (proj1 (proj2 (proj2 (proj2
            (@verdict_pass_iff_clean leaky_world (after_scenarios leaky_world)
               eq_refl)))) _).
  split; [reflexivity|].
  exists "reader", "reader.log". split; [cbn; auto | reflexivity].
Defined.

(* ================================================================== *)
(** ** Rules of the logic for interruptible runs *)

Section HoareRules.
Variable E : abnormal -> state -> Prop.

Lemma hoare_bind A B P (m : M A) Q (f : A -> M B) R :
  hoare P m Q E -> (forall a, hoare (Q a) (f a) R E) -> hoare P (bind m f) R E.
Proof.
  intros Hm Hf s Hs. unfold bind. specialize (Hm s Hs).
  destruct (m s) as [[a|c|e] s1]; auto. apply Hf. exact Hm.
Qed.

Lemma hoare_weaken A (P P' : state -> Prop) (m : M A) (Q Q' : A -> state -> Prop) :
  hoare P m Q E -> (forall s, P' s -> P s) -> (forall a s, Q a s -> Q' a s) ->
  hoare P' m Q' E.
Proof.
  intros Hm HP HQ s Hs. specialize (Hm s (HP s Hs)).
  destruct (m s) as [[a|c|e] s1]; auto.
Qed.

Lemma hoare_modify (P Q : state -> Prop) f :
  (forall s, P s -> Q (f s)) -> hoare P (modify f) (fun _ => Q) E.
Proof. intros H s Hs. cbn. auto. Qed.

Lemma hoare_raise A P Q e :
  (forall s, P s -> E (ARaise e) s) -> hoare P (@raise A e) Q E.
Proof. intros H s Hs. cbn. auto. Qed.

Lemma hoare_exit A P Q c :
  (forall s, P s -> E (AExit c) s) -> hoare P (@sys_exit A c) Q E.
Proof. intros H s Hs. cbn. auto. Qed.

Lemma hoare_pure A (B : Prop) P (m : M A) Q :
  (B -> hoare P m Q E) -> hoare (fun s => B /\ P s) m Q E.
Proof. intros H s [Hb Hs]. exact (H Hb s Hs). Qed.

Lemma keeps_bind A B I (m : M A) (f : A -> M B) :
  keeps I E m -> (forall a, keeps I E (f a)) -> keeps I E (bind m f).
Proof. intros Hm Hf. eapply hoare_bind; [exact Hm|exact Hf]. Qed.

Lemma keeps_ret A I (a : A) : keeps I E (ret a).
Proof. intros s Hs. exact Hs. Qed.

Lemma keeps_gets A I (f : state -> A) : keeps I E (gets f).
Proof. intros s Hs. exact Hs. Qed.

Lemma keeps_for_each A I (l : list A) f :
  (forall x, keeps I E (f x)) -> keeps I E (for_each l f).
Proof.
  intros Hf. induction l as [|x l IH]; cbn [for_each].
  - apply keeps_ret.
  - apply keeps_bind; [apply Hf | intros _; exact IH].
Qed.

Lemma keeps_fold_each A B I (l : list A) (f : B -> A -> M B) b :
  (forall b x, keeps I E (f b x)) -> keeps I E (fold_each l f b).
Proof.
  intros Hf. revert b. induction l as [|x l IH]; intros b; cbn [fold_each].
  - apply keeps_ret.
  - apply keeps_bind; [apply Hf | intros b'; apply IH].
Qed.
End HoareRules.

(** *** The functions of the script keep what their steps keep *)

Section Keeps.
Variable w : World.
Variable cp : M unit.
Variable I : state -> Prop.
Variable E : abnormal -> state -> Prop.

Hypothesis Hcp : keeps I E cp.
Hypothesis Hraise : forall e s, I s -> E (ARaise e) s.
Hypothesis Hrecord : forall e s, plain e = true -> I s -> I (record e s).
Hypothesis Hset_proc : forall d s, I s -> I (set_proc d s).
Hypothesis Hset_heap : forall h s, I s -> I (set_heap h s).
Hypothesis Hclear : forall s, I s -> I (record EvRegistryClear (set_proc [] s)).
Hypothesis Hspawn : forall a, keeps I E (Flow.spawn w cp a).

Lemma keeps_act f : (forall s, I s -> I (f s)) -> keeps I E (Flow.act cp f).
Proof.
  intros Hf. unfold Flow.act. apply keeps_bind; [exact Hcp|].
  intros _. apply hoare_modify. exact Hf.
Qed.

Lemma keeps_raise A e : keeps I E (@raise A e).
Proof. apply hoare_raise. apply Hraise. Qed.

Lemma keeps_logger_debug msg : keeps I E (Flow.logger_debug cp msg).
Proof. apply keeps_act. intros s. apply Hrecord. reflexivity. Qed.

Lemma keeps_time_sleep ms : keeps I E (Flow.time_sleep cp ms).
Proof. apply keeps_act. intros s. apply Hrecord. reflexivity. Qed.

Lemma keeps_process_terminate p : keeps I E (Flow.process_terminate w cp p).
Proof.
  unfold Flow.process_terminate. apply keeps_bind.
  - apply keeps_act. intros s. apply Hrecord. reflexivity.
  - intros _. destruct (term_refused w p); [apply keeps_raise|apply keeps_ret].
Qed.

Lemma keeps_process_kill p : keeps I E (Flow.process_kill w cp p).
Proof.
  unfold Flow.process_kill. apply keeps_bind.
  - apply keeps_act. intros s. apply Hrecord. reflexivity.
  - intros _. destruct (kill_refused w p); [apply keeps_raise|apply keeps_ret].
Qed.

Lemma keeps_process_poll p : keeps I E (Flow.process_poll w cp p).
Proof.
  unfold Flow.process_poll. apply keeps_bind.
  - apply keeps_act. intros s. apply Hrecord. reflexivity.
  - intros _. apply keeps_ret.
Qed.

Lemma keeps_process_wait p : keeps I E (Flow.process_wait w cp p).
Proof.
  unfold Flow.process_wait. apply keeps_bind.
  - apply keeps_act. intros s. apply Hrecord. reflexivity.
  - intros _. apply keeps_ret.
Qed.

Lemma keeps_proc_clear : keeps I E (Flow.proc_clear cp).
Proof. apply keeps_act. exact Hclear. Qed.

Lemma keeps_proc_set role p : keeps I E (Flow.proc_set cp role p).
Proof. apply keeps_act. intros s. apply Hset_proc. Qed.

Lemma keeps_proc_lookup role : keeps I E (Flow.proc_lookup role).
Proof.
  unfold Flow.proc_lookup. apply keeps_bind; [apply keeps_gets|].
  intros d. destruct (Dict.get role d); [apply keeps_ret|apply keeps_raise].
Qed.

Lemma keeps_proc_del role : keeps I E (Flow.proc_del cp role).
Proof.
  unfold Flow.proc_del. apply keeps_bind; [apply keeps_gets|].
  intros d. destruct (Dict.del role d); [|apply keeps_raise].
  apply keeps_act. intros s. apply Hset_proc.
Qed.

Lemma keeps_new_list l : keeps I E (Flow.new_list cp l).
Proof.
  unfold Flow.new_list. apply keeps_bind; [apply keeps_gets|].
  intros a. apply keeps_bind; [|intros _; apply keeps_ret].
  apply keeps_act. intros s. apply Hset_heap.
Qed.

Lemma keeps_terminateAll : keeps I E (Flow.terminateAll w cp).
Proof.
  unfold Flow.terminateAll.
  apply keeps_bind; [apply keeps_gets|]. intros items.
  apply keeps_bind.
  { apply keeps_for_each. intros [name p].
    apply keeps_bind; [apply keeps_logger_debug|].
    intros _. apply keeps_process_terminate. }
  intros _. apply keeps_bind; [apply keeps_time_sleep|].
  intros _. apply keeps_bind; [apply keeps_gets|]. intros items'.
  apply keeps_bind; [|intros _; apply keeps_proc_clear].
  apply keeps_for_each. intros [name p].
  apply keeps_bind; [apply keeps_process_poll|].
  intros [st|]; [apply keeps_ret|].
  apply keeps_bind; [apply keeps_logger_debug|].
  intros _. apply keeps_process_kill.
Qed.

Lemma keeps_startSkaldReaderWriter url a b c :
  keeps I E (Flow.startSkaldReaderWriter w cp url a b c).
Proof.
  unfold Flow.startSkaldReaderWriter.
  repeat first
    [ apply keeps_logger_debug | apply keeps_new_list | apply Hspawn
    | apply keeps_proc_set | apply keeps_time_sleep
    | (apply keeps_bind; [|intros ?]) ].
Qed.

Lemma keeps_waitReader : keeps I E (Flow.waitReader w cp).
Proof.
  unfold Flow.waitReader.
  repeat first
    [ apply keeps_logger_debug | apply keeps_proc_lookup
    | apply keeps_process_wait | apply keeps_proc_del | apply keeps_ret
    | (apply keeps_bind; [|intros ?]) ].
Qed.

Lemma keeps_bodies sc :
  keeps I E (match sc with
             | SendOneMsg => Flow.testSendOneMsg w cp
             | SendFiveMsg => Flow.testSendFiveMsg w cp
             | SendOneMsgToGroup => Flow.testSendOneMsgToGroup w cp
             | SendFiveMsgToGroup => Flow.testSendFiveMsgToGroup w cp
             end).
Proof.
  destruct sc;
    (apply keeps_bind;
     [apply keeps_startSkaldReaderWriter | intros _; apply keeps_waitReader]).
Qed.

Hypothesis Htimer_start :
  forall ms s, I s -> I (record (EvTimerStart ms) (set_timer_armed true s)).
Hypothesis Htimer_cancel :
  forall s, I s -> I (record EvTimerCancel (set_timer_armed false s)).

(** [runTest], up to its last step. *)
Lemma hoare_runTest description timeout_ms (body : M bool)
    (B : bool -> Prop) (Q : state -> Prop) :
  hoare I body (fun b s => B b /\ I s) E ->
  (forall b, B b ->
     hoare I (Flow.results_append cp description b) (fun _ => Q) E) ->
  hoare I (Flow.runTest w cp description timeout_ms body) (fun _ => Q) E.
Proof.
  intros Hbody Happend. unfold Flow.runTest.
  eapply hoare_bind; [apply keeps_proc_clear|]. intros ?; cbv beta.
  eapply hoare_bind.
  { apply keeps_act. intros s. apply Hrecord. reflexivity. }
  intros ?; cbv beta. eapply hoare_bind.
  { apply keeps_act. intros s. apply Htimer_start. }
  intros ?; cbv beta. eapply hoare_bind; [exact Hbody|].
  intros b. apply hoare_pure. intros Hb.
  eapply hoare_bind.
  { apply keeps_act. apply Htimer_cancel. }
  intros ?; cbv beta. eapply hoare_bind; [apply keeps_terminateAll|].
  intros ?; cbv beta. apply Happend. exact Hb.
Qed.
End Keeps.

(** *** Invariants that only look at [results] and [pending] *)

Section Frame.
Variable w : World.
Variable I : state -> Prop.
Variable E : abnormal -> state -> Prop.

Hypothesis Hframe :
  forall s s', results s' = results s -> pending s' = pending s -> I s -> I s'.
Hypothesis Hcp : keeps I E (poll_signals w).
Hypothesis Hraise : forall e s, I s -> E (ARaise e) s.

Ltac framed := intros; eapply Hframe; [| |eassumption]; reflexivity.

Lemma frame_spawn a : keeps I E (spawn w a).
Proof.
  unfold spawn, Flow.spawn, Flow.list_get0, Flow.list_set0, Flow.list_read,
    Flow.open_file, Flow.popen.
  repeat first
    [ apply keeps_ret | apply keeps_gets | exact Hcp
    | apply hoare_raise; apply Hraise
    | apply keeps_act; framed
    | apply hoare_modify; framed
    | (apply keeps_bind; [|intros ?])
    | match goal with
      | |- keeps _ _ (match ?x with _ => _ end) => destruct x
      | |- keeps _ _ (if ?x then _ else _) => destruct x
      end ].
Qed.

Lemma frame_terminateAll : keeps I E (terminateAll w).
Proof.
  apply keeps_terminateAll; try exact Hcp; try exact Hraise; framed.
Qed.

Lemma frame_body sc : keeps I E (body_of w sc).
Proof.
  assert (H := fun h1 h2 h3 =>
                 @keeps_bodies w (poll_signals w) I E Hcp Hraise h1 h2 h3
                   frame_spawn sc).
  destruct sc; apply H; framed.
Qed.

Lemma frame_runTest description timeout_ms (body : M bool) B Q :
  hoare I body (fun b s => B b /\ I s) E ->
  (forall b, B b ->
     hoare I (Flow.results_append (poll_signals w) description b) (fun _ => Q) E) ->
  hoare I (runTest w description timeout_ms body) (fun _ => Q) E.
Proof.
  intros Hb Ha. unfold runTest.
  eapply hoare_runTest; try exact Hb; try exact Ha;
    try exact Hcp; try exact Hraise; framed.
Qed.
End Frame.

(* ------------------------------------------------------------------ *)
(** *** What a scenario body returns *)

Lemma waitReader_returns_true w cp s b s' :
  Flow.waitReader w cp s = (Ret b, s') -> b = true.
Proof.
  unfold Flow.waitReader. intros H.
  apply bind_ret_inv in H. destruct H as (_ & s1 & _ & H).
  apply bind_ret_inv in H. destruct H as (p & s2 & _ & H).
  apply bind_ret_inv in H. destruct H as (st & s3 & _ & H).
  apply bind_ret_inv in H. destruct H as (_ & s4 & _ & H).
  inversion H. reflexivity.
Qed.

Lemma body_returns_true w sc s b s' :
  body_of w sc s = (Ret b, s') -> b = true.
Proof.
  intros H.
  destruct sc; apply bind_ret_inv in H; destruct H as (_ & s1 & _ & H);
    exact (waitReader_returns_true _ _ _ H).
Qed.

Lemma hoare_returning A I E (m : M A) (B : A -> Prop) :
  keeps I E m ->
  (forall s a s', m s = (Ret a, s') -> B a) ->
  hoare I m (fun a s => B a /\ I s) E.
Proof.
  intros Hk Hb s Hs. specialize (Hk s Hs). specialize (Hb s).
  destruct (m s) as [[a|c|e] s1]; auto. split; [eapply Hb; reflexivity|exact Hk].
Qed.

(* ================================================================== *)
(** ** The signal handler, step by step *)

Lemma sigtermHandler_exec w s :
  sigtermHandler w s =
    (handler_outcome w (proc s),
     set_proc (if terms_accepted w (proc s) && kills_accepted w (proc s)
               then [] else proc s)
       (set_trace (trace s ++ [EvLog WARNING signal_msg] ++
                   termination_events w (proc s)) s)).
Proof.
  unfold sigtermHandler, handler_outcome, termination_events.
  unfold bind at 1. unfold Flow.logger_warning.
  rewrite (act_silent _ (silent_uninterrupted s)).
  unfold bind at 1.
  rewrite (terminateAll_exec w (silent_uninterrupted _)).
  cbn [proc record set_trace trace].
  destruct (terms_accepted w (proc s)); cbn [andb].
  - destruct (kills_accepted w (proc s)).
    + unfold sys_exit. norm_state. reflexivity.
    + norm_state. rewrite app_nil_r. destruct s; reflexivity.
  - norm_state. rewrite app_nil_r. destruct s; reflexivity.
Qed.

Lemma timeout_exec w s :
  timeout w s = sigtermHandler w (record (EvPrint "Timeout!") s).
Proof.
  unfold timeout. unfold bind at 1. unfold Flow.print.
  rewrite (act_silent _ (silent_uninterrupted s)). reflexivity.
Qed.

Lemma handler_outcome_status w items :
  is_ret (handler_outcome w items) = false
  /\ exit_status (handler_outcome w items) = 1%Z.
Proof.
  unfold handler_outcome.
  destruct (terms_accepted w items), (kills_accepted w items); auto.
Qed.

(** The two ways a checkpoint can go. *)
Lemma poll_cases w s :
  (exists p, poll_signals w s = (Ret tt, set_pending p s)
             /\ (p = pending s
                 \/ exists n src, pending s = Some (S n, src) /\ p = Some (n, src)))
  \/ (exists src, pending s = Some (0, src)
        /\ poll_signals w s =
             on_signal w src
               (match src with
                | Watchdog => set_timer_armed false (set_pending None s)
                | _ => set_pending None s
                end)).
Proof.
  unfold poll_signals.
  destruct (pending s) as [[[|n] src]|] eqn:Ep.
  - destruct src.
    + destruct (timer_armed s).
      * right. exists Watchdog. auto.
      * left. exists (Some (0, Watchdog)). rewrite <- Ep, set_pending_same. auto.
    + right. exists ExternalSIGTERM. auto.
    + right. exists ExternalSIGINT. auto.
  - left. exists (Some (n, src)). split; [reflexivity|]. right. eauto.
  - left. exists None. rewrite <- Ep, set_pending_same. auto.
Qed.

(** Serving a signal never returns, leaves [results] alone and ends the
    process with status 1. *)
Lemma on_signal_ends w src s :
  is_ret (fst (on_signal w src s)) = false
  /\ exit_status (fst (on_signal w src s)) = 1%Z
  /\ results (snd (on_signal w src s)) = results s
  /\ pending (snd (on_signal w src s)) = pending s.
Proof.
  destruct src; cbn [on_signal]; rewrite ?timeout_exec, sigtermHandler_exec;
    cbn [fst snd results pending set_proc set_trace record];
    (split; [apply handler_outcome_status|]);
    (split; [apply handler_outcome_status|]); auto.
Qed.

(* ================================================================== *)
(** ** Invariants of [results] *)

Lemma hoare_act cp I E (Q : state -> Prop) f :
  keeps I E cp -> (forall s, I s -> Q (f s)) ->
  hoare I (Flow.act cp f) (fun _ => Q) E.
Proof.
  intros Hcp Hf. unfold Flow.act.
  eapply hoare_bind; [exact Hcp|]. intros ?. apply hoare_modify. exact Hf.
Qed.

Section ResultsOnly.
Variable w : World.
Variable I : state -> Prop.
Hypothesis HI : forall s s', results s' = results s -> I s -> I s'.

(** A checkpoint keeps whatever only depends on [results], also when the
    handler takes over. *)
Lemma poll_keeps_results : keeps I (fun _ => I) (poll_signals w).
Proof.
  intros s Hs.
  destruct (poll_cases w s) as [(p & Hp & _)|(src & _ & Hp)]; rewrite Hp.
  - eapply HI; [|exact Hs]. reflexivity.
  - match goal with |- context [on_signal w src ?s0] =>
      destruct (on_signal_ends w src s0) as (H1 & _ & H3 & _);
      destruct (on_signal w src s0) as [[[]|c|e] s1]
    end; cbn [fst snd] in *; try discriminate;
      (eapply HI; [|exact Hs]); rewrite H3; destruct src; reflexivity.
Qed.

Lemma results_frame s s' :
  results s' = results s -> pending s' = pending s -> I s -> I s'.
Proof. intros H _. apply HI. exact H. Qed.

Lemma results_raise (e : exn) s : I s -> (fun _ : abnormal => I) (ARaise e) s.
Proof. auto. Qed.

Lemma results_body sc : keeps I (fun _ => I) (body_of w sc).
Proof.
  apply frame_body;
    [exact results_frame | exact poll_keeps_results | exact results_raise].
Qed.

Lemma results_runTest sc (Q : state -> Prop) :
  (forall s, I s ->
     Q (record (EvResult (description_of sc) true)
          (set_results (results s ++ [(description_of sc, true)]) s))) ->
  hoare I (runTest w (description_of sc) 500 (body_of w sc)) (fun _ => Q)
        (fun _ => I).
Proof.
  intros HQ.
  apply frame_runTest with (B := fun b => b = true);
    try exact results_frame; try exact poll_keeps_results;
    try exact results_raise.
  - apply hoare_returning; [apply results_body|].
    intros s a s'. apply body_returns_true.
  - intros b ->. apply hoare_act; [exact poll_keeps_results|exact HQ].
Qed.

Lemma results_check_leaks : keeps I (fun _ => I) (Flow.check_leaks w (poll_signals w)).
Proof.
  unfold Flow.check_leaks.
  apply keeps_bind; [apply keeps_gets|]. intros files.
  apply keeps_bind.
  { apply keeps_for_each. intros [p f]. apply keeps_act.
    - exact poll_keeps_results.
    - intros s. apply HI. reflexivity. }
  intros _. apply keeps_bind; [apply keeps_gets|]. intros paths.
  apply keeps_fold_each. intros b [p filepath].
  unfold Flow.open_file, Flow.print, Flow.file_close.
  repeat first
    [ apply keeps_ret | apply keeps_gets | exact poll_keeps_results
    | (apply keeps_act; [exact poll_keeps_results|intros s; apply HI; reflexivity])
    | (apply hoare_modify; intros s; apply HI; reflexivity)
    | (apply keeps_bind; [|intros ?])
    | match goal with
      | |- keeps _ _ (if ?x then _ else _) => destruct x
      end ].
Qed.
End ResultsOnly.

(* ================================================================== *)
(** ** Claims about what the scenarios record *)

Lemma hoare_weaken_abnormal A P (m : M A) Q (E E' : abnormal -> state -> Prop) :
  hoare P m Q E -> (forall x s, E x s -> E' x s) -> hoare P m Q E'.
Proof.
  intros Hm HE s Hs. specialize (Hm s Hs).
  destruct (m s) as [[a|c|e] s1]; auto.
Qed.

Lemma bind_congr A B (m : M A) (f g : A -> M B) s :
  (forall a s1, m s = (Ret a, s1) -> f a s1 = g a s1) ->
  bind m f s = bind m g s.
Proof. unfold bind. destruct (m s) as [[a|c|e] s1]; auto. Qed.

Lemma count_failed_all_passed rs :
  Forall (fun r => snd r = true) rs -> Flow.count_failed rs = 0.
Proof.
  induction 1 as [|[d b] rs Hb _ IH]; [reflexivity|].
  cbn in Hb. subst b. exact IH.
Qed.

(** [runTest] of one of the four scenarios appends [(description, True)]
    when it returns. *)
Lemma runTest_appends_true w sc R :
  hoare (fun s => results s = R)
        (runTest w (description_of sc) 500 (body_of w sc))
        (fun _ s => results s = (R ++ [(description_of sc, true)])%list)
        (fun _ s => results s = R).
Proof.
  apply results_runTest.
  - intros s s' H1 H2. congruence.
  - intros s H. cbn [results record set_trace set_results]. rewrite H. reflexivity.
Qed.

Lemma runTest_keeps_all_passed w sc :
  keeps all_passed (fun _ => all_passed)
        (runTest w (description_of sc) 500 (body_of w sc)).
Proof.
  apply results_runTest.
  - unfold all_passed. intros s s' H1 H2. rewrite H1. exact H2.
  - unfold all_passed. intros s H. cbn [results record set_trace set_results].
    apply Forall_app. split; [exact H|]. constructor; [reflexivity|constructor].
Qed.

Lemma run_scenarios_unfold w :
  run_scenarios w =
    (runTest w (description_of SendOneMsg) 500 (body_of w SendOneMsg) ;;
     runTest w (description_of SendFiveMsg) 500 (body_of w SendFiveMsg) ;;
     runTest w (description_of SendOneMsgToGroup) 500 (body_of w SendOneMsgToGroup) ;;
     runTest w (description_of SendFiveMsgToGroup) 500 (body_of w SendFiveMsgToGroup)).
Proof. reflexivity. Qed.

Lemma run_scenarios_keeps_all_passed w :
  keeps all_passed (fun _ => all_passed) (run_scenarios w).
Proof.
  rewrite run_scenarios_unfold.
  repeat (apply keeps_bind; [apply runTest_keeps_all_passed|intros ?]).
  apply runTest_keeps_all_passed.
Qed.

Lemma run_scenarios_results w R :
  hoare (fun s => results s = R) (run_scenarios w)
        (fun _ s => results s =
           (R ++ [(description_of SendOneMsg, true);
                  (description_of SendFiveMsg, true);
                  (description_of SendOneMsgToGroup, true);
                  (description_of SendFiveMsgToGroup, true)])%list)
        (fun _ _ => True).
Proof.
  rewrite run_scenarios_unfold.
  eapply hoare_bind.
  { eapply hoare_weaken_abnormal; [apply runTest_appends_true|auto]. }
  intros ?. eapply hoare_bind.
  { eapply hoare_weaken_abnormal; [apply runTest_appends_true|auto]. }
  intros ?. eapply hoare_bind.
  { eapply hoare_weaken_abnormal; [apply runTest_appends_true|auto]. }
  intros ?.
  eapply hoare_weaken;
    [eapply hoare_weaken_abnormal; [apply runTest_appends_true|auto]
    | intros s H; exact H |].
  intros ? s H. cbv beta in H. rewrite H. rewrite <- !app_assoc. reflexivity.
Qed.

(** C9.  Each of the four scenario bodies returns [True] whenever it
    returns, whatever the exit status of the process it waited on;
    hence, whatever the environment does and whenever a signal arrives,
    every recorded result is a success, a run whose four scenarios
    complete records exactly four successes and has [failCount = 0], and
    the whole script behaves as the script without its "tests failed"
    branch. *)
Theorem scenarios_always_succeed w sched :
  (forall sc s b s', body_of w sc s = (Ret b, s') -> b = true)
  /\ all_passed (snd (run_scenarios w (initial sched)))
  /\ (forall s1, run_scenarios w (initial sched) = (Ret tt, s1) ->
        results s1 = [("Send one message through SKALD", true);
                      ("Send five messages through SKALD", true);
                      ("Send one message to a multicast group", true);
                      ("Send five messages to a multicast group", true)]
        /\ Flow.count_failed (results s1) = 0)
  /\ script w (initial sched) = script_unfailed w (initial sched).
Proof.
  split; [intros sc s b s'; apply body_returns_true|].
  assert (H0 : all_passed (initial sched)) by constructor.
  split; [|split].
  - pose proof (run_scenarios_keeps_all_passed w) as H;
      specialize (H (initial sched) H0).
    destruct (run_scenarios w (initial sched)) as [[[]|c|e] s1]; exact H.
  - intros s1 Hrun.
    pose proof (@run_scenarios_results w []) as H;
      specialize (H (initial sched) eq_refl).
    rewrite Hrun in H. cbn [app] in H. split; [exact H|].
    rewrite H. reflexivity.
  - unfold script, Flow.script, script_unfailed. fold (run_scenarios w).
    apply bind_congr. intros [] s1 Hrun.
    pose proof (run_scenarios_keeps_all_passed w) as H;
      specialize (H (initial sched) H0). rewrite Hrun in H.
    unfold Flow.report. apply bind_congr. intros leak s2 Hleak.
    assert (HI : forall s s', results s' = results s -> all_passed s -> all_passed s')
      by (unfold all_passed; intros ? ? ->; auto).
    pose proof (@results_check_leaks w all_passed HI) as H1;
      specialize (H1 s1 H). rewrite Hleak in H1.
    unfold Flow.print_results, print_results_unfailed, bind, gets.
    rewrite (count_failed_all_passed H1). reflexivity.
Qed.

(** C2, as the code has it.  For each of the four scenarios (among them
    "send one message" and "send to group"): whenever [runTest] runs the
    scenario to completion, the result it records is a success, whatever
    the exit status of the reader the body waited on; the status is
    discarded and a non-zero status does not yield a recorded failure. *)
Theorem recorded_success_ignores_exit_status w sc s s' :
  runTest w (description_of sc) 500 (body_of w sc) s = (Ret tt, s') ->
  results s' = (results s ++ [(description_of sc, true)])%list.
Proof.
  intros Hrun.
  pose proof (@runTest_appends_true w sc (results s)) as H.
  specialize (H s eq_refl). rewrite Hrun in H. exact H.
Qed.

Lemma recorded_success_ignores_exit_status_witness :
  results (snd (runTest failing_reader_world (description_of SendOneMsgToGroup) 500
                  (body_of failing_reader_world SendOneMsgToGroup) (initial None)))
  = [("Send one message to a multicast group", true)].
Proof.
  apply (@recorded_success_ignores_exit_status failing_reader_world
           SendOneMsgToGroup (initial None)).
  vm_compute. reflexivity.
Defined.

(** C2 as stated fails: the reader of "send one message" is the process
    the body waits on, it exits with status 1, and the scenario is
    recorded as a success; the same happens for "send to group". *)
Lemma reader_failure_recorded_as_success_counterexample :
  let w := failing_reader_world in
  let r1 := runTest w "Send one message through SKALD" 500 (testSendOneMsg w)
              (initial None) in
  let r2 := runTest w "Send one message to a multicast group" 500
              (testSendOneMsgToGroup w) (initial None) in
  wait_status w 1 = 1%Z
  /\ nth 9 (trace (snd r1)) EvTimerCancel
     = EvPopen ["./reader"; "-u"; "unix://skald.sock"] 1 ToStdout 1
  /\ nth 15 (trace (snd r1)) EvTimerCancel = EvWait 1
  /\ results (snd r1) = [("Send one message through SKALD", true)]
  /\ nth 9 (trace (snd r2)) EvTimerCancel
     = EvPopen ["./reader"; "-u"; "unix://skald.sock"; "-m"; "TestGr"] 1 ToStdout 1
  /\ nth 15 (trace (snd r2)) EvTimerCancel = EvWait 1
  /\ results (snd r2) = [("Send one message to a multicast group", true)]
  /\ ~ (snd (last (results (snd r1)) ("", true)) = false).
Proof.
  cbv zeta. repeat (split; [vm_compute; reflexivity|]).
  vm_compute. discriminate.
Qed.

(* ================================================================== *)
(** ** Runs that return, whatever the countdown of a pending signal *)

Ltac ret_inv H :=
  let a := fresh "a" in
  let s := fresh "s" in
  let H1 := fresh "Hstep" in
  apply bind_ret_inv in H; destruct H as (a & s & H1 & H);
  match type of a with
  | unit => destruct a
  | _ => idtac
  end.

Lemma ret_inv_eq A (a b : A) s s' : ret a s = (Ret b, s') -> b = a /\ s' = s.
Proof. unfold ret. intros H. inversion H. auto. Qed.

Lemma act_returns w f s (u : unit) s' :
  Flow.act (poll_signals w) f s = (Ret u, s') ->
  exists p, s' = f (set_pending p s).
Proof. destruct u. apply act_ret_inv. Qed.

Lemma term_loop_ret w items s s' :
  for_each items (fun '(name, process) =>
    Flow.logger_debug (poll_signals w) ("Terminating process '" ++ name ++ "'") ;;
    Flow.process_terminate w (poll_signals w) process) s = (Ret tt, s') ->
  exists p, s' = set_pending p (set_trace (trace s ++ graceful_requests items) s).
Proof.
  revert s. induction items as [|[name q] items IH]; intros s H.
  - apply ret_inv_eq in H. destruct H as [_ ->]. exists (pending s).
    cbn [graceful_requests flat_map]. rewrite app_nil_r. destruct s; reflexivity.
  - cbn [for_each] in H. ret_inv H. ret_inv Hstep.
    unfold Flow.logger_debug in Hstep0. apply act_returns in Hstep0.
    destruct Hstep0 as [p0 ->].
    unfold Flow.process_terminate in Hstep. ret_inv Hstep.
    apply act_returns in Hstep0. destruct Hstep0 as [p1 ->].
    destruct (term_refused w q); [discriminate|].
    apply ret_inv_eq in Hstep. destruct Hstep as [_ ->].
    apply IH in H. destruct H as [p ->]. exists p.
    cbn [graceful_requests flat_map fst snd]. fold (graceful_requests items).
    unfold terminate_msg. norm_state. reflexivity.
Qed.

Lemma kill_loop_ret w items s s' :
  for_each items (fun '(name, process) =>
    r <- Flow.process_poll w (poll_signals w) process ;;
    match r with
    | None =>
        Flow.logger_debug (poll_signals w)
          ("Process '" ++ name ++ "' is still alive; killing it!") ;;
        Flow.process_kill w (poll_signals w) process
    | Some _ => ret tt
    end) s = (Ret tt, s') ->
  exists p, s' = set_pending p (set_trace (trace s ++ forced_kills w items) s).
Proof.
  revert s. induction items as [|[name q] items IH]; intros s H.
  - apply ret_inv_eq in H. destruct H as [_ ->]. exists (pending s).
    cbn [forced_kills flat_map]. rewrite app_nil_r. destruct s; reflexivity.
  - cbn [for_each] in H. ret_inv H. ret_inv Hstep.
    unfold Flow.process_poll in Hstep0. ret_inv Hstep0.
    apply act_returns in Hstep1. destruct Hstep1 as [p0 ->].
    apply ret_inv_eq in Hstep0. destruct Hstep0 as [-> ->].
    cbn [forced_kills flat_map fst snd]. fold (forced_kills w items).
    destruct (alive_after_grace w q).
    + ret_inv Hstep. unfold Flow.logger_debug in Hstep0.
      apply act_returns in Hstep0. destruct Hstep0 as [p1 ->].
      unfold Flow.process_kill in Hstep. ret_inv Hstep.
      apply act_returns in Hstep0. destruct Hstep0 as [p2 ->].
      destruct (kill_refused w q); [discriminate|].
      apply ret_inv_eq in Hstep. destruct Hstep as [_ ->].
      apply IH in H. destruct H as [p ->]. exists p.
      unfold kill_msg. norm_state. reflexivity.
    + apply ret_inv_eq in Hstep. destruct Hstep as [_ ->].
      apply IH in H. destruct H as [p ->]. exists p.
      norm_state. reflexivity.
Qed.

(** [terminateAll], when it returns, has done all of its nominal work. *)
Lemma terminateAll_ret w s s' :
  terminateAll w s = (Ret tt, s') ->
  exists p,
    s' = set_pending p
           (set_proc []
              (set_trace (trace s ++ graceful_requests (proc s) ++ [EvSleep 200] ++
                          forced_kills w (proc s) ++ [EvRegistryClear]) s)).
Proof.
  unfold terminateAll, Flow.terminateAll. intros H.
  ret_inv H. unfold gets in Hstep. inversion Hstep; subst; clear Hstep.
  ret_inv H. apply term_loop_ret in Hstep. destruct Hstep as [p0 ->].
  ret_inv H. unfold Flow.time_sleep in Hstep.
  apply act_returns in Hstep. destruct Hstep as [p1 ->].
  ret_inv H. unfold gets in Hstep. inversion Hstep; subst; clear Hstep.
  ret_inv H. apply kill_loop_ret in Hstep. destruct Hstep as [p2 ->].
  unfold Flow.proc_clear in H. apply act_returns in H. destruct H as [p3 ->].
  exists p3. norm_state. reflexivity.
Qed.

(* ================================================================== *)
(** ** Claim about the order of the steps of [runTest] *)

(** C8.  Whenever [runTest description timeout body] returns, for any
    body: the registry was cleared and the watchdog armed for [timeout]
    before the body started (state [s1]); the body then ran, from [s1] to
    [s2], returning [success]; after it the watchdog was cancelled,
    [terminateAll] did all of its work on what the body left registered
    (whatever [success] is), and only then was [(description, success)]
    appended, as the last step, to the end of [results].  Across the four
    scenarios of the script the results are therefore recorded in the
    order in which the scenarios run. *)
Theorem runTest_steps_in_order w :
  (forall description timeout_ms (body : M bool) s s',
     runTest w description timeout_ms body s = (Ret tt, s') ->
     steps_in_order w description timeout_ms body s s')
  /\ (forall s s',
        run_scenarios w s = (Ret tt, s') ->
        results s' =
          (results s ++ [("Send one message through SKALD", true);
                         ("Send five messages through SKALD", true);
                         ("Send one message to a multicast group", true);
                         ("Send five messages to a multicast group", true)])%list).
Proof.
  split.
  - intros description timeout_ms body s s' H.
    unfold runTest, Flow.runTest in H.
    ret_inv H. unfold Flow.proc_clear in Hstep.
    apply act_returns in Hstep. destruct Hstep as [p0 ->].
    ret_inv H. unfold Flow.logger_info in Hstep.
    apply act_returns in Hstep. destruct Hstep as [p1 ->].
    ret_inv H. unfold Flow.timer_start in Hstep.
    apply act_returns in Hstep. destruct Hstep as [p2 ->].
    ret_inv H. rename a into success. rename s0 into s2.
    ret_inv H. unfold Flow.timer_cancel in Hstep0.
    apply act_returns in Hstep0. destruct Hstep0 as [p3 ->].
    ret_inv H. apply terminateAll_ret in Hstep0. destruct Hstep0 as [p4 ->].
    unfold Flow.results_append in H.
    apply act_returns in H. destruct H as [p5 ->].
    unfold steps_in_order. eexists _, s2, success.
    split; [|split; [|split; [|split; [|split; [exact Hstep|]]]]].
    + norm_state. reflexivity.
    + reflexivity.
    + reflexivity.
    + reflexivity.
    + split; [|split; [|split]]; try reflexivity.
      norm_state. reflexivity.
  - intros s s' H.
    pose proof (@run_scenarios_results w (results s)) as Hr.
    specialize (Hr s eq_refl). rewrite H in Hr. exact Hr.
Qed.

Lemma runTest_steps_in_order_witness :
  steps_in_order lingering_world "a failing scenario" 500 failing_body
    (initial None)
    (snd (runTest lingering_world "a failing scenario" 500 failing_body
            (initial None))).
Proof.
  apply (proj1 (runTest_steps_in_order lingering_world)).
  vm_compute. reflexivity.
Defined.

(* ================================================================== *)
(** ** Claim about the watchdog and external signals *)

Section Interrupted.
Variable w : World.
Variable R0 : list (string * bool).
Variable src0 : sigsource.

Local Abbreviation awaiting := (awaiting R0 src0).
Local Abbreviation aborted := (aborted w R0 src0).

Lemma awaiting_frame s s' :
  results s' = results s -> pending s' = pending s -> awaiting s -> awaiting s'.
Proof. unfold awaiting. intros -> ->. auto. Qed.

Lemma awaiting_raise e s : awaiting s -> aborted (ARaise e) s.
Proof.
  intros [Hr [n Hp]]. split; [exact Hr|]. split; [reflexivity|].
  rewrite Hp. discriminate.
Qed.

Lemma awaiting_poll : keeps awaiting aborted (poll_signals w).
Proof.
  intros s [Hr [n Hp]].
  destruct (poll_cases w s) as [(p & Hpoll & Hnone)|(src & Hsrc & Hpoll)];
    rewrite Hpoll.
  - split; [exact Hr|]. cbn [pending set_pending].
    destruct Hnone as [->|(n' & src' & Hp' & ->)].
    + exists n. exact Hp.
    + rewrite Hp in Hp'. inversion Hp'; subst. exists n'. reflexivity.
  - rewrite Hp in Hsrc. inversion Hsrc; subst n src.
    match goal with |- context [on_signal w src0 ?s0] =>
      set (s0' := s0);
      assert (Hr0 : results s0' = R0) by (subst s0'; destruct src0; exact Hr);
      destruct (on_signal_ends w src0 s0') as (H1 & H2 & H3 & H4);
      destruct (on_signal w src0 s0') as [[[]|c|e] s1] eqn:Eo
    end; cbn [fst snd] in *; try discriminate.
    + split; [congruence|]. split; [exact H2|]. intros _.
      exists s0'. split; [exact Hr0|exact Eo].
    + split; [congruence|]. split; [reflexivity|]. intros _.
      exists s0'. split; [exact Hr0|exact Eo].
Qed.

Lemma awaiting_runTest sc :
  hoare awaiting (runTest w (description_of sc) 500 (body_of w sc))
        (fun _ s' => pending s' <> None) aborted.
Proof.
  apply frame_runTest with (B := fun _ => True);
    try exact awaiting_frame; try exact awaiting_poll; try exact awaiting_raise.
  - apply hoare_returning; [|auto].
    apply frame_body;
      [exact awaiting_frame | exact awaiting_poll | exact awaiting_raise].
  - intros b _. apply hoare_act; [exact awaiting_poll|].
    intros s [_ [n Hp]]. cbn [pending record set_trace set_results].
    rewrite Hp. discriminate.
Qed.
End Interrupted.

Lemma termination_events_accepted w items :
  terms_accepted w items && kills_accepted w items = true ->
  termination_events w items =
    (graceful_requests items ++ [EvSleep 200] ++ forced_kills w items ++
     [EvRegistryClear])%list.
Proof.
  intros H. apply andb_prop in H. destruct H as [Ht Hk].
  unfold termination_events. rewrite Ht, Hk.
  rewrite (term_events_accepted _ _ Ht), (kill_events_accepted _ _ Hk).
  reflexivity.
Qed.

(** C4.  The watchdog and an external SIGTERM or SIGINT end the run in
    the same way.  (1) The watchdog's [timeout] is the signal handler run
    after the line "Timeout!" is printed.  (2) The handler logs a warning,
    does the work of [terminateAll] on the registry as it is, and ends the
    whole script with status 1 without touching [results]; when no request
    is refused that is [sys.exit(1)] after the complete terminate, sleep,
    kill, clear sequence.  (3) When the pending signal (of either kind) is
    served while [runTest] runs one of the scenarios, [runTest] does not
    return: the script ends as the handler ends, with status 1, and
    [results] is what it was before the scenario, so no entry is appended
    for the scenario in flight. *)
Theorem interrupt_terminates_and_aborts w :
  (forall s, timeout w s = sigtermHandler w (record (EvPrint "Timeout!") s))
  /\ (forall s,
        let r := sigtermHandler w s in
        trace (snd r) = (trace s ++ [EvLog WARNING signal_msg] ++
                         termination_events w (proc s))%list
        /\ results (snd r) = results s
        /\ is_ret (fst r) = false
        /\ exit_status (fst r) = 1%Z
        /\ (terms_accepted w (proc s) && kills_accepted w (proc s) = true ->
              fst r = Exit 1
              /\ proc (snd r) = []
              /\ termination_events w (proc s) =
                   (graceful_requests (proc s) ++ [EvSleep 200] ++
                    forced_kills w (proc s) ++ [EvRegistryClear])%list))
  /\ (forall sc src n s,
        pending s = Some (n, src) ->
        let r := runTest w (description_of sc) 500 (body_of w sc) s in
        pending (snd r) = None ->
        is_ret (fst r) = false
        /\ exit_status (fst r) = 1%Z
        /\ results (snd r) = results s
        /\ exists s0, results s0 = results s
                      /\ on_signal w src s0 = (fst r, snd r)).
Proof.
  split; [exact (timeout_exec w)|]. split.
  - intros s r. subst r. rewrite sigtermHandler_exec. cbn [fst snd].
    split; [reflexivity|]. split; [reflexivity|].
    split; [apply handler_outcome_status|].
    split; [apply handler_outcome_status|].
    intros H. rewrite (termination_events_accepted _ _ H).
    unfold handler_outcome. rewrite H.
    apply andb_prop in H. destruct H as [-> ->]. auto.
  - intros sc src n s Hp r Hnone.
    pose proof (@awaiting_runTest w (results s) src sc) as H.
    specialize (H s (conj eq_refl (ex_intro _ n Hp))).
    fold r in H. destruct r as [[[]|c|e] s'] eqn:Er; cbn [fst snd] in *.
    + contradiction.
    + destruct H as (H1 & H2 & H3). cbn in H2. subst c.
      repeat split; auto.
    + destruct H as (H1 & H2 & H3).
      repeat split; auto.
Qed.

Lemma interrupt_terminates_and_aborts_witness :
  let w := lingering_world in
  let s := initial (Some (25, Watchdog)) in
  let r := runTest w (description_of SendOneMsg) 500 (body_of w SendOneMsg) s in
  pending (snd r) = None
  /\ is_ret (fst r) = false
  /\ exit_status (fst r) = 1%Z
  /\ results (snd r) = [].
Proof.
  intros w s r.
  assert (Hnone : pending (snd r) = None) by (vm_compute; reflexivity).
  split; [exact Hnone|].
  destruct (proj2 (proj2 (interrupt_terminates_and_aborts w))
              SendOneMsg Watchdog 25 s eq_refl Hnone) as (H1 & H2 & H3 & _).
  split; [exact H1|]. split; [exact H2|exact H3].
Defined.

(* ================================================================== *)
(** ** Facts about the monitor of the log sinks *)

Lemma sink_step_quiet m e : quiet_event e = true -> sink_step m e = Some m.
Proof. destruct e; try discriminate; reflexivity. Qed.

Lemma sink_run_app start tr1 tr2 :
  sink_run start (tr1 ++ tr2) = sink_run (sink_run start tr1) tr2.
Proof. unfold sink_run. apply fold_left_app. Qed.

Lemma sink_run_none tr : sink_run None tr = None.
Proof. induction tr as [|e tr IH]; [reflexivity|exact IH]. Qed.

Lemma sink_run_quiet start evs :
  forallb quiet_event evs = true -> sink_run start evs = start.
Proof.
  revert start. induction evs as [|e evs IH]; intros start H; [reflexivity|].
  cbn [forallb] in H. apply andb_prop in H. destruct H as [He Hevs].
  cbn [sink_run fold_left]. destruct start as [m|].
  - rewrite (sink_step_quiet m e He). apply IH. exact Hevs.
  - apply sink_run_none.
Qed.

Lemma sink_monitor_snoc tr e :
  sink_monitor (tr ++ [e]) =
    match sink_monitor tr with
    | Some m => sink_step m e
    | None => None
    end.
Proof. unfold sink_monitor. rewrite sink_run_app. reflexivity. Qed.

Lemma sink_monitor_quiet tr evs :
  forallb quiet_event evs = true -> sink_monitor (tr ++ evs) = sink_monitor tr.
Proof.
  intros H. unfold sink_monitor. rewrite sink_run_app.
  apply sink_run_quiet. exact H.
Qed.

Lemma mem_fd_In f l : mem_fd f l = true <-> In f l.
Proof.
  unfold mem_fd. rewrite existsb_exists. split.
  - intros (x & Hin & E). apply Nat.eqb_eq in E. subst. exact Hin.
  - intros H. exists f. split; [exact H|apply Nat.eqb_refl].
Qed.

Lemma mem_path_In p l : mem_path p l = true <-> In p l.
Proof.
  unfold mem_path. rewrite existsb_exists. split.
  - intros (x & Hin & E). apply String.eqb_eq in E. subst. exact Hin.
  - intros H. exists p. split; [exact H|apply String.eqb_refl].
Qed.

Lemma mem_sink_In p f l : mem_sink p f l = true <-> In (p, f) l.
Proof.
  unfold mem_sink. rewrite existsb_exists. split.
  - intros ([q g] & Hin & E). apply andb_prop in E. destruct E as [E1 E2].
    apply String.eqb_eq in E1. apply Nat.eqb_eq in E2. cbn in *. subst. exact Hin.
  - intros H. exists (p, f). split; [exact H|].
    cbn. rewrite String.eqb_refl, Nat.eqb_refl. reflexivity.
Qed.

(** What an accepted trace guarantees about the monitor's record: no path
    and no file object occurs twice among the sinks, and the closed sinks
    are sinks, each closed once. *)
Lemma sink_monitor_sound tr m :
  sink_monitor tr = Some m ->
  NoDup (map fst (opened m)) /\ NoDup (map snd (opened m))
  /\ NoDup (closed m) /\ incl (closed m) (map snd (opened m)).
Proof.
  revert m. induction tr as [|e tr IH] using rev_ind; intros m H.
  - inversion H. cbn. repeat split; try constructor. intros x [].
  - rewrite sink_monitor_snoc in H.
    destruct (sink_monitor tr) as [m0|]; [|discriminate].
    destruct (IH m0 eq_refl) as (H1 & H2 & H3 & H4).
    destruct e; cbn [sink_step] in H;
      try (inversion H; subst; auto; fail).
    + destruct m1.
      * destruct (forallb _ _ && _); inversion H; subst; auto.
      * destruct (mem_path path (map fst (opened m0))) eqn:Ep; [discriminate|].
        destruct (mem_fd f (map snd (opened m0))) eqn:Ef; [discriminate|].
        inversion H; subst. cbn [opened closed].
        rewrite !map_app. cbn [map fst snd].
        assert (Np : ~ In path (map fst (opened m0)))
          by (rewrite <- mem_path_In, Ep; discriminate).
        assert (Nf : ~ In f (map snd (opened m0)))
          by (rewrite <- mem_fd_In, Ef; discriminate).
        split; [|split; [|split]].
        -- apply NoDup_app; [exact H1|repeat constructor; intros []|].
           intros x Hx [E|[]]. subst. auto.
        -- apply NoDup_app; [exact H2|repeat constructor; intros []|].
           intros x Hx [E|[]]. subst. auto.
        -- exact H3.
        -- intros x Hx. apply in_or_app. left. auto.
    + destruct (mem_fd f (map snd (opened m0))) eqn:Ef.
      * destruct (mem_fd f (closed m0)) eqn:Ec; [discriminate|].
        inversion H; subst. cbn [opened closed].
        split; [exact H1|]. split; [exact H2|]. split.
        -- constructor; [|exact H3]. rewrite <- mem_fd_In, Ec. discriminate.
        -- intros x [E|Hx]; [subst; apply mem_fd_In; exact Ef|auto].
      * inversion H; subst. auto.
    + destruct err; [discriminate|].
      destruct (mem_sink _ _ _ && _); inversion H; subst; auto.
Qed.

Example monitor_rejects_reopening :
  sink_monitor [EvOpen "skald.log" ModeW 0;
                EvPopen ["./skald"] 0 ToStdout 0;
                EvOpen "skald.log" ModeW 1] = None.
Proof. reflexivity. Qed.

Example monitor_rejects_foreign_sink :
  sink_monitor [EvOpen "skald.log" ModeW 0;
                EvOpen "reader.log" ModeW 1;
                EvPopen ["./reader"] 0 ToStdout 1] = None.
Proof. reflexivity. Qed.

Example monitor_rejects_second_close :
  sink_monitor [EvOpen "skald.log" ModeW 0; EvClose 0; EvClose 0] = None.
Proof. reflexivity. Qed.

Example monitor_rejects_early_read :
  sink_monitor [EvOpen "skald.log" ModeW 0; EvOpen "skald.log" ModeR 1] = None.
Proof. reflexivity. Qed.

(* ------------------------------------------------------------------ *)
(** *** The invariant of the scenarios *)

Lemma sinks_ok_accepted s : sinks_ok s -> accepted_trace (trace s).
Proof. intros [m H]. exists m. exact (inv_monitor H). Qed.

(** A step that leaves [outputFiles] and [next_fd] alone and records only
    events the monitor does not look at keeps the invariant. *)
Lemma sinks_inv_quiet s s' m evs :
  outputFiles s' = outputFiles s ->
  next_fd s' = next_fd s ->
  trace s' = (trace s ++ evs)%list ->
  forallb quiet_event evs = true ->
  sinks_inv s m -> sinks_inv s' m.
Proof.
  intros Hf Hn Ht Hq [H1 H2 H3 H4]. constructor.
  - rewrite Ht, sink_monitor_quiet; assumption.
  - rewrite Hf. exact H2.
  - exact H3.
  - rewrite Hf, Hn. exact H4.
Qed.

Lemma sinks_ok_quiet s s' evs :
  outputFiles s' = outputFiles s ->
  next_fd s' = next_fd s ->
  trace s' = (trace s ++ evs)%list ->
  forallb quiet_event evs = true ->
  sinks_ok s -> sinks_ok s'.
Proof. intros Hf Hn Ht Hq [m H]. exists m. eapply sinks_inv_quiet; eauto. Qed.

(** *** What the handler records is invisible to the monitor *)

Lemma term_events_quiet w items : forallb quiet_event (term_events w items) = true.
Proof.
  induction items as [|[name p] items IH]; [reflexivity|].
  cbn [term_events forallb quiet_event andb].
  destruct (term_refused w p); [reflexivity|exact IH].
Qed.

Lemma kill_events_quiet w items : forallb quiet_event (kill_events w items) = true.
Proof.
  induction items as [|[name p] items IH]; [reflexivity|].
  cbn [kill_events forallb quiet_event andb].
  destruct (alive_after_grace w p); cbn [forallb quiet_event andb];
    [destruct (kill_refused w p); [reflexivity|exact IH] | exact IH].
Qed.

Lemma termination_events_quiet w items :
  forallb quiet_event (termination_events w items) = true.
Proof.
  unfold termination_events. rewrite forallb_app, term_events_quiet.
  destruct (terms_accepted w items); [|reflexivity].
  rewrite !forallb_app, kill_events_quiet.
  destruct (kills_accepted w items); reflexivity.
Qed.

Lemma on_signal_trace w src s :
  exists evs, trace (snd (on_signal w src s)) = (trace s ++ evs)%list
              /\ forallb quiet_event evs = true.
Proof.
  destruct src; cbn [on_signal]; rewrite ?timeout_exec, sigtermHandler_exec;
    cbn [snd trace set_proc set_trace record proc].
  - exists ([EvPrint "Timeout!"] ++ [EvLog WARNING signal_msg] ++
            termination_events w (proc s))%list.
    split; [rewrite <- !app_assoc; reflexivity|].
    rewrite !forallb_app, termination_events_quiet. reflexivity.
  - eexists. split; [reflexivity|].
    rewrite forallb_app, termination_events_quiet. reflexivity.
  - eexists. split; [reflexivity|].
    rewrite forallb_app, termination_events_quiet. reflexivity.
Qed.

Lemma poll_stable w P : stable P -> keeps P trace_ok (poll_signals w).
Proof.
  intros [Hp Ha] s Hs.
  destruct (poll_cases w s) as [(p & Hpoll & _)|(src & _ & Hpoll)]; rewrite Hpoll.
  - apply Hp. exact Hs.
  - match goal with |- context [on_signal w src ?s0] =>
      destruct (on_signal_ends w src s0) as (H1 & _);
      destruct (on_signal_trace w src s0) as (evs & Ht & Hq);
      assert (Ht0 : trace s0 = trace s) by (destruct src; reflexivity);
      destruct (on_signal w src s0) as [[[]|c|e] s1]
    end; cbn [fst snd] in *; try discriminate;
      unfold trace_ok, accepted_trace; rewrite Ht, Ht0, sink_monitor_quiet by exact Hq;
      apply Ha; exact Hs.
Qed.

Lemma act_stable w P (Q : state -> Prop) f :
  stable P -> (forall s, P s -> Q (f s)) ->
  hoare P (Flow.act (poll_signals w) f) (fun _ => Q) trace_ok.
Proof. intros HP Hf. apply hoare_act; [apply poll_stable; exact HP|exact Hf]. Qed.

Lemma raise_stable A P Q e : stable P -> hoare P (@raise A e) Q trace_ok.
Proof. intros [_ Ha]. apply hoare_raise. exact Ha. Qed.

Lemma sinks_ok_stable : stable sinks_ok.
Proof.
  split; [|exact sinks_ok_accepted].
  intros s p H. eapply (@sinks_ok_quiet _ _ []); [| | | |exact H];
    try reflexivity. cbn [trace set_pending]. rewrite app_nil_r. reflexivity.
Qed.

(* ------------------------------------------------------------------ *)
(** *** [spawn] keeps the invariant, whenever a signal comes *)

Lemma string_length_append a b :
  String.length (a ++ b) = String.length a + String.length b.
Proof. induction a as [|x a IH]; cbn; [reflexivity|]. rewrite IH. reflexivity. Qed.

Lemma append_inj_l a b c : a ++ c = b ++ c -> a = b.
Proof.
  revert b. induction a as [|x a IH]; intros [|y b] H.
  - reflexivity.
  - apply (f_equal String.length) in H. cbn in H.
    rewrite string_length_append in H. lia.
  - apply (f_equal String.length) in H. cbn in H.
    rewrite string_length_append in H. lia.
  - cbn in H. injection H as -> H. f_equal. apply IH. exact H.
Qed.

Lemma not_in_log_paths b (files : Dict.t fd) :
  Dict.get b files = None ->
  ~ In (b ++ ".log") (map fst (map log_pair files)).
Proof.
  intros Hget Hin. apply dict_get_none_keys in Hget. apply Hget.
  rewrite map_map in Hin. apply in_map_iff in Hin.
  destruct Hin as ([b' f'] & E & Hin). cbn in E. apply append_inj_l in E. subst b'.
  unfold Dict.keys. apply in_map_iff. exists (b, f'). auto.
Qed.

Lemma not_in_old_fds n (files : Dict.t fd) :
  Forall (fun x => snd x < n) files -> ~ In n (map snd (map log_pair files)).
Proof.
  intros Hall Hin. rewrite map_map in Hin. apply in_map_iff in Hin.
  destruct Hin as ([b' f'] & E & Hin). cbn in E. subst f'.
  rewrite Forall_forall in Hall. specialize (Hall _ Hin). cbn in Hall. lia.
Qed.

Section SpawnSinks.
Variable w : World.
Variable a : loc.
Variable a0 : string.

Local Abbreviation holds_list := (holds_list a a0).
Local Abbreviation ready := (ready a a0).
Local Abbreviation path_recorded := (path_recorded a a0).
Local Abbreviation file_opened := (file_opened a a0).

Lemma ready_stable : stable ready.
Proof.
  split.
  - intros s p [H1 H2]. split; [apply sinks_ok_stable; exact H1|exact H2].
  - intros s [H _]. apply sinks_ok_accepted. exact H.
Qed.

Lemma path_recorded_stable : stable path_recorded.
Proof.
  split.
  - intros s p (H1 & H2 & H3).
    split; [apply ready_stable; exact H1|]. split; assumption.
  - intros s (H & _). apply ready_stable. exact H.
Qed.

Lemma file_opened_stable f : stable (file_opened f).
Proof.
  split.
  - intros s p H. exact H.
  - intros s ((m & H & _) & _). exists m. exact H.
Qed.

Lemma open_sink_hoare :
  hoare (fun s => ready s /\ Dict.get (basename a0) (outputFiles s) = None)
    (Flow.act (poll_signals w)
       (fun s => set_outputPaths
                   (Dict.set (basename a0) (basename a0 ++ ".log") (outputPaths s)) s) ;;
     paths <- gets outputPaths ;;
     match Dict.get (basename a0) paths with
     | None => raise (KeyError (basename a0))
     | Some path =>
         f <- Flow.open_file (poll_signals w) path ModeW ;;
         Flow.act (poll_signals w)
           (fun s => set_outputFiles (Dict.set (basename a0) f (outputFiles s)) s)
     end)
    (fun _ => ready) trace_ok.
Proof.
  eapply hoare_bind.
  { apply act_stable with (Q := path_recorded).
    - split.
      + intros s p [H1 H2]. split; [apply ready_stable; exact H1|exact H2].
      + intros s [H _]. apply ready_stable. exact H.
    - intros s [[Hok Hl] Hget]. split; [split|split].
      + eapply (@sinks_ok_quiet _ _ []); [| | | |exact Hok]; try reflexivity.
        cbn [trace set_outputPaths]. rewrite app_nil_r. reflexivity.
      + exact Hl.
      + exact Hget.
      + cbn [outputPaths set_outputPaths]. apply dict_get_set_same. }
  intros ? s Hrec. cbv beta in Hrec.
  unfold bind at 1. unfold gets at 1.
  destruct Hrec as (Hready & Hget & Hpath). rewrite Hpath.
  assert (Hrec : path_recorded s) by (split; [exact Hready|split; assumption]).
  clear Hready Hget Hpath. revert s Hrec.
  change (hoare path_recorded
            (f <- Flow.open_file (poll_signals w) (basename a0 ++ ".log") ModeW ;;
             Flow.act (poll_signals w)
               (fun s => set_outputFiles (Dict.set (basename a0) f (outputFiles s)) s))
            (fun _ => ready) trace_ok).
  eapply hoare_bind with (Q := file_opened).
  { unfold Flow.open_file.
    eapply hoare_bind; [apply poll_stable; exact path_recorded_stable|].
    intros ? s Hrec. destruct Hrec as [[[m [Hm Ho Hc Hf]] Hl] [Hget Hpath]].
    unfold bind, gets, modify, ret. cbn beta iota.
    unfold file_opened.
    cbn [trace outputFiles next_fd heap record set_trace set_next_fd].
    split; [|split; [|split; [|split]]].
    - rewrite sink_monitor_snoc, Hm. cbn [sink_step].
      assert (E1 : mem_path (basename a0 ++ ".log") (map fst (opened m)) = false).
      { destruct (mem_path _ _) eqn:E; [|reflexivity].
        apply mem_path_In in E. rewrite Ho in E.
        exfalso. exact (not_in_log_paths _ _ Hget E). }
      assert (E2 : mem_fd (next_fd s) (map snd (opened m)) = false).
      { destruct (mem_fd _ _) eqn:E; [|reflexivity].
        apply mem_fd_In in E. rewrite Ho in E.
        exfalso. exact (not_in_old_fds Hf E). }
      rewrite E1, E2. cbn [orb]. eexists. split; [reflexivity|].
      cbn [opened closed]. rewrite Ho. auto.
    - eapply Forall_impl; [|exact Hf]. intros x Hx. cbn beta in *. lia.
    - lia.
    - exact Hget.
    - exact Hl. }
  intros f. apply act_stable; [apply file_opened_stable|].
  intros s ((m & Hm & Ho & Hc) & Hf & Hlt & Hget & Hl).
  split; [|exact Hl].
  exists m. constructor.
  - exact Hm.
  - cbn [outputFiles set_outputFiles]. rewrite (dict_set_fresh _ _ _ Hget).
    rewrite map_app. exact Ho.
  - exact Hc.
  - cbn [outputFiles set_outputFiles next_fd]. rewrite (dict_set_fresh _ _ _ Hget).
    apply Forall_app. split; [exact Hf|]. constructor; [exact Hlt|constructor].
Qed.
End SpawnSinks.

Lemma hoare_bind_at A B (m : M A) (f : A -> M B) (Q : A -> state -> Prop)
    (R : B -> state -> Prop) E s :
  match m s with
  | (Ret a, s') => Q a s'
  | (Exit c, s') => E (AExit c) s'
  | (Raise e, s') => E (ARaise e) s'
  end ->
  (forall a, hoare (Q a) (f a) R E) ->
  match bind m f s with
  | (Ret b, s') => R b s'
  | (Exit c, s') => E (AExit c) s'
  | (Raise e, s') => E (ARaise e) s'
  end.
Proof.
  intros Hm Hf. unfold bind. destruct (m s) as [[a|c|e] s1]; auto.
  apply Hf. exact Hm.
Qed.

Lemma popen_sinks w argv out :
  hoare (fun s => sinks_ok s
                  /\ Dict.get (basename (hd "" argv)) (outputFiles s) = Some out)
        (Flow.popen w (poll_signals w) argv out)
        (fun _ => sinks_ok) trace_ok.
Proof.
  assert (Hst : stable (fun s => sinks_ok s
                  /\ Dict.get (basename (hd "" argv)) (outputFiles s) = Some out)).
  { split.
    - intros s p [H1 H2]. split; [apply sinks_ok_stable; exact H1|exact H2].
    - intros s [H _]. apply sinks_ok_accepted. exact H. }
  unfold Flow.popen.
  eapply hoare_bind; [apply poll_stable; exact Hst|].
  intros ?. cbv beta. destruct (can_launch w argv); [|apply raise_stable; exact Hst].
  intros s [[m [Hm Ho Hc Hf]] Hget].
  unfold bind, gets, modify, ret. cbn beta iota.
  exists m. constructor.
  - cbn [trace record set_trace set_next_pid].
    rewrite sink_monitor_snoc, Hm. cbn [sink_step].
    assert (E1 : mem_sink (basename (hd "" argv) ++ ".log") out (opened m) = true).
    { apply mem_sink_In. rewrite Ho. apply dict_get_in in Hget.
      apply in_map_iff. exists (basename (hd "" argv), out). auto. }
    rewrite E1, Hc. reflexivity.
  - exact Ho.
  - exact Hc.
  - exact Hf.
Qed.

Lemma list_get0_sinks a :
  hoare sinks_ok (Flow.list_get0 a) (fun a0 s => ready a a0 s) trace_ok.
Proof.
  intros s Hs. unfold Flow.list_get0, Flow.list_read, bind, gets, ret, raise.
  cbn beta iota.
  destruct (nth a (heap s) []) as [|x rest] eqn:E.
  - apply sinks_ok_accepted. exact Hs.
  - split; [exact Hs|]. exists rest. exact E.
Qed.

(** [spawn] keeps the discipline of the sinks, also when a signal ends
    the run in the middle of it. *)
Lemma spawn_sinks w a : keeps sinks_ok trace_ok (spawn w a).
Proof.
  unfold spawn, Flow.spawn, keeps.
  eapply hoare_bind with (Q := fun _ => sinks_ok).
  { eapply hoare_weaken; [apply list_get0_sinks|auto|]. intros ? s [H _]. exact H. }
  intros a1. eapply hoare_bind with (Q := fun _ => sinks_ok).
  { destruct (negb (contains os_sep a1)); [|apply keeps_ret].
    unfold Flow.list_set0, Flow.list_read.
    apply keeps_bind.
    { apply keeps_bind; [apply keeps_gets|intros ?; apply keeps_ret]. }
    intros [|x rest]; [apply raise_stable; exact sinks_ok_stable|].
    apply act_stable; [exact sinks_ok_stable|].
    intros s Hs. eapply (@sinks_ok_quiet _ _ []); [| | | |exact Hs]; try reflexivity.
    cbn [trace set_heap]. rewrite app_nil_r. reflexivity. }
  intros u. eapply hoare_bind; [apply list_get0_sinks|].
  intros a0. cbv beta zeta.
  intros s Hready. unfold bind at 1. unfold gets at 1. cbv beta iota.
  apply hoare_bind_at with (Q := fun _ => ready a a0).
  { destruct (Dict.get (basename a0) (outputFiles s)) eqn:E.
    - exact Hready.
    - exact (@open_sink_hoare w a a0 s (conj Hready E)). }
  clear s Hready. intros ? s [Hok [rest Hl]].
  unfold bind at 1. unfold Flow.list_read, bind at 1, gets at 1, ret at 1.
  cbn beta iota. rewrite Hl.
  unfold bind at 1. unfold gets at 1.
  destruct (Dict.get (basename a0) (outputFiles s)) as [out|] eqn:E.
  - apply (@popen_sinks w (a0 :: rest) out s). split; [exact Hok|exact E].
  - apply sinks_ok_accepted. exact Hok.
Qed.

(* ------------------------------------------------------------------ *)
(** *** The scenarios keep the invariant *)

Lemma plain_quiet e : plain e = true -> quiet_event e = true.
Proof. destruct e; try discriminate; reflexivity. Qed.

Lemma sinks_ok_record e s : quiet_event e = true -> sinks_ok s -> sinks_ok (record e s).
Proof.
  intros Hq Hs. eapply (@sinks_ok_quiet _ _ [e]); [| | | |exact Hs]; try reflexivity.
  cbn [forallb]. rewrite Hq. reflexivity.
Qed.

Lemma sinks_ok_same s s' :
  outputFiles s' = outputFiles s -> next_fd s' = next_fd s -> trace s' = trace s ->
  sinks_ok s -> sinks_ok s'.
Proof.
  intros H1 H2 H3 Hs. eapply (@sinks_ok_quiet _ _ []); [| | | |exact Hs]; auto.
  rewrite app_nil_r. exact H3.
Qed.

Lemma runTest_sinks w sc :
  keeps sinks_ok trace_ok (runTest w (description_of sc) 500 (body_of w sc)).
Proof.
  assert (Hcp := poll_stable w sinks_ok_stable).
  assert (Hraise : forall e s, sinks_ok s -> trace_ok (ARaise e) s)
    by (intros e s; apply sinks_ok_accepted).
  assert (Hrecord : forall e s, plain e = true -> sinks_ok s -> sinks_ok (record e s))
    by (intros e s He; apply sinks_ok_record, plain_quiet, He).
  assert (Hproc : forall d s, sinks_ok s -> sinks_ok (set_proc d s))
    by (intros d s; apply sinks_ok_same; reflexivity).
  assert (Hheap : forall h s, sinks_ok s -> sinks_ok (set_heap h s))
    by (intros h s; apply sinks_ok_same; reflexivity).
  assert (Hclear : forall s, sinks_ok s ->
                     sinks_ok (record EvRegistryClear (set_proc [] s))).
  { intros s Hs. apply sinks_ok_record; [reflexivity|].
    revert Hs. apply sinks_ok_same; reflexivity. }
  assert (Hstart : forall ms s, sinks_ok s ->
                     sinks_ok (record (EvTimerStart ms) (set_timer_armed true s))).
  { intros ms s Hs. apply sinks_ok_record; [reflexivity|].
    revert Hs. apply sinks_ok_same; reflexivity. }
  assert (Hcancel : forall s, sinks_ok s ->
                      sinks_ok (record EvTimerCancel (set_timer_armed false s))).
  { intros s Hs. apply sinks_ok_record; [reflexivity|].
    revert Hs. apply sinks_ok_same; reflexivity. }
  unfold runTest, keeps.
  eapply hoare_runTest with (B := fun _ => True); try eassumption.
  - apply hoare_returning; [|auto].
    pose proof (@keeps_bodies w (poll_signals w) sinks_ok trace_ok
                  Hcp Hraise Hrecord Hproc Hheap (spawn_sinks w) sc) as H.
    destruct sc; exact H.
  - intros b _. apply act_stable; [exact sinks_ok_stable|].
    intros s Hs. apply sinks_ok_record; [reflexivity|].
    revert Hs. apply sinks_ok_same; reflexivity.
Qed.

Lemma run_scenarios_sinks w : keeps sinks_ok trace_ok (run_scenarios w).
Proof.
  rewrite run_scenarios_unfold.
  repeat (apply keeps_bind; [apply runTest_sinks|intros ?]).
  apply runTest_sinks.
Qed.

Lemma initial_sinks_ok sched : sinks_ok (initial sched).
Proof.
  exists (mkSinks [] []). constructor; try reflexivity. constructor.
Qed.

(* ------------------------------------------------------------------ *)
(** *** Closing the sinks, then reading the logs *)

Lemma hoare_for_each_prefix A (J : list A -> state -> Prop) E (l : list A) f :
  (forall done x rest, l = (done ++ x :: rest)%list ->
     hoare (J done) (f x) (fun _ => J (done ++ [x])%list) E) ->
  hoare (J []) (for_each l f) (fun _ => J l) E.
Proof.
  intros Hf.
  assert (H : forall rest done, l = (done ++ rest)%list ->
                hoare (J done) (for_each rest f) (fun _ => J l) E).
  { induction rest as [|x rest IH]; intros done Hl.
    - rewrite app_nil_r in Hl. subst done. intros s Hs. exact Hs.
    - cbn [for_each]. eapply hoare_bind; [apply (Hf done x rest Hl)|].
      intros ?. apply IH. rewrite <- app_assoc. exact Hl. }
  apply (H l []). reflexivity.
Qed.

Lemma closing_stable files done : stable (closing files done).
Proof.
  split; [intros s p H; exact H|].
  intros s (m & H & _). exists m. exact H.
Qed.

Lemma scanning_stable : stable scanning.
Proof.
  split; [intros s p H; exact H|].
  intros s (m & H & _). exists m. exact H.
Qed.

Lemma scanning_with_stable f : stable (scanning_with f).
Proof.
  split; [intros s p H; exact H|].
  intros s [H _]. apply scanning_stable. exact H.
Qed.

Lemma values_log_pair (files : Dict.t fd) :
  map snd (map log_pair files) = Dict.values files.
Proof. unfold Dict.values. rewrite map_map. reflexivity. Qed.

Lemma sinks_ok_closing s : sinks_ok s -> closing (outputFiles s) [] s.
Proof.
  intros [m [Hm Ho Hc Hf]]. exists m.
  split; [exact Hm|]. split; [exact Ho|].
  split; [rewrite Hc; cbn; tauto|]. split; [exact Hf|reflexivity].
Qed.

Lemma closing_all_scanning s : closing (outputFiles s) (outputFiles s) s -> scanning s.
Proof.
  intros (m & Hm & Ho & Hc & Hf & _). exists m.
  split; [exact Hm|]. split; [exact Ho|].
  split; [intros f Hin; apply Hc; exact Hin|exact Hf].
Qed.

Lemma close_sinks w files :
  hoare (closing files [])
    (for_each files (fun '(p, f) => Flow.file_close (poll_signals w) f))
    (fun _ => closing files files) trace_ok.
Proof.
  apply hoare_for_each_prefix with (J := closing files).
  intros done [p f] rest Hl. unfold Flow.file_close.
  apply act_stable; [apply closing_stable|].
  intros s (m & Hm & Ho & Hc & Hf & Hfiles).
  destruct (sink_monitor_sound _ Hm) as (_ & Hnd & _).
  rewrite Ho, values_log_pair in Hnd.
  assert (Hin : In f (Dict.values files)).
  { rewrite Hl. unfold Dict.values. rewrite map_app. apply in_or_app.
    right. left. reflexivity. }
  assert (Hnot : ~ In f (Dict.values done)).
  { rewrite Hl in Hnd. unfold Dict.values in Hnd |- *. rewrite map_app in Hnd.
    cbn [map snd] in Hnd. apply NoDup_remove_2 in Hnd.
    intros H. apply Hnd. apply in_or_app. left. exact H. }
  exists (mkSinks (opened m) (f :: closed m)).
  split; [|split; [|split; [|split]]].
  - cbn [trace record set_trace]. rewrite sink_monitor_snoc, Hm. cbn [sink_step].
    assert (E1 : mem_fd f (map snd (opened m)) = true)
      by (apply mem_fd_In; rewrite Ho, values_log_pair; exact Hin).
    assert (E2 : mem_fd f (closed m) = false).
    { destruct (mem_fd f (closed m)) eqn:E; [|reflexivity].
      apply mem_fd_In in E. apply Hc in E. contradiction. }
    rewrite E1, E2. reflexivity.
  - exact Ho.
  - intros g. cbn [closed]. unfold Dict.values. rewrite map_app, in_app_iff.
    cbn [map snd In]. fold (Dict.values done). rewrite <- Hc. tauto.
  - exact Hf.
  - exact Hfiles.
Qed.

Lemma scanning_quiet e s : quiet_event e = true -> scanning s -> scanning (record e s).
Proof.
  intros Hq (m & Hm & Ho & Hc & Hf). exists m.
  split; [|split; [exact Ho|split; [exact Hc|exact Hf]]].
  cbn [trace record set_trace].
  rewrite sink_monitor_quiet; [exact Hm|]. cbn [forallb]. rewrite Hq. reflexivity.
Qed.

Lemma scanning_close f s : scanning_with f s -> scanning_with f (record (EvClose f) s).
Proof.
  intros [(m & Hm & Ho & Hc & Hf) Hnot]. split; [|exact Hnot].
  exists m. split; [|split; [exact Ho|split; [exact Hc|exact Hf]]].
  cbn [trace record set_trace]. rewrite sink_monitor_snoc, Hm. cbn [sink_step].
  assert (E : mem_fd f (map snd (opened m)) = false).
  { destruct (mem_fd _ _) eqn:E; [|reflexivity].
    apply mem_fd_In in E. rewrite Ho, values_log_pair in E. contradiction. }
  rewrite E. reflexivity.
Qed.

Lemma open_for_reading w path :
  hoare scanning (Flow.open_file (poll_signals w) path ModeR)
        scanning_with trace_ok.
Proof.
  unfold Flow.open_file.
  eapply hoare_bind; [apply poll_stable; exact scanning_stable|].
  intros ? s (m & Hm & Ho & Hc & Hf).
  unfold bind, gets, modify, ret. cbn beta iota.
  assert (Hnot : ~ In (next_fd s) (Dict.values (outputFiles s))).
  { rewrite <- values_log_pair. apply not_in_old_fds. exact Hf. }
  split; [|exact Hnot].
  exists m. split; [|split; [exact Ho|split; [exact Hc|]]].
  - cbn [trace record set_trace set_next_fd].
    rewrite sink_monitor_snoc, Hm. cbn [sink_step].
    assert (E1 : forallb (fun x => mem_fd (snd x) (closed m)) (opened m) = true).
    { apply forallb_forall. intros x Hx. apply mem_fd_In. apply Hc.
      rewrite <- values_log_pair, <- Ho. apply in_map. exact Hx. }
    assert (E2 : mem_fd (next_fd s) (map snd (opened m)) = false).
    { destruct (mem_fd _ _) eqn:E; [|reflexivity].
      apply mem_fd_In in E. rewrite Ho, values_log_pair in E. contradiction. }
    rewrite E1, E2. reflexivity.
  - cbn [outputFiles next_fd record set_trace set_next_fd].
    eapply Forall_impl; [|exact Hf]. intros x Hx. cbn beta in *. lia.
Qed.

Lemma check_leaks_sinks w :
  hoare sinks_ok (Flow.check_leaks w (poll_signals w)) (fun _ => scanning) trace_ok.
Proof.
  unfold Flow.check_leaks.
  intros s Hs. unfold bind at 1. unfold gets at 1. cbv beta iota.
  apply hoare_bind_at with (Q := fun _ s' => closing (outputFiles s') (outputFiles s') s').
  { pose proof (@close_sinks w (outputFiles s) s (sinks_ok_closing Hs)) as H.
    destruct (for_each _ _ s) as [[[]|c|e] s1]; try exact H.
    destruct H as (m & Hm & Ho & Hc & Hf & Hfiles).
    exists m. rewrite Hfiles. repeat split; auto; apply Hc. }
  clear s Hs. intros ?.
  eapply hoare_bind with (Q := fun _ => scanning).
  { intros s Hs. apply closing_all_scanning. exact Hs. }
  intros paths. apply keeps_fold_each. intros b [p filepath].
  eapply hoare_bind; [apply open_for_reading|].
  intros f. cbv zeta. eapply hoare_bind with (Q := fun _ => scanning_with f).
  { destruct (Flow.scan_lines _).
    - unfold Flow.print. apply act_stable; [apply scanning_with_stable|].
      intros s [Hs Hn]. split; [apply scanning_quiet; [reflexivity|exact Hs]|exact Hn].
    - intros s Hs. exact Hs. }
  intros ?. eapply hoare_bind with (Q := fun _ => scanning_with f).
  { unfold Flow.file_close. apply act_stable; [apply scanning_with_stable|].
    intros s. apply scanning_close. }
  intros ?. eapply hoare_bind with (Q := fun _ => scanning_with f).
  { unfold Flow.file_close. apply act_stable; [apply scanning_with_stable|].
    intros s. apply scanning_close. }
  intros ? s [Hs _]. exact Hs.
Qed.

Lemma print_results_sinks w leak :
  hoare scanning (Flow.print_results (poll_signals w) leak)
        (fun _ s => accepted_trace (trace s)) trace_ok.
Proof.
  assert (Hprint : forall msg, keeps scanning trace_ok
                                 (Flow.print (poll_signals w) msg)).
  { intros msg. unfold Flow.print. apply act_stable; [exact scanning_stable|].
    intros s. apply scanning_quiet. reflexivity. }
  assert (Hacc : forall s, scanning s -> accepted_trace (trace s))
    by apply scanning_stable.
  unfold Flow.print_results.
  eapply hoare_bind; [apply keeps_gets|]. intros rs. cbv zeta.
  destruct (Nat.ltb 0 (Flow.count_failed rs)); [|destruct leak].
  - eapply hoare_bind; [apply Hprint|]. intros ?. apply hoare_exit. exact Hacc.
  - eapply hoare_bind; [apply Hprint|]. intros ?. apply hoare_exit. exact Hacc.
  - eapply hoare_weaken; [apply Hprint|auto|]. intros ? s. apply Hacc.
Qed.

Lemma script_sinks w :
  hoare sinks_ok (script w) (fun _ s => accepted_trace (trace s)) trace_ok.
Proof.
  unfold script, Flow.script. fold (run_scenarios w).
  eapply hoare_bind; [apply run_scenarios_sinks|]. intros ?.
  unfold Flow.report.
  eapply hoare_bind; [apply check_leaks_sinks|]. intros leak.
  apply print_results_sinks.
Qed.

(** Every event of an accepted trace passed the monitor's check in the
    situation left by the events before it. *)
Lemma accepted_trace_split pre e post :
  accepted_trace (pre ++ e :: post) ->
  exists m m', sink_monitor pre = Some m /\ sink_step m e = Some m'.
Proof.
  intros [mf H]. unfold sink_monitor in H.
  rewrite sink_run_app in H. fold (sink_monitor pre) in H.
  destruct (sink_monitor pre) as [m|].
  - cbn [sink_run fold_left] in H.
    destruct (sink_step m e) as [m'|] eqn:E.
    + exists m, m'. auto.
    + change (sink_run None post = Some mf) in H.
      rewrite sink_run_none in H. discriminate.
  - rewrite sink_run_none in H. discriminate.
Qed.

(* ================================================================== *)
(** ** Claim about the log sinks *)

(** C6.  Whatever the environment does and whenever a signal arrives, the
    trace of the whole script obeys the discipline of [sink_monitor],
    event by event: a log path is opened for writing at most once in the
    run, every process is started with its standard output on the file
    object opened (earlier, and only then) for the log of its executable's
    basename and with its standard error on the same stream, no sink is
    closed twice, and no log is opened for reading before all sinks are
    closed.  When the four scenarios have completed and the leak scan
    returns, the sinks are exactly the entries of [outputFiles] and each
    of them has been closed, once. *)
Theorem sinks_opened_once_and_closed_once w sched :
  accepted_trace (trace (snd (script w (initial sched))))
  /\ (forall pre e post,
        trace (snd (script w (initial sched))) = (pre ++ e :: post)%list ->
        exists m m', sink_monitor pre = Some m /\ sink_step m e = Some m')
  /\ (forall s1 leak s2,
        run_scenarios w (initial sched) = (Ret tt, s1) ->
        Flow.check_leaks w (poll_signals w) s1 = (Ret leak, s2) ->
        exists m,
          sink_monitor (trace s2) = Some m
          /\ opened m = map log_pair (outputFiles s2)
          /\ NoDup (map fst (opened m))
          /\ NoDup (closed m)
          /\ (forall f, In f (Dict.values (outputFiles s2)) <-> In f (closed m))).
Proof.
  assert (Hacc : accepted_trace (trace (snd (script w (initial sched))))).
  { pose proof (@script_sinks w (initial sched) (initial_sinks_ok sched)) as H.
    destruct (script w (initial sched)) as [[[]|c|e] s']; exact H. }
  split; [exact Hacc|]. split.
  - intros pre e post Ht. rewrite Ht in Hacc.
    apply accepted_trace_split with (post := post). exact Hacc.
  - intros s1 leak s2 Hrun Hleak.
    pose proof (@run_scenarios_sinks w (initial sched) (initial_sinks_ok sched)) as H1.
    rewrite Hrun in H1.
    pose proof (@check_leaks_sinks w s1 H1) as H2. rewrite Hleak in H2.
    destruct H2 as (m & Hm & Ho & Hc & _).
    destruct (sink_monitor_sound _ Hm) as (N1 & _ & N3 & Hincl).
    exists m. split; [exact Hm|]. split; [exact Ho|].
    split; [exact N1|]. split; [exact N3|].
    intros f. split; [apply Hc|].
    intros Hin. apply Hincl in Hin. rewrite Ho, values_log_pair in Hin. exact Hin.
Qed.

Lemma sinks_opened_once_and_closed_once_witness :
  let s1 := after_scenarios calm_world in
  let s2 := snd (Flow.check_leaks calm_world (poll_signals calm_world) s1) in
  outputFiles s2 = [("skald", 0); ("reader", 1); ("writer", 2)]
  /\ exists m,
       sink_monitor (trace s2) = Some m
       /\ opened m = map log_pair (outputFiles s2)
       /\ NoDup (map fst (opened m))
       /\ NoDup (closed m)
       /\ (forall f, In f (Dict.values (outputFiles s2)) <-> In f (closed m)).
Proof.
  intros s1 s2. split; [vm_compute; reflexivity|].
  apply (proj2 (proj2 (sinks_opened_once_and_closed_once calm_world None))
           s1 false s2).
  - vm_compute. reflexivity.
  - vm_compute. reflexivity.
Defined.

(* ================================================================== *)
(** ** The two harnesses agree on a file system that obliges *)

Lemma same_refl A (m : M A) : same_run m m.
Proof. intros s. reflexivity. Qed.

Lemma bind_same A B (m m' : M A) (f g : A -> M B) :
  same_run m m' -> (forall a, same_run (f a) (g a)) ->
  same_run (bind m f) (bind m' g).
Proof.
  intros Hm Hf s. unfold bind. rewrite Hm.
  destruct (m' s) as [[a|c|e] s1]; [apply Hf|reflexivity|reflexivity].
Qed.

Lemma fold_each_same A B (l : list A) (f g : B -> A -> M B) b :
  (forall b x, In x l -> same_run (f b x) (g b x)) ->
  same_run (fold_each l f b) (fold_each l g b).
Proof.
  revert b. induction l as [|x l IH]; intros b H; cbn [fold_each].
  - apply same_refl.
  - apply bind_same; [apply H; left; reflexivity|].
    intros b'. apply IH. intros b0 y Hy. apply H. right. exact Hy.
Qed.

Section Obliging.
Variable d : Disk.
Variable w : World.
Variable cp : M unit.

Lemma open_file_same path m :
  open_refused d path m = false ->
  same_run (FlowIO.open_file d cp path m) (Flow.open_file cp path m).
Proof.
  intros H. unfold FlowIO.open_file, Flow.open_file. rewrite H.
  apply same_refl.
Qed.

Ltac same_done :=
  match goal with
  | |- same_run ?a ?b => constr_eq a b; apply same_refl
  end.

Ltac same_steps :=
  repeat first
    [ same_done
    | apply open_file_same; solve [auto]
    | (apply bind_same; [|intros ?])
    | match goal with
      | |- same_run (match ?x with _ => _ end) (match ?x with _ => _ end) =>
          destruct x
      | |- same_run (if ?x then _ else _) (if ?x then _ else _) => destruct x
      end ].

Lemma spawn_same a :
  (forall path, open_refused d path ModeW = false) ->
  same_run (FlowIO.spawn d w cp a) (Flow.spawn w cp a).
Proof.
  intros H. unfold FlowIO.spawn, Flow.spawn. cbv zeta. same_steps.
Qed.

Lemma startSkaldReaderWriter_same url aS aR aW :
  (forall path, open_refused d path ModeW = false) ->
  same_run (FlowIO.startSkaldReaderWriter d w cp url aS aR aW)
           (Flow.startSkaldReaderWriter w cp url aS aR aW).
Proof.
  intros H. unfold FlowIO.startSkaldReaderWriter, Flow.startSkaldReaderWriter.
  repeat first
    [ same_done
    | apply spawn_same; exact H
    | (apply bind_same; [|intros ?]) ].
Qed.

Lemma runTest_same description timeout_ms (body body' : M bool) :
  same_run body body' ->
  same_run (Flow.runTest w cp description timeout_ms body)
           (Flow.runTest w cp description timeout_ms body').
Proof.
  intros H. unfold Flow.runTest.
  repeat first
    [ same_done | exact H | (apply bind_same; [|intros ?]) ].
Qed.

Lemma run_scenarios_same :
  (forall path, open_refused d path ModeW = false) ->
  same_run (FlowIO.run_scenarios d w cp) (Flow.run_scenarios w cp).
Proof.
  intros H. unfold FlowIO.run_scenarios, Flow.run_scenarios,
    FlowIO.testSendOneMsg, FlowIO.testSendFiveMsg,
    FlowIO.testSendOneMsgToGroup, FlowIO.testSendFiveMsgToGroup,
    Flow.testSendOneMsg, Flow.testSendFiveMsg,
    Flow.testSendOneMsgToGroup, Flow.testSendFiveMsgToGroup.
  repeat first
    [ same_done
    | apply runTest_same
    | apply startSkaldReaderWriter_same; exact H
    | (apply bind_same; [|intros ?]) ].
Qed.

Lemma check_leaks_same :
  obliging d -> same_run (FlowIO.check_leaks d w cp) (Flow.check_leaks w cp).
Proof.
  intros [H1 H2]. unfold FlowIO.check_leaks, Flow.check_leaks.
  apply bind_same; [apply same_refl|]. intros files.
  apply bind_same; [apply same_refl|]. intros ?.
  apply bind_same; [apply same_refl|]. intros paths.
  apply fold_each_same. intros b [p filepath] _.
  apply bind_same; [apply open_file_same; apply H1|].
  intros f. rewrite H2. apply same_refl.
Qed.

(** On a file system that obliges, the harness that reckons with the
    failures of the file system is the harness of [Flow]. *)
Lemma script_same :
  obliging d -> same_run (FlowIO.script d w cp) (Flow.script w cp).
Proof.
  intros H. unfold FlowIO.script, Flow.script, FlowIO.report, Flow.report.
  apply bind_same; [apply run_scenarios_same; intros path; apply H|].
  intros ?. apply bind_same; [apply check_leaks_same; exact H|].
  intros ?. apply same_refl.
Qed.
End Obliging.

(* ================================================================== *)
(** ** Starting the three roles *)

Lemma dict_get_set_other V k k' (v : V) d :
  k <> k' -> Dict.get k (Dict.set k' v d) = Dict.get k d.
Proof.
  intros Hk. induction d as [|[k2 v2] d IH]; simpl.
  - destruct (String.eqb_spec k k'); [contradiction|reflexivity].
  - destruct (String.eqb_spec k' k2).
    + subst. simpl. destruct (String.eqb_spec k k2); [contradiction|reflexivity].
    + simpl. rewrite IH. reflexivity.
Qed.

Lemma lifecycle_app tr1 tr2 :
  lifecycle (tr1 ++ tr2) = (lifecycle tr1 ++ lifecycle tr2)%list.
Proof. apply filter_app. Qed.

Lemma length_replace_nth A n (x : A) l :
  List.length (Flow.replace_nth n x l) = List.length l.
Proof.
  revert n. induction l as [|y l IH]; intros [|n]; cbn; auto.
Qed.

Lemma nth_new_list (h : list (list string)) l : nth (List.length h) (h ++ [l]) [] = l.
Proof. rewrite app_nth2 by lia. rewrite Nat.sub_diag. reflexivity. Qed.

Lemma spawn_prepared_frame a a0 rest s :
  proc (spawn_prepared a a0 rest s) = proc s
  /\ pending (spawn_prepared a a0 rest s) = pending s
  /\ results (spawn_prepared a a0 rest s) = results s
  /\ timer_armed (spawn_prepared a a0 rest s) = timer_armed s
  /\ next_pid (spawn_prepared a a0 rest s) = next_pid s.
Proof.
  unfold spawn_prepared.
  destruct (Dict.get _ (outputFiles s)), (contains os_sep a0); repeat split.
Qed.

Lemma lifecycle_spawn_prepared a a0 rest s :
  lifecycle (trace (spawn_prepared a a0 rest s)) = lifecycle (trace s).
Proof.
  rewrite trace_spawn_prepared, lifecycle_app.
  destruct (Dict.get _ (outputFiles s)); cbn; apply app_nil_r.
Qed.

(** Building the list and spawning it, followed by anything. *)
Lemma launch_exec w cp a0 rest s B (k : pid -> M B) :
  silent cp s ->
  bind (Flow.new_list cp (a0 :: rest)) (fun l => bind (Flow.spawn w cp l) k) s =
    if can_launch w (resolved a0 :: rest)
    then k (next_pid s) (launched a0 rest s)
    else (Raise (OSError "Popen"), not_launched a0 rest s).
Proof.
  intros Hs. unfold Flow.new_list.
  unfold bind at 1. unfold bind at 1. unfold gets at 1.
  unfold bind at 1. rewrite (act_silent _ Hs). unfold ret at 1.
  unfold bind at 1.
  rewrite (@spawn_exec w cp (List.length (heap s)) a0 rest).
  - cbv zeta. cbn [next_pid set_heap].
    destruct (can_launch w (resolved a0 :: rest)); reflexivity.
  - eapply silent_same; [exact Hs|reflexivity].
  - cbn [heap set_heap]. apply nth_new_list.
Qed.

Lemma launched_frame a0 rest s :
  proc (launched a0 rest s) = proc s
  /\ pending (launched a0 rest s) = pending s
  /\ results (launched a0 rest s) = results s
  /\ timer_armed (launched a0 rest s) = timer_armed s
  /\ next_pid (launched a0 rest s) = S (next_pid s).
Proof.
  unfold launched. cbv zeta.
  cbn [proc pending results timer_armed next_pid record set_trace set_next_pid].
  destruct (spawn_prepared_frame (List.length (heap s)) a0 rest
              (set_heap (heap s ++ [a0 :: rest]) s)) as (H1 & H2 & H3 & H4 & _).
  rewrite H1, H2, H3, H4. cbn [proc pending results timer_armed set_heap].
  repeat split.
Qed.

Lemma not_launched_frame a0 rest s :
  proc (not_launched a0 rest s) = proc s
  /\ pending (not_launched a0 rest s) = pending s
  /\ results (not_launched a0 rest s) = results s
  /\ timer_armed (not_launched a0 rest s) = timer_armed s
  /\ next_pid (not_launched a0 rest s) = next_pid s.
Proof.
  unfold not_launched.
  destruct (spawn_prepared_frame (List.length (heap s)) a0 rest
              (set_heap (heap s ++ [a0 :: rest]) s)) as (H1 & H2 & H3 & H4 & H5).
  rewrite H1, H2, H3, H4, H5. repeat split.
Qed.

Lemma lifecycle_launched a0 rest s :
  exists out,
    lifecycle (trace (launched a0 rest s)) =
      (lifecycle (trace s) ++ [EvPopen (resolved a0 :: rest) out ToStdout (next_pid s)])%list.
Proof.
  eexists. unfold launched. cbv zeta. cbn [trace record set_trace set_next_pid].
  rewrite lifecycle_app, lifecycle_spawn_prepared. reflexivity.
Qed.

Lemma lifecycle_not_launched a0 rest s :
  lifecycle (trace (not_launched a0 rest s)) = lifecycle (trace s).
Proof. unfold not_launched. rewrite lifecycle_spawn_prepared. reflexivity. Qed.

Lemma proc_launched a0 rest s : proc (launched a0 rest s) = proc s.
Proof. apply launched_frame. Qed.
Lemma pending_launched a0 rest s : pending (launched a0 rest s) = pending s.
Proof. apply launched_frame. Qed.
Lemma results_launched a0 rest s : results (launched a0 rest s) = results s.
Proof. apply launched_frame. Qed.
Lemma timer_launched a0 rest s : timer_armed (launched a0 rest s) = timer_armed s.
Proof. apply launched_frame. Qed.
Lemma next_pid_launched a0 rest s : next_pid (launched a0 rest s) = S (next_pid s).
Proof. apply launched_frame. Qed.

(** What one role's launch changes. *)
Lemma role_started_frame role url args s :
  proc (role_started role url args s) = Dict.set role (next_pid s) (proc s)
  /\ pending (role_started role url args s) = pending s
  /\ results (role_started role url args s) = results s
  /\ timer_armed (role_started role url args s) = timer_armed s
  /\ next_pid (role_started role url args s) = S (next_pid s)
  /\ exists out,
       lifecycle (trace (role_started role url args s)) =
         (lifecycle (trace s) ++
          [EvPopen (resolved role :: "-u" :: url :: args) out ToStdout (next_pid s)])%list.
Proof.
  unfold role_started. cbv zeta.
  cbn [proc pending results timer_armed next_pid trace set_proc].
  rewrite ?proc_launched, ?pending_launched, ?results_launched, ?timer_launched,
    ?next_pid_launched.
  repeat (split; [reflexivity|]). apply lifecycle_launched.
Qed.

Lemma resolved_bare role : contains os_sep role = false -> resolved role = "./" ++ role.
Proof. intros H. unfold resolved. rewrite H. apply path_join_dot. exact H. Qed.

Lemma role_exec w cp role url args s B (k : unit -> M B) :
  contains os_sep role = false ->
  silent cp s ->
  bind (Flow.new_list cp ([role; "-u"; url] ++ args)%list)
       (fun l => bind (Flow.spawn w cp l)
                      (fun p => bind (Flow.proc_set cp role p) k)) s =
    if can_launch w (argv_of role url args)
    then k tt (role_started role url args s)
    else (Raise (OSError "Popen"), not_launched role ("-u" :: url :: args) s).
Proof.
  intros Hrole Hs.
  change ([role; "-u"; url] ++ args)%list with (role :: "-u" :: url :: args).
  rewrite launch_exec by exact Hs.
  rewrite (resolved_bare role Hrole). fold (argv_of role url args).
  destruct (can_launch w _); [|reflexivity].
  unfold bind at 1. unfold Flow.proc_set.
  rewrite act_silent
    by (eapply silent_same; [exact Hs|apply pending_launched]).
  unfold role_started. cbv zeta. rewrite proc_launched. reflexivity.
Qed.

(** The same for the last role, after which the function returns. *)
Lemma role_exec_last w cp role url args s :
  contains os_sep role = false ->
  silent cp s ->
  bind (Flow.new_list cp ([role; "-u"; url] ++ args)%list)
       (fun l => bind (Flow.spawn w cp l)
                      (fun p => Flow.proc_set cp role p)) s =
    if can_launch w (argv_of role url args)
    then (Ret tt, role_started role url args s)
    else (Raise (OSError "Popen"), not_launched role ("-u" :: url :: args) s).
Proof.
  intros Hrole Hs.
  change ([role; "-u"; url] ++ args)%list with (role :: "-u" :: url :: args).
  rewrite launch_exec by exact Hs.
  rewrite (resolved_bare role Hrole). fold (argv_of role url args).
  destruct (can_launch w _); [|reflexivity].
  unfold Flow.proc_set.
  rewrite act_silent
    by (eapply silent_same; [exact Hs|apply pending_launched]).
  unfold role_started. cbv zeta. rewrite proc_launched. reflexivity.
Qed.

(** A pause, a debug message, then anything. *)
Lemma pause_exec cp msg s B (k : M B) :
  silent cp s ->
  bind (Flow.time_sleep cp 10) (fun _ => bind (Flow.logger_debug cp msg) (fun _ => k)) s
  = k (record (EvLog DEBUG msg) (record (EvSleep 10) s)).
Proof.
  intros Hs. unfold bind at 1. unfold Flow.time_sleep.
  rewrite (act_silent _ Hs). unfold bind at 1. unfold Flow.logger_debug.
  rewrite act_silent by (eapply silent_same; [exact Hs|reflexivity]).
  reflexivity.
Qed.

Lemma pending_record e s : pending (record e s) = pending s.
Proof. reflexivity. Qed.

(** The states of a launch are compared by name, not by content. *)
Strategy 100 [spawn_prepared launched not_launched role_started].

Section Start.
Variable w : World.
Variable cp : M unit.
Variables (url : string) (aS aR aW : list string).

Lemma pending_after_skald s : pending (after_skald url aS s) = pending s.
Proof.
  unfold after_skald.
  destruct (role_started_frame "skald" url aS (before_skald s)) as (_ & H & _).
  rewrite H. reflexivity.
Qed.

Lemma pending_after_reader s : pending (after_reader url aS aR s) = pending s.
Proof.
  unfold after_reader.
  destruct (role_started_frame "reader" url aR (before_reader url aS s))
    as (_ & H & _).
  rewrite H. unfold before_reader. rewrite !pending_record.
  apply pending_after_skald.
Qed.

(** The complete behaviour of [startSkaldReaderWriter] when no signal
    arrives. *)
Lemma pending_before_reader s : pending (before_reader url aS s) = pending s.
Proof. unfold before_reader. rewrite !pending_record. apply pending_after_skald. Qed.

Lemma pending_before_writer s : pending (before_writer url aS aR s) = pending s.
Proof. unfold before_writer. rewrite !pending_record. apply pending_after_reader. Qed.

Lemma startSkaldReaderWriter_exec s :
  silent cp s ->
  Flow.startSkaldReaderWriter w cp url aS aR aW s =
    if can_launch w (argv_of "skald" url aS) then
      if can_launch w (argv_of "reader" url aR) then
        if can_launch w (argv_of "writer" url aW)
        then (Ret tt, after_writer url aS aR aW s)
        else (Raise (OSError "Popen"),
              not_launched "writer" ("-u" :: url :: aW) (before_writer url aS aR s))
      else (Raise (OSError "Popen"),
            not_launched "reader" ("-u" :: url :: aR) (before_reader url aS s))
    else (Raise (OSError "Popen"),
          not_launched "skald" ("-u" :: url :: aS) (before_skald s)).
Proof.
  intros Hs. unfold Flow.startSkaldReaderWriter.
  unfold bind at 1. unfold Flow.logger_debug at 1. rewrite (act_silent _ Hs).
  rewrite role_exec;
    [|reflexivity|eapply silent_same; [exact Hs|reflexivity]].
  destruct (can_launch w (argv_of "skald" url aS)); [|reflexivity].
  rewrite pause_exec
    by (eapply silent_same; [exact Hs|apply pending_after_skald]).
  rewrite role_exec;
    [|reflexivity|eapply silent_same; [exact Hs|apply pending_before_reader]].
  destruct (can_launch w (argv_of "reader" url aR)); [|reflexivity].
  rewrite pause_exec
    by (eapply silent_same; [exact Hs|apply pending_after_reader]).
  rewrite role_exec_last;
    [|reflexivity|eapply silent_same; [exact Hs|apply pending_before_writer]].
  destruct (can_launch w (argv_of "writer" url aW)); reflexivity.
Qed.
End Start.

Lemma lifecycle_record e s :
  lifecycle (trace (record e s)) =
    (lifecycle (trace s) ++ if lifecycle_event e then [e] else [])%list.
Proof.
  unfold record. cbn [trace set_trace]. rewrite lifecycle_app.
  unfold lifecycle at 2. cbn [filter]. destruct (lifecycle_event e); reflexivity.
Qed.

Lemma results_record e s : results (record e s) = results s.
Proof. reflexivity. Qed.
Lemma timer_record e s : timer_armed (record e s) = timer_armed s.
Proof. reflexivity. Qed.
Lemma proc_record e s : proc (record e s) = proc s.
Proof. reflexivity. Qed.
Lemma next_pid_record e s : next_pid (record e s) = next_pid s.
Proof. reflexivity. Qed.

Section StartFacts.
Variables (url : string) (aS aR aW : list string).

Lemma after_skald_facts s :
  proc (after_skald url aS s) = Dict.set "skald" (next_pid s) (proc s)
  /\ pending (after_skald url aS s) = pending s
  /\ results (after_skald url aS s) = results s
  /\ timer_armed (after_skald url aS s) = timer_armed s
  /\ next_pid (after_skald url aS s) = S (next_pid s)
  /\ exists o1,
       lifecycle (trace (after_skald url aS s)) =
         (lifecycle (trace s) ++
          [EvPopen (argv_of "skald" url aS) o1 ToStdout (next_pid s)])%list.
Proof.
  unfold after_skald.
  destruct (role_started_frame "skald" url aS (before_skald s))
    as (H1 & H2 & H3 & H4 & H5 & o1 & H6).
  rewrite H1, H2, H3, H4, H5. unfold before_skald in *.
  rewrite proc_record, pending_record, results_record, timer_record,
    next_pid_record.
  repeat (split; [reflexivity|]).
  exists o1. rewrite H6, lifecycle_record, next_pid_record.
  cbn [lifecycle_event]. rewrite app_nil_r.
  rewrite (@resolved_bare "skald" eq_refl). reflexivity.
Qed.

Lemma before_reader_facts s :
  proc (before_reader url aS s) = proc (after_skald url aS s)
  /\ results (before_reader url aS s) = results (after_skald url aS s)
  /\ timer_armed (before_reader url aS s) = timer_armed (after_skald url aS s)
  /\ next_pid (before_reader url aS s) = next_pid (after_skald url aS s)
  /\ lifecycle (trace (before_reader url aS s)) =
       (lifecycle (trace (after_skald url aS s)) ++ [EvSleep 10])%list.
Proof.
  unfold before_reader.
  rewrite !proc_record, !results_record, !timer_record, !next_pid_record,
    !lifecycle_record.
  cbn [lifecycle_event]. rewrite app_nil_r. repeat split.
Qed.

Lemma after_reader_facts s :
  proc (after_reader url aS aR s) =
    Dict.set "reader" (S (next_pid s)) (Dict.set "skald" (next_pid s) (proc s))
  /\ pending (after_reader url aS aR s) = pending s
  /\ results (after_reader url aS aR s) = results s
  /\ timer_armed (after_reader url aS aR s) = timer_armed s
  /\ next_pid (after_reader url aS aR s) = S (S (next_pid s))
  /\ exists o1 o2,
       lifecycle (trace (after_reader url aS aR s)) =
         (lifecycle (trace s) ++
          [EvPopen (argv_of "skald" url aS) o1 ToStdout (next_pid s);
           EvSleep 10;
           EvPopen (argv_of "reader" url aR) o2 ToStdout (S (next_pid s))])%list.
Proof.
  destruct (after_skald_facts s) as (A1 & A2 & A3 & A4 & A5 & o1 & A6).
  destruct (before_reader_facts s) as (B1 & B3 & B4 & B5 & B6).
  unfold after_reader.
  destruct (role_started_frame "reader" url aR (before_reader url aS s))
    as (H1 & H2 & H3 & H4 & H5 & o2 & H6).
  rewrite H1, H2, H3, H4, H5, B1, B3, B4, B5, A1, A3, A4, A5.
  rewrite (pending_before_reader url aS s).
  repeat (split; [reflexivity|]).
  exists o1, o2. rewrite H6, B6, A6, B5, A5, <- !app_assoc.
  rewrite (@resolved_bare "reader" eq_refl). reflexivity.
Qed.

Lemma before_writer_facts s :
  proc (before_writer url aS aR s) = proc (after_reader url aS aR s)
  /\ results (before_writer url aS aR s) = results (after_reader url aS aR s)
  /\ timer_armed (before_writer url aS aR s) = timer_armed (after_reader url aS aR s)
  /\ next_pid (before_writer url aS aR s) = next_pid (after_reader url aS aR s)
  /\ lifecycle (trace (before_writer url aS aR s)) =
       (lifecycle (trace (after_reader url aS aR s)) ++ [EvSleep 10])%list.
Proof.
  unfold before_writer.
  rewrite !proc_record, !results_record, !timer_record, !next_pid_record,
    !lifecycle_record.
  cbn [lifecycle_event]. rewrite app_nil_r. repeat split.
Qed.

Lemma after_writer_facts s :
  proc (after_writer url aS aR aW s) =
    Dict.set "writer" (S (S (next_pid s)))
      (Dict.set "reader" (S (next_pid s)) (Dict.set "skald" (next_pid s) (proc s)))
  /\ pending (after_writer url aS aR aW s) = pending s
  /\ results (after_writer url aS aR aW s) = results s
  /\ timer_armed (after_writer url aS aR aW s) = timer_armed s
  /\ next_pid (after_writer url aS aR aW s) = S (S (S (next_pid s)))
  /\ exists o1 o2 o3,
       lifecycle (trace (after_writer url aS aR aW s)) =
         (lifecycle (trace s) ++
          [EvPopen (argv_of "skald" url aS) o1 ToStdout (next_pid s);
           EvSleep 10;
           EvPopen (argv_of "reader" url aR) o2 ToStdout (S (next_pid s));
           EvSleep 10;
           EvPopen (argv_of "writer" url aW) o3 ToStdout (S (S (next_pid s)))])%list.
Proof.
  destruct (after_reader_facts s) as (A1 & A2 & A3 & A4 & A5 & o1 & o2 & A6).
  destruct (before_writer_facts s) as (B1 & B3 & B4 & B5 & B6).
  unfold after_writer.
  destruct (role_started_frame "writer" url aW (before_writer url aS aR s))
    as (H1 & H2 & H3 & H4 & H5 & o3 & H6).
  rewrite H1, H2, H3, H4, H5, B1, B3, B4, B5, A1, A3, A4, A5.
  rewrite (pending_before_writer url aS aR s).
  repeat (split; [reflexivity|]).
  exists o1, o2, o3. rewrite H6, B6, A6, B5, A5, <- !app_assoc.
  rewrite (@resolved_bare "writer" eq_refl). reflexivity.
Qed.
End StartFacts.

(** X1.  [startSkaldReaderWriter], when no signal arrives and the three
    executables can be started: it returns, having created three
    processes with consecutive numbers, in the order skald, reader,
    writer, each from ["./<role>", "-u", socketUrl] followed by the
    arguments given for the role, with a pause of 10 ms after each of the
    first two; the three are registered under their role names (an
    entry of the same name is replaced), and [results] is untouched. *)
Theorem startSkaldReaderWriter_registers_three w url aS aR aW s :
  pending s = None ->
  can_launch w (argv_of "skald" url aS) = true ->
  can_launch w (argv_of "reader" url aR) = true ->
  can_launch w (argv_of "writer" url aW) = true ->
  let n := next_pid s in
  exists s' o1 o2 o3,
    Flow.startSkaldReaderWriter w (poll_signals w) url aS aR aW s = (Ret tt, s')
    /\ proc s' = Dict.set "writer" (S (S n))
                   (Dict.set "reader" (S n) (Dict.set "skald" n (proc s)))
    /\ Dict.get "skald" (proc s') = Some n
    /\ Dict.get "reader" (proc s') = Some (S n)
    /\ Dict.get "writer" (proc s') = Some (S (S n))
    /\ next_pid s' = S (S (S n))
    /\ results s' = results s
    /\ lifecycle (trace s') =
         (lifecycle (trace s) ++
          [EvPopen ("./skald" :: "-u" :: url :: aS) o1 ToStdout n;
           EvSleep 10;
           EvPopen ("./reader" :: "-u" :: url :: aR) o2 ToStdout (S n);
           EvSleep 10;
           EvPopen ("./writer" :: "-u" :: url :: aW) o3 ToStdout (S (S n))])%list.
Proof.
  intros Hp H1 H2 H3 n.
  destruct (after_writer_facts url aS aR aW s)
    as (F1 & _ & F3 & _ & F5 & o1 & o2 & o3 & F6).
  exists (after_writer url aS aR aW s), o1, o2, o3.
  rewrite (@startSkaldReaderWriter_exec w (poll_signals w) url aS aR aW s
             (@silent_poll w s Hp)).
  rewrite H1, H2, H3. split; [reflexivity|].
  split; [exact F1|]. rewrite F1.
  split; [|split; [|split; [|split; [exact F5|split; [exact F3|exact F6]]]]].
  - rewrite !dict_get_set_other by discriminate. apply dict_get_set_same.
  - rewrite dict_get_set_other by discriminate. apply dict_get_set_same.
  - apply dict_get_set_same.
Qed.

Lemma startSkaldReaderWriter_registers_three_witness :
  exists s' o1 o2 o3,
    Flow.startSkaldReaderWriter calm_world (poll_signals calm_world)
      "unix://skald.sock" ["-d"; "TestDomain"] [] ["-c"; "1"; "reader"]
      (initial None) = (Ret tt, s')
    /\ proc s' = [("skald", 0); ("reader", 1); ("writer", 2)]
    /\ lifecycle (trace s') =
         [EvPopen ["./skald"; "-u"; "unix://skald.sock"; "-d"; "TestDomain"]
            o1 ToStdout 0;
          EvSleep 10;
          EvPopen ["./reader"; "-u"; "unix://skald.sock"] o2 ToStdout 1;
          EvSleep 10;
          EvPopen ["./writer"; "-u"; "unix://skald.sock"; "-c"; "1"; "reader"]
            o3 ToStdout 2].
Proof.
  destruct (@startSkaldReaderWriter_registers_three calm_world
              "unix://skald.sock" ["-d"; "TestDomain"] [] ["-c"; "1"; "reader"]
              (initial None) eq_refl eq_refl eq_refl eq_refl)
    as (s' & o1 & o2 & o3 & H1 & H2 & _ & _ & _ & _ & _ & H8).
  exists s', o1, o2, o3. split; [exact H1|]. split; [exact H2|exact H8].
Defined.

(* ================================================================== *)
(** ** A scenario, from its first step to its last *)

Section Scenario.
Variable w : World.
Variable cp : M unit.

Lemma runTest_exec description timeout_ms (body : M bool) s :
  silent cp s ->
  Flow.runTest w cp description timeout_ms body s =
    bind body (fun success =>
      Flow.timer_cancel cp ;; Flow.terminateAll w cp ;;
      Flow.results_append cp description success)
      (body_start description timeout_ms s).
Proof.
  intros Hs. unfold Flow.runTest, Flow.proc_clear, Flow.logger_info,
    Flow.timer_start.
  unfold bind at 1. rewrite (act_silent _ Hs).
  unfold bind at 1.
  rewrite act_silent by (eapply silent_same; [exact Hs|reflexivity]).
  unfold bind at 1.
  rewrite act_silent by (eapply silent_same; [exact Hs|reflexivity]).
  reflexivity.
Qed.

Lemma waitReader_exec s :
  silent cp s ->
  Flow.waitReader w cp s =
    match Dict.get "reader" (proc s) with
    | None =>
        (Raise (KeyError "reader"),
         record (EvLog DEBUG "Wait for reader process to finish") s)
    | Some p =>
        match Dict.del "reader" (proc s) with
        | None => (Raise (KeyError "reader"), reader_awaited p s)
        | Some d' => (Ret true, set_proc d' (reader_awaited p s))
        end
    end.
Proof.
  intros Hs. unfold Flow.waitReader, Flow.logger_debug, Flow.proc_lookup,
    Flow.process_wait, Flow.proc_del, reader_awaited.
  unfold bind at 1. rewrite (act_silent _ Hs).
  unfold bind at 1. unfold bind at 1. unfold gets at 1.
  cbn [proc record set_trace].
  destruct (Dict.get "reader" (proc s)) as [p|]; [|reflexivity].
  unfold ret at 1. unfold bind at 1. unfold bind at 1.
  rewrite act_silent by (eapply silent_same; [exact Hs|reflexivity]).
  unfold ret at 1. unfold bind at 1. unfold bind at 1. unfold gets at 1.
  cbn [proc record set_trace].
  destruct (Dict.del "reader" (proc s)) as [d'|]; [|reflexivity].
  rewrite act_silent by (eapply silent_same; [exact Hs|reflexivity]).
  reflexivity.
Qed.

End Scenario.

Lemma body_of_unfold w sc :
  body_of w sc =
    bind (Flow.startSkaldReaderWriter w (poll_signals w) socket_url
            (args_skald sc) (args_reader sc) (args_writer sc))
         (fun _ => Flow.waitReader w (poll_signals w)).
Proof. destruct sc; reflexivity. Qed.

Lemma body_start_facts d t s :
  proc (body_start d t s) = []
  /\ pending (body_start d t s) = pending s
  /\ results (body_start d t s) = results s
  /\ timer_armed (body_start d t s) = true
  /\ next_pid (body_start d t s) = next_pid s
  /\ lifecycle (trace (body_start d t s)) = lifecycle (trace s).
Proof.
  unfold body_start. repeat (split; [reflexivity|]).
  rewrite lifecycle_record. cbn [lifecycle_event]. rewrite app_nil_r.
  unfold set_timer_armed at 1. cbn [trace].
  rewrite !lifecycle_record. cbn [lifecycle_event]. rewrite !app_nil_r.
  reflexivity.
Qed.

(* ------------------------------------------------------------------ *)
(** *** The logs a scenario puts on record *)

Lemma outputPaths_spawn_prepared a a0 rest s :
  outputPaths (spawn_prepared a a0 rest s) =
    match Dict.get (basename (resolved a0)) (outputFiles s) with
    | Some _ => outputPaths s
    | None => Dict.set (basename (resolved a0))
                (basename (resolved a0) ++ ".log") (outputPaths s)
    end.
Proof.
  unfold spawn_prepared.
  destruct (Dict.get _ (outputFiles s)), (contains os_sep a0); reflexivity.
Qed.

Lemma dict_get_existsb V k (d : Dict.t V) :
  existsb (String.eqb k) (Dict.keys d) = match Dict.get k d with
                                         | Some _ => true
                                         | None => false
                                         end.
Proof.
  induction d as [|[k' v'] d IH]; [reflexivity|].
  cbn [Dict.keys map fst existsb Dict.get].
  destruct (String.eqb k k'); [reflexivity|exact IH].
Qed.

Lemma keys_paths_of keys : Dict.keys (paths_of keys) = keys.
Proof.
  unfold Dict.keys, paths_of. rewrite map_map. cbn [fst]. apply map_id.
Qed.

Lemma role_started_logs role url args keys s :
  contains os_sep role = false ->
  logs_recorded keys s ->
  logs_recorded (add_key role keys) (role_started role url args s).
Proof.
  intros Hrole [Hk Hp].
  assert (Hb : basename (resolved role) = role)
    by (rewrite basename_resolved; apply basename_no_sep; exact Hrole).
  unfold logs_recorded, role_started, launched. cbv zeta.
  cbn [outputFiles outputPaths set_proc record set_trace set_next_pid].
  rewrite outputFiles_spawn_prepared, outputPaths_spawn_prepared, Hb.
  cbn [outputFiles outputPaths set_heap].
  unfold add_key. rewrite <- Hk, dict_get_existsb.
  destruct (Dict.get role (outputFiles s)) eqn:E.
  - split; [reflexivity|]. rewrite Hp, Hk. reflexivity.
  - assert (E' : Dict.get role (outputPaths s) = None).
    { apply dict_get_none_keys. rewrite Hp, keys_paths_of, <- Hk.
      apply dict_get_none_keys. exact E. }
    rewrite (dict_set_fresh _ _ _ E), (dict_set_fresh _ _ _ E').
    split.
    + unfold Dict.keys. rewrite map_app. reflexivity.
    + rewrite Hp, Hk. unfold paths_of. rewrite map_app. reflexivity.
Qed.

Lemma logs_recorded_record keys e s :
  logs_recorded keys s -> logs_recorded keys (record e s).
Proof. intros H. exact H. Qed.

Lemma after_writer_logs url aS aR aW keys s :
  logs_recorded keys s ->
  logs_recorded (add_roles keys) (after_writer url aS aR aW s).
Proof.
  intros H. unfold add_roles, after_writer.
  refine (@role_started_logs "writer" url aW _ (before_writer url aS aR s)
            eq_refl _).
  unfold before_writer. do 2 apply logs_recorded_record.
  unfold after_reader.
  refine (@role_started_logs "reader" url aR _ (before_reader url aS s)
            eq_refl _).
  unfold before_reader. do 2 apply logs_recorded_record.
  unfold after_skald.
  refine (@role_started_logs "skald" url aS _ (before_skald s) eq_refl _).
  unfold before_skald. apply logs_recorded_record. exact H.
Qed.

(** X2.  A scenario whose reader cannot be started (no signal arriving):
    the [OSError] of [Popen] leaves [runTest] at once.  The watchdog set
    for the scenario stays armed, [terminateAll] is not run, so skald,
    started just before, is neither signalled nor waited for and stays in
    the registry, and no result is recorded for the scenario. *)
Theorem failed_launch_abandons_scenario w sc s :
  pending s = None ->
  can_launch w (argv_of "skald" socket_url (args_skald sc)) = true ->
  can_launch w (argv_of "reader" socket_url (args_reader sc)) = false ->
  exists s' o1,
    runTest w (description_of sc) 500 (body_of w sc) s
      = (Raise (OSError "Popen"), s')
    /\ proc s' = [("skald", next_pid s)]
    /\ timer_armed s' = true
    /\ results s' = results s
    /\ lifecycle (trace s') =
         (lifecycle (trace s) ++
          [EvPopen (argv_of "skald" socket_url (args_skald sc)) o1 ToStdout
             (next_pid s);
           EvSleep 10])%list.
Proof.
  intros Hp H1 H2.
  destruct (body_start_facts (description_of sc) 500 s)
    as (B1 & B2 & B3 & B4 & B5 & B6).
  pose (s0 := body_start (description_of sc) 500 s).
  assert (Hs0 : silent (poll_signals w) s0)
    by (apply silent_poll; unfold s0; rewrite B2; exact Hp).
  destruct (after_skald_facts socket_url (args_skald sc) s0)
    as (A1 & _ & A3 & A4 & _ & o1 & A6).
  destruct (before_reader_facts socket_url (args_skald sc) s0)
    as (C1 & C3 & C4 & _ & C6).
  destruct (not_launched_frame "reader" ("-u" :: socket_url :: args_reader sc)
              (before_reader socket_url (args_skald sc) s0))
    as (N1 & _ & N3 & N4 & _).
  eexists. exists o1. split.
  - unfold runTest.
    rewrite (@runTest_exec w (poll_signals w) _ _ _ s (@silent_poll w s Hp)).
    rewrite body_of_unfold. unfold bind at 1. unfold bind at 1.
    fold s0.
    rewrite (@startSkaldReaderWriter_exec w (poll_signals w) socket_url
               (args_skald sc) (args_reader sc) (args_writer sc) s0 Hs0).
    rewrite H1, H2. reflexivity.
  - rewrite N1, N3, N4, C1, C3, C4, A1, A3, A4, lifecycle_not_launched, C6, A6.
    unfold s0. rewrite B1, B3, B4, B5, B6, <- app_assoc.
    repeat split.
Qed.

Lemma failed_launch_abandons_scenario_witness :
  exists s' o1,
    runTest no_reader_world (description_of SendOneMsg) 500
      (body_of no_reader_world SendOneMsg) (initial None)
      = (Raise (OSError "Popen"), s')
    /\ proc s' = [("skald", 0)]
    /\ timer_armed s' = true
    /\ results s' = []
    /\ lifecycle (trace s') =
         [EvPopen ["./skald"; "-u"; "unix://skald.sock"; "-d"; "TestDomain"]
            o1 ToStdout 0;
          EvSleep 10].
Proof.
  exact (@failed_launch_abandons_scenario no_reader_world SendOneMsg
           (initial None) eq_refl eq_refl eq_refl).
Defined.

Lemma lifecycle_graceful_requests items :
  lifecycle (graceful_requests items) = map (fun np => EvTerminate (snd np)) items.
Proof.
  induction items as [|[name p] items IH]; [reflexivity|].
  unfold graceful_requests in *. cbn [flat_map app lifecycle filter
    lifecycle_event map snd fst]. unfold lifecycle in IH. rewrite IH.
  reflexivity.
Qed.

Lemma lifecycle_forced_kills w items :
  lifecycle (forced_kills w items) =
    flat_map (fun np => poll_and_kill w (snd np)) items.
Proof.
  induction items as [|[name p] items IH]; [reflexivity|].
  unfold forced_kills in *. cbn [flat_map snd fst].
  rewrite lifecycle_app, IH. unfold poll_and_kill.
  destruct (alive_after_grace w p); reflexivity.
Qed.

Lemma runTest_scenario_exec w sc s :
  pending s = None ->
  let n := next_pid s in
  can_launch w (argv_of "skald" socket_url (args_skald sc)) = true ->
  can_launch w (argv_of "reader" socket_url (args_reader sc)) = true ->
  can_launch w (argv_of "writer" socket_url (args_writer sc)) = true ->
  term_refused w n = false ->
  term_refused w (S (S n)) = false ->
  kill_refused w n = false ->
  kill_refused w (S (S n)) = false ->
  exists s' o1 o2 o3,
    runTest w (description_of sc) 500 (body_of w sc) s = (Ret tt, s')
    /\ lifecycle (trace s') =
         (lifecycle (trace s) ++ scenario_lifecycle w sc n o1 o2 o3)%list
    /\ proc s' = []
    /\ timer_armed s' = false
    /\ pending s' = None
    /\ next_pid s' = S (S (S n))
    /\ results s' = (results s ++ [(description_of sc, true)])%list
    /\ (forall keys, logs_recorded keys s -> logs_recorded (add_roles keys) s').
Proof.
  intros Hp n H1 H2 H3 T1 T2 K1 K2.
  destruct (body_start_facts (description_of sc) 500 s)
    as (B1 & B2 & B3 & B4 & B5 & B6).
  pose (s0 := body_start (description_of sc) 500 s).
  assert (Hs0 : silent (poll_signals w) s0)
    by (apply silent_poll; unfold s0; rewrite B2; exact Hp).
  destruct (after_writer_facts socket_url (args_skald sc) (args_reader sc)
              (args_writer sc) s0)
    as (A1 & A2 & A3 & _ & A5 & o1 & o2 & o3 & A6).
  pose (s1 := after_writer socket_url (args_skald sc) (args_reader sc)
                (args_writer sc) s0).
  assert (Hstart : runTest w (description_of sc) 500 (body_of w sc) s =
            bind (Flow.waitReader w (poll_signals w))
              (fun success =>
                 Flow.timer_cancel (poll_signals w) ;;
                 Flow.terminateAll w (poll_signals w) ;;
                 Flow.results_append (poll_signals w) (description_of sc) success)
              s1).
  { unfold runTest.
    rewrite (@runTest_exec w (poll_signals w) _ _ _ s (@silent_poll w s Hp)).
    rewrite body_of_unfold. unfold bind at 1. unfold bind at 1.
    fold s0.
    rewrite (@startSkaldReaderWriter_exec w (poll_signals w) socket_url
               (args_skald sc) (args_reader sc) (args_writer sc) s0 Hs0).
    rewrite H1, H2, H3. reflexivity. }
  assert (Hlogs : forall keys, logs_recorded keys s ->
                                logs_recorded (add_roles keys) s1).
  { intros keys Hk. unfold s1. apply after_writer_logs. exact Hk. }
  fold s1 in A1, A2, A3, A5, A6.
  unfold s0 in A1, A2, A3, A5, A6. rewrite B1, B5 in A1. rewrite B2, Hp in A2.
  rewrite B3 in A3. rewrite B5 in A5. rewrite B5, B6 in A6.
  fold n in A1, A5, A6.
  clearbody s1. clear s0 Hs0 B1 B2 B3 B4 B5 B6.
  rewrite Hstart. clear Hstart.
  assert (Hs1 : silent (poll_signals w) s1) by (apply silent_poll; exact A2).
  assert (Hget : Dict.get "reader" (proc s1) = Some (S n))
    by (rewrite A1; reflexivity).
  assert (Hdel : Dict.del "reader" (proc s1) = Some [("skald", n); ("writer", S (S n))])
    by (rewrite A1; reflexivity).
  unfold bind at 1.
  rewrite (@waitReader_exec w (poll_signals w) s1 Hs1), Hget, Hdel.
  unfold bind at 1. unfold Flow.timer_cancel.
  rewrite act_silent by (apply silent_poll; exact A2).
  unfold bind at 1.
  match goal with
  | |- context [Flow.terminateAll w (poll_signals w) ?x] =>
      rewrite (@terminateAll_exec w (poll_signals w) x (@silent_poll w x A2))
  end.
  cbn [proc record set_trace set_timer_armed set_proc].
  cbn [terms_accepted kills_accepted forallb snd].
  rewrite T1, T2, K1, K2, !andb_false_r. cbn [negb andb].
  unfold Flow.results_append.
  rewrite act_silent by (apply silent_poll; exact A2).
  eexists. exists o1, o2, o3. split; [reflexivity|].
  cbn [proc timer_armed pending next_pid results record set_results set_proc
       set_trace set_timer_armed trace reader_awaited].
  split; [|split; [reflexivity|split; [reflexivity|split; [exact A2|
    split; [exact A5|split; [rewrite <- A3; reflexivity|exact Hlogs]]]]]].
  rewrite (@term_events_accepted w [("skald", n); ("writer", S (S n))])
    by (cbn [terms_accepted forallb snd]; rewrite T1, T2; reflexivity).
  rewrite (@kill_events_accepted w [("skald", n); ("writer", S (S n))])
    by (cbn [kills_accepted forallb snd]; rewrite K1, K2, !andb_false_r;
        reflexivity).
  rewrite !lifecycle_app.
  rewrite lifecycle_graceful_requests, lifecycle_forced_kills, A6.
  unfold scenario_lifecycle.
  cbn [lifecycle_event map flat_map snd lifecycle filter app].
  rewrite ?app_nil_r, <- ?app_assoc. reflexivity.
Qed.

(** X3.  A scenario that runs to completion (no signal arriving, the
    three executables starting, the system accepting the requests sent to
    skald and to the writer): [runTest] returns, and the life of the
    processes is exactly this.  skald, the reader and the writer are
    started in this order; the reader is waited for and never signalled;
    skald and then the writer are sent SIGTERM, and after 200 ms each is
    polled, and killed if it is still alive.  Whatever was registered
    before the scenario is dropped without being signalled.  At the end
    the registry is empty, the watchdog is disarmed and the scenario is
    recorded as a success. *)
Theorem completed_scenario_lifecycle w sc s :
  pending s = None ->
  let n := next_pid s in
  can_launch w (argv_of "skald" socket_url (args_skald sc)) = true ->
  can_launch w (argv_of "reader" socket_url (args_reader sc)) = true ->
  can_launch w (argv_of "writer" socket_url (args_writer sc)) = true ->
  term_refused w n = false ->
  term_refused w (S (S n)) = false ->
  kill_refused w n = false ->
  kill_refused w (S (S n)) = false ->
  exists s' o1 o2 o3,
    runTest w (description_of sc) 500 (body_of w sc) s = (Ret tt, s')
    /\ lifecycle (trace s') =
         (lifecycle (trace s) ++ scenario_lifecycle w sc n o1 o2 o3)%list
    /\ proc s' = []
    /\ timer_armed s' = false
    /\ pending s' = None
    /\ next_pid s' = S (S (S n))
    /\ results s' = (results s ++ [(description_of sc, true)])%list.
Proof.
  intros Hp n H1 H2 H3 T1 T2 K1 K2.
  destruct (@runTest_scenario_exec w sc s Hp H1 H2 H3 T1 T2 K1 K2)
    as (s' & o1 & o2 & o3 & R1 & R2 & R3 & R4 & R5 & R6 & R7 & _).
  exists s', o1, o2, o3. repeat (split; [assumption|]). assumption.
Qed.

Lemma completed_scenario_lifecycle_witness :
  exists s' o1 o2 o3,
    runTest lingering_world (description_of SendFiveMsgToGroup) 500
      (body_of lingering_world SendFiveMsgToGroup) (initial None) = (Ret tt, s')
    /\ lifecycle (trace s') =
         [EvPopen ["./skald"; "-u"; "unix://skald.sock"; "-d"; "TestDomain"]
            o1 ToStdout 0;
          EvSleep 10;
          EvPopen ["./reader"; "-u"; "unix://skald.sock"; "-m"; "TestGr"]
            o2 ToStdout 1;
          EvSleep 10;
          EvPopen ["./writer"; "-u"; "unix://skald.sock"; "-c"; "5"; "-m"; "TestGr"]
            o3 ToStdout 2;
          EvWait 1;
          EvTerminate 0; EvTerminate 2;
          EvSleep 200;
          EvPoll 0; EvKill 0; EvPoll 2]
    /\ proc s' = []
    /\ results s' = [("Send five messages to a multicast group", true)].
Proof.
  destruct (@completed_scenario_lifecycle lingering_world SendFiveMsgToGroup
              (initial None) eq_refl eq_refl eq_refl eq_refl eq_refl eq_refl
              eq_refl eq_refl)
    as (s' & o1 & o2 & o3 & H1 & H2 & H3 & _ & _ & _ & H7).
  exists s', o1, o2, o3.
  split; [exact H1|]. split; [exact H2|]. split; [exact H3|exact H7].
Defined.

(* ================================================================== *)
(** ** The whole script, when nothing disturbs it *)

Lemma scenario_lifecycle_reaped w sc n o1 o2 o3 argv out err p :
  let l := scenario_lifecycle w sc n o1 o2 o3 in
  In (EvPopen argv out err p) l -> In (EvWait p) l \/ In (EvTerminate p) l.
Proof.
  cbv zeta. unfold scenario_lifecycle, poll_and_kill. intros H.
  apply in_app_or in H. destruct H as [H|H].
  - cbn [In] in H.
    repeat (destruct H as [H|H]; try discriminate H; try contradiction);
      inversion H; subst.
    + right. apply in_or_app. left. cbn [In]. auto 10.
    + left. apply in_or_app. left. cbn [In]. auto 10.
    + right. apply in_or_app. left. cbn [In]. auto 10.
  - exfalso.
    destruct (alive_after_grace w n), (alive_after_grace w (S (S n)));
      cbn [In app] in H;
      repeat (destruct H as [H|H]; try discriminate H; try contradiction).
Qed.

Lemma lifecycle_closes files : lifecycle (map EvClose files) = [].
Proof. induction files as [|f files IH]; [reflexivity|exact IH]. Qed.

Lemma lifecycle_scan_events w f paths : lifecycle (scan_events w f paths) = [].
Proof.
  revert f. induction paths as [|[p filepath] paths IH]; intros f; [reflexivity|].
  cbn [scan_events]. unfold lifecycle. cbn [filter lifecycle_event].
  rewrite filter_app.
  destruct (contains Flow.leak_marker (log_content w filepath));
    cbn [filter lifecycle_event app]; apply IH.
Qed.

Lemma run_scenarios_exec w s :
  pending s = None ->
  (forall argv, can_launch w argv = true) ->
  (forall p, term_refused w p = false) ->
  (forall p, kill_refused w p = false) ->
  let n := next_pid s in
  exists s' l1 l2 l3 l4,
    run_scenarios w s = (Ret tt, s')
    /\ pending s' = None
    /\ proc s' = []
    /\ lifecycle (trace s') =
         (lifecycle (trace s) ++ l1 ++ l2 ++ l3 ++ l4)%list
    /\ scenario_run w SendOneMsg n l1
    /\ scenario_run w SendFiveMsg (3 + n) l2
    /\ scenario_run w SendOneMsgToGroup (6 + n) l3
    /\ scenario_run w SendFiveMsgToGroup (9 + n) l4
    /\ results s' =
         (results s ++ [(description_of SendOneMsg, true);
                        (description_of SendFiveMsg, true);
                        (description_of SendOneMsgToGroup, true);
                        (description_of SendFiveMsgToGroup, true)])%list
    /\ (forall keys, logs_recorded keys s ->
          logs_recorded (add_roles (add_roles (add_roles (add_roles keys)))) s').
Proof.
  intros Hp Hl Ht Hk n.
  destruct (@runTest_scenario_exec w SendOneMsg s Hp
              (Hl _) (Hl _) (Hl _) (Ht _) (Ht _) (Hk _) (Hk _))
    as (s1 & a1 & a2 & a3 & R1 & L1 & _ & _ & P1 & N1 & W1 & G1).
  destruct (@runTest_scenario_exec w SendFiveMsg s1 P1
              (Hl _) (Hl _) (Hl _) (Ht _) (Ht _) (Hk _) (Hk _))
    as (s2 & b1 & b2 & b3 & R2 & L2 & _ & _ & P2 & N2 & W2 & G2).
  destruct (@runTest_scenario_exec w SendOneMsgToGroup s2 P2
              (Hl _) (Hl _) (Hl _) (Ht _) (Ht _) (Hk _) (Hk _))
    as (s3 & c1 & c2 & c3 & R3 & L3 & _ & _ & P3 & N3 & W3 & G3).
  destruct (@runTest_scenario_exec w SendFiveMsgToGroup s3 P3
              (Hl _) (Hl _) (Hl _) (Ht _) (Ht _) (Hk _) (Hk _))
    as (s4 & d1 & d2 & d3 & R4 & L4 & Q4 & _ & P4 & N4 & W4 & G4).
  rewrite N3, N2, N1 in L4. rewrite N2, N1 in L3. rewrite N1 in L2.
  fold n in L1, L2, L3, L4.
  exists s4, (scenario_lifecycle w SendOneMsg n a1 a2 a3),
    (scenario_lifecycle w SendFiveMsg (3 + n) b1 b2 b3),
    (scenario_lifecycle w SendOneMsgToGroup (6 + n) c1 c2 c3),
    (scenario_lifecycle w SendFiveMsgToGroup (9 + n) d1 d2 d3).
  split.
  { rewrite run_scenarios_unfold.
    unfold bind at 1. rewrite R1. unfold bind at 1. rewrite R2.
    unfold bind at 1. rewrite R3. exact R4. }
  split; [exact P4|]. split; [exact Q4|].
  split.
  { rewrite L4, L3, L2, L1, <- !app_assoc. reflexivity. }
  split; [exists a1, a2, a3; reflexivity|].
  split; [exists b1, b2, b3; reflexivity|].
  split; [exists c1, c2, c3; reflexivity|].
  split; [exists d1, d2, d3; reflexivity|].
  split.
  { rewrite W4, W3, W2, W1, <- !app_assoc. reflexivity. }
  intros keys Hkeys. apply G4, G3, G2, G1. exact Hkeys.
Qed.

(** The same run, on the harness of [Flow]. *)
Lemma script_reaps_every_process w s :
  pending s = None ->
  (forall argv, can_launch w argv = true) ->
  (forall p, term_refused w p = false) ->
  (forall p, kill_refused w p = false) ->
  let n := next_pid s in
  let r := script w s in
  (forall e, fst r <> Raise e)
  /\ proc (snd r) = []
  /\ exists l1 l2 l3 l4,
       lifecycle (trace (snd r)) =
         (lifecycle (trace s) ++ l1 ++ l2 ++ l3 ++ l4)%list
       /\ scenario_run w SendOneMsg n l1
       /\ scenario_run w SendFiveMsg (3 + n) l2
       /\ scenario_run w SendOneMsgToGroup (6 + n) l3
       /\ scenario_run w SendFiveMsgToGroup (9 + n) l4
       /\ forall argv out err p,
            In (EvPopen argv out err p) (l1 ++ l2 ++ l3 ++ l4) ->
            In (EvWait p) (l1 ++ l2 ++ l3 ++ l4)
            \/ In (EvTerminate p) (l1 ++ l2 ++ l3 ++ l4).
Proof.
  intros Hp Hl Ht Hk n r.
  destruct (@run_scenarios_exec w s Hp Hl Ht Hk)
    as (s' & l1 & l2 & l3 & l4 & R & P & Q & L & S1 & S2 & S3 & S4 & _).
  fold n in S1, S2, S3, S4.
  assert (Hr : r = Flow.report w (poll_signals w) s').
  { unfold r, script, Flow.script. unfold bind.
    change (Flow.run_scenarios w (poll_signals w) s) with (run_scenarios w s).
    rewrite R. reflexivity. }
  rewrite Hr.
  rewrite (@report_exec w (poll_signals w) s' (@silent_poll w s' P)).
  cbv zeta. cbn [fst snd proc set_next_fd set_trace trace].
  split.
  { intros e. unfold verdict.
    destruct (Nat.ltb 0 (Flow.count_failed (results s'))); [discriminate|].
    destruct (leaking w (outputPaths s')); discriminate. }
  split; [exact Q|].
  exists l1, l2, l3, l4.
  split.
  { rewrite !lifecycle_app, lifecycle_closes, lifecycle_scan_events.
    cbn [lifecycle filter lifecycle_event app]. rewrite app_nil_r. exact L. }
  repeat (split; [assumption|]).
  intros argv out err p H.
  destruct S1 as (a1 & a2 & a3 & E1), S2 as (b1 & b2 & b3 & E2),
    S3 as (c1 & c2 & c3 & E3), S4 as (d1 & d2 & d3 & E4).
  rewrite !in_app_iff in H. rewrite !in_app_iff.
  destruct H as [H|[H|[H|H]]];
    [rewrite E1 in H |rewrite E2 in H |rewrite E3 in H |rewrite E4 in H ];
    apply scenario_lifecycle_reaped in H;
    rewrite <- ?E1, <- ?E2, <- ?E3, <- ?E4 in H; tauto.
Qed.

(** X4.  A run of the whole script that nothing disturbs (no signal,
    every executable starting, the system accepting every request, every
    file opening and every log decoding): the script ends without an
    exception and with an empty registry; the processes it handled are
    those of the four scenarios, three per scenario with consecutive
    numbers, in the order of the scenarios; every process it started was
    either waited for (the readers) or sent SIGTERM (skald and the
    writers); the leak scan and the verdict start, signal and wait for no
    process. *)
Theorem undisturbed_run_reaps_every_process d w s :
  pending s = None ->
  obliging d ->
  (forall argv, can_launch w argv = true) ->
  (forall p, term_refused w p = false) ->
  (forall p, kill_refused w p = false) ->
  let n := next_pid s in
  let r := FlowIO.script d w (poll_signals w) s in
  (forall e, fst r <> Raise e)
  /\ proc (snd r) = []
  /\ exists l1 l2 l3 l4,
       lifecycle (trace (snd r)) =
         (lifecycle (trace s) ++ l1 ++ l2 ++ l3 ++ l4)%list
       /\ scenario_run w SendOneMsg n l1
       /\ scenario_run w SendFiveMsg (3 + n) l2
       /\ scenario_run w SendOneMsgToGroup (6 + n) l3
       /\ scenario_run w SendFiveMsgToGroup (9 + n) l4
       /\ forall argv out err p,
            In (EvPopen argv out err p) (l1 ++ l2 ++ l3 ++ l4) ->
            In (EvWait p) (l1 ++ l2 ++ l3 ++ l4)
            \/ In (EvTerminate p) (l1 ++ l2 ++ l3 ++ l4).
Proof.
  intros Hp Hd Hl Ht Hk n r.
  unfold r. rewrite (@script_same d w (poll_signals w) Hd s).
  exact (@script_reaps_every_process w s Hp Hl Ht Hk).
Qed.

Lemma undisturbed_run_reaps_every_process_witness :
  let r := FlowIO.script plain_disk calm_world (poll_signals calm_world)
             (initial None) in
  proc (snd r) = []
  /\ exists l1 l2 l3 l4,
       lifecycle (trace (snd r)) = (l1 ++ l2 ++ l3 ++ l4)%list
       /\ scenario_run calm_world SendOneMsg 0 l1
       /\ scenario_run calm_world SendFiveMsg 3 l2
       /\ scenario_run calm_world SendOneMsgToGroup 6 l3
       /\ scenario_run calm_world SendFiveMsgToGroup 9 l4.
Proof.
  destruct (@undisturbed_run_reaps_every_process plain_disk calm_world
              (initial None) eq_refl
              (conj (fun _ _ => eq_refl) (fun _ => eq_refl))
              (fun _ => eq_refl) (fun _ => eq_refl) (fun _ => eq_refl))
    as (_ & H2 & l1 & l2 & l3 & l4 & H3 & H4 & H5 & H6 & H7 & _).
  split; [exact H2|].
  exists l1, l2, l3, l4. repeat (split; [assumption|]). assumption.
Defined.

(* ================================================================== *)
(** ** The leak scan *)

Lemma printed_app a b : printed (a ++ b) = (printed a ++ printed b)%list.
Proof. apply flat_map_app. Qed.

Lemma files_read_app a b : files_read (a ++ b) = (files_read a ++ files_read b)%list.
Proof. apply flat_map_app. Qed.

Lemma printed_closes files : printed (map EvClose files) = [].
Proof. induction files as [|f files IH]; [reflexivity|exact IH]. Qed.

Lemma files_read_closes files : files_read (map EvClose files) = [].
Proof. induction files as [|f files IH]; [reflexivity|exact IH]. Qed.

Lemma printed_scan_events w f paths :
  printed (scan_events w f paths) =
    map (fun pp => Flow.leak_message (fst pp) (snd pp)) (leaking_logs w paths).
Proof.
  revert f. induction paths as [|[p filepath] paths IH]; intros f; [reflexivity|].
  cbn [scan_events leaking_logs filter snd].
  change (EvOpen filepath ModeR f :: ?l) with ([EvOpen filepath ModeR f] ++ l)%list.
  rewrite !printed_app.
  change (EvClose f :: EvClose f :: scan_events w (S f) paths)
    with ([EvClose f; EvClose f] ++ scan_events w (S f) paths)%list.
  rewrite printed_app, IH.
  destruct (contains Flow.leak_marker (log_content w filepath)); reflexivity.
Qed.

Lemma files_read_scan_events w f paths :
  files_read (scan_events w f paths) = Dict.values paths.
Proof.
  revert f. induction paths as [|[p filepath] paths IH]; intros f; [reflexivity|].
  cbn [scan_events Dict.values map snd].
  change (EvOpen filepath ModeR f :: ?l) with ([EvOpen filepath ModeR f] ++ l)%list.
  rewrite !files_read_app.
  change (EvClose f :: EvClose f :: scan_events w (S f) paths)
    with ([EvClose f; EvClose f] ++ scan_events w (S f) paths)%list.
  rewrite files_read_app, IH.
  destruct (contains Flow.leak_marker (log_content w filepath)); reflexivity.
Qed.

Lemma check_leaks_exec w cp s :
  silent cp s ->
  Flow.check_leaks w cp s =
    (Ret (leaking w (outputPaths s)),
     set_next_fd (next_fd s + List.length (outputPaths s))
       (set_trace
          (trace s ++ map EvClose (Dict.values (outputFiles s)) ++
           scan_events w (next_fd s) (outputPaths s)) s)).
Proof.
  intros Hs. unfold Flow.check_leaks.
  unfold bind at 1. unfold gets at 1.
  unfold bind at 1. rewrite (close_loop _ Hs).
  unfold bind at 1. unfold gets at 1.
  rewrite scan_loop by (eapply silent_same; [exact Hs|reflexivity]).
  rewrite orb_false_r. norm_state. reflexivity.
Qed.

Lemma bind_assoc A B C (m : M A) (f : A -> M B) (g : B -> M C) s :
  bind (bind m f) g s = bind m (fun a => bind (f a) g) s.
Proof. unfold bind. destruct (m s) as [[a|c|e] s1]; reflexivity. Qed.

Lemma fold_each_app A B (l1 l2 : list A) (f : B -> A -> M B) b s :
  fold_each (l1 ++ l2) f b s =
    bind (fold_each l1 f b) (fun b' => fold_each l2 f b') s.
Proof.
  revert b s. induction l1 as [|x l1 IH]; intros b s; cbn [app fold_each].
  - reflexivity.
  - rewrite bind_assoc. apply bind_congr. intros b' s1 _. apply IH.
Qed.

Lemma bind_same_at A B (m : M A) (f g : A -> M B) s :
  (forall a s1, m s = (Ret a, s1) -> f a s1 = g a s1) ->
  bind m f s = bind m g s.
Proof. apply bind_congr. Qed.

Section ScanIO.
Variable d : Disk.
Variable w : World.
Variable cp : M unit.

(** As long as the logs can be read, the scan goes as on a file system
    that obliges. *)
Lemma scan_loop_io paths acc s :
  Forall (fun pp => readable d (snd pp)) paths ->
  fold_each paths (fun memoryLeak '(p, filepath) =>
    f <- FlowIO.open_file d cp filepath ModeR ;;
    if undecodable d filepath then
      Flow.file_close cp f ;;
      raise UnicodeDecodeError
    else
      let found := Flow.scan_lines (readlines (log_content w filepath)) in
      (if found then Flow.print cp (Flow.leak_message p filepath) else ret tt) ;;
      Flow.file_close cp f ;;
      Flow.file_close cp f ;;
      ret (found || memoryLeak)) acc s
  = fold_each paths (fun memoryLeak '(p, filepath) =>
    f <- Flow.open_file cp filepath ModeR ;;
    let found := Flow.scan_lines (readlines (log_content w filepath)) in
    (if found then Flow.print cp (Flow.leak_message p filepath) else ret tt) ;;
    Flow.file_close cp f ;;
    Flow.file_close cp f ;;
    ret (found || memoryLeak)) acc s.
Proof.
  intros Hr. apply fold_each_same. intros b [p filepath] Hin.
  rewrite Forall_forall in Hr. destruct (Hr _ Hin) as [H1 H2]. cbn [snd] in *.
  apply bind_same; [apply open_file_same; exact H1|].
  intros f. rewrite H2. apply same_refl.
Qed.

Lemma check_leaks_readable s :
  silent cp s ->
  Forall (fun pp => readable d (snd pp)) (outputPaths s) ->
  FlowIO.check_leaks d w cp s = Flow.check_leaks w cp s.
Proof.
  intros Hs Hr. unfold FlowIO.check_leaks, Flow.check_leaks.
  apply bind_same_at. intros files s0 H0.
  unfold gets in H0. inversion H0; subst files s0. clear H0.
  apply bind_same_at. intros u s1 H1.
  rewrite (close_loop _ Hs) in H1. inversion H1; subst s1. clear H1.
  apply bind_same_at. intros paths s2 H2.
  unfold gets in H2. inversion H2; subst paths s2. clear H2.
  cbn [outputPaths set_trace]. apply scan_loop_io. exact Hr.
Qed.

(** The scan of a log that cannot be opened, or does not decode. *)
Lemma scan_unreadable p path after acc s :
  silent cp s ->
  (open_refused d path ModeR = false -> undecodable d path = true) ->
  fold_each ((p, path) :: after) (fun memoryLeak '(p, filepath) =>
    f <- FlowIO.open_file d cp filepath ModeR ;;
    if undecodable d filepath then
      Flow.file_close cp f ;;
      raise UnicodeDecodeError
    else
      let found := Flow.scan_lines (readlines (log_content w filepath)) in
      (if found then Flow.print cp (Flow.leak_message p filepath) else ret tt) ;;
      Flow.file_close cp f ;;
      Flow.file_close cp f ;;
      ret (found || memoryLeak)) acc s
  = if open_refused d path ModeR
    then (Raise (OSError "open"), s)
    else (Raise UnicodeDecodeError,
          record (EvClose (next_fd s))
            (record (EvOpen path ModeR (next_fd s))
               (set_next_fd (S (next_fd s)) s))).
Proof.
  intros Hs Hu. cbn [fold_each].
  unfold bind at 1. unfold bind at 1. unfold FlowIO.open_file.
  unfold bind at 1. rewrite (Hs s eq_refl).
  destruct (open_refused d path ModeR) eqn:Eo; [reflexivity|].
  rewrite (Hu eq_refl).
  unfold bind at 1. unfold gets at 1. unfold bind at 1. unfold modify at 1.
  unfold ret at 1.
  unfold bind at 1. unfold Flow.file_close.
  rewrite act_silent by (eapply silent_same; [exact Hs|reflexivity]).
  reflexivity.
Qed.
End ScanIO.

(** X5.  The leak scan at the end of the script, when no signal arrives
    and every log on record can be opened and decodes: it reads every
    log on record, in the order of [outputPaths], and goes on reading
    after a leak has been found; it prints one message for each log that
    contains "Memory leak detected", naming the process and the file, in
    that order, and nothing else; it returns whether there was such a
    log, and leaves the recorded results alone. *)
Theorem leak_scan_reports_each_leaking_log d w s :
  pending s = None ->
  Forall (fun pp => readable d (snd pp)) (outputPaths s) ->
  exists s',
    FlowIO.check_leaks d w (poll_signals w) s
      = (Ret (leaking w (outputPaths s)), s')
    /\ files_read (trace s') = (files_read (trace s) ++ Dict.values (outputPaths s))%list
    /\ printed (trace s') =
         (printed (trace s) ++
          map (fun pp => Flow.leak_message (fst pp) (snd pp))
              (leaking_logs w (outputPaths s)))%list
    /\ results s' = results s.
Proof.
  intros Hp Hr. eexists. split.
  - rewrite (@check_leaks_readable d w (poll_signals w) s (@silent_poll w s Hp) Hr).
    apply check_leaks_exec. apply silent_poll. exact Hp.
  - cbn [trace results set_next_fd set_trace].
    rewrite !files_read_app, !printed_app, files_read_closes, printed_closes,
      files_read_scan_events, printed_scan_events.
    repeat split.
Qed.

Lemma leak_scan_reports_each_leaking_log_witness :
  exists s',
    FlowIO.check_leaks plain_disk leaky_world (poll_signals leaky_world)
      two_logs_state = (Ret true, s')
    /\ files_read (trace s') = ["skald.log"; "reader.log"]
    /\ printed (trace s') =
         ["Memory leak detected for process 'reader'; please refer to file 'reader.log'"].
Proof.
  destruct (@leak_scan_reports_each_leaking_log plain_disk leaky_world
              two_logs_state eq_refl
              ltac:(repeat constructor))
    as (s' & H1 & H2 & H3 & _).
  exists s'. split; [exact H1|]. split; [exact H2|exact H3].
Defined.



(* ================================================================== *)
(** ** [spawn] at its edges *)

(** X6.  [spawn] of an empty list: [arguments[0]] raises [IndexError]
    before anything else happens.  Nothing is opened, recorded or
    started, and as no step has been taken no signal is served either:
    the state is left exactly as it was, whatever it was. *)
Theorem spawn_empty_list_raises w a s :
  nth a (heap s) [] = [] ->
  spawn w a s = (Raise IndexError, s).
Proof.
  intros H. unfold spawn, Flow.spawn, Flow.list_get0, Flow.list_read.
  unfold bind, gets, ret. rewrite H. reflexivity.
Qed.

Lemma spawn_empty_list_raises_witness :
  spawn calm_world 0 empty_list_state = (Raise IndexError, empty_list_state).
Proof. exact (@spawn_empty_list_raises calm_world 0 empty_list_state eq_refl). Defined.

(** X7.  [spawn] when the executable cannot be started (no signal
    arriving): the [OSError] of [Popen] reaches the caller after the log
    has been dealt with.  If there was no sink for the basename, the file
    [<basename>.log] has been opened for writing and stays on record in
    [outputFiles] and [outputPaths]; a sink already on record is left as
    it is.  No process number is used, and the registry and the results
    are untouched. *)
Theorem spawn_failure_keeps_the_sink w s a a0 rest :
  pending s = None ->
  nth a (heap s) [] = a0 :: rest ->
  can_launch w (resolved a0 :: rest) = false ->
  exists s',
    spawn w a s = (Raise (OSError "Popen"), s')
    /\ Dict.get (basename a0) (outputFiles s') =
         Some (sink_for (basename a0) s)
    /\ (Dict.get (basename a0) (outputFiles s) = None ->
          Dict.get (basename a0) (outputPaths s') = Some (basename a0 ++ ".log")
          /\ trace s' = (trace s ++ [EvOpen (basename a0 ++ ".log") ModeW (next_fd s)])%list)
    /\ (Dict.get (basename a0) (outputFiles s) <> None ->
          outputFiles s' = outputFiles s /\ trace s' = trace s)
    /\ next_pid s' = next_pid s
    /\ proc s' = proc s
    /\ results s' = results s.
Proof.
  intros Hp Hn Hl. unfold spawn.
  rewrite (@spawn_exec w (poll_signals w) a a0 rest s (@silent_poll w s Hp) Hn).
  cbv zeta. rewrite Hl. eexists. split; [reflexivity|].
  destruct (spawn_prepared_frame a a0 rest s) as (F1 & _ & F3 & _ & F5).
  rewrite outputFiles_spawn_prepared, trace_spawn_prepared, basename_resolved.
  unfold sink_for.
  split; [|split; [|split; [|split; [exact F5|split; [exact F1|exact F3]]]]].
  - destruct (Dict.get (basename a0) (outputFiles s)) eqn:E; [exact E|].
    apply dict_get_set_same.
  - intros E. rewrite E. split; [|reflexivity].
    unfold spawn_prepared. rewrite basename_resolved, E.
    cbn [outputPaths set_outputFiles record set_trace set_next_fd set_outputPaths].
    apply dict_get_set_same.
  - intros E. destruct (Dict.get (basename a0) (outputFiles s)); [|contradiction].
    rewrite app_nil_r. split; reflexivity.
Qed.

Lemma spawn_failure_keeps_the_sink_witness :
  exists s',
    spawn barren_world 0 one_list_state = (Raise (OSError "Popen"), s')
    /\ Dict.get "skald" (outputFiles s') = Some 0
    /\ Dict.get "skald" (outputPaths s') = Some "skald.log"
    /\ trace s' = [EvOpen "skald.log" ModeW 0]
    /\ next_pid s' = 0.
Proof.
  destruct (@spawn_failure_keeps_the_sink barren_world one_list_state 0
              "skald" ["-u"; "url"] eq_refl eq_refl eq_refl)
    as (s' & H1 & H2 & H3 & _ & H5 & _).
  destruct (H3 eq_refl) as [H3a H3b].
  exists s'. split; [exact H1|]. split; [exact H2|]. split; [exact H3a|].
  split; [exact H3b|exact H5].
Defined.

(* ================================================================== *)
(** ** [spawn] when the log cannot be created *)

Lemma spawn_open_refused_exec d w cp a a0 rest s :
  silent cp s ->
  nth a (heap s) [] = a0 :: rest ->
  Dict.get (basename (resolved a0)) (outputFiles s) = None ->
  open_refused d (basename (resolved a0) ++ ".log") ModeW = true ->
  FlowIO.spawn d w cp a s =
    (Raise (OSError "open"),
     set_outputPaths
       (Dict.set (basename (resolved a0)) (basename (resolved a0) ++ ".log")
          (outputPaths s))
       (if contains os_sep a0 then s
        else set_heap (Flow.replace_nth a (resolved a0 :: rest) (heap s)) s)).
Proof.
  intros Hs Hn Hget Hopen.
  pose proof (nth_nonnil_lt _ _ Hn) as Hlt.
  unfold FlowIO.spawn, Flow.list_get0, Flow.list_set0, Flow.list_read,
    FlowIO.open_file, Flow.act, resolved in *.
  unfold bind, gets, modify, ret, raise. cbn [heap]. rewrite Hn.
  destruct (contains os_sep a0) eqn:Esep; cbn [negb];
    repeat first
      [ rewrite Hn
      | rewrite Hget
      | rewrite Hopen
      | rewrite Hs by reflexivity
      | rewrite dict_get_set_same
      | rewrite (nth_replace_nth _ _ _ Hlt)
      | progress cbn -[path_join basename contains String.append] ];
    reflexivity.
Qed.

(** X13.  [spawn] when the log of a new basename cannot be created (no
    signal arriving): the [OSError] of [open] reaches the caller.  By
    then the path [<basename>.log] is on record in [outputPaths], while
    [outputFiles] has no sink for the basename; the first element of the
    list passed in has been resolved; nothing has been opened or
    started, and the registry is untouched.  When a sink is already on
    record for the basename, [open] is not called and the file system
    has no say. *)
Theorem spawn_open_failure d w s a a0 rest :
  pending s = None ->
  nth a (heap s) [] = a0 :: rest ->
  (Dict.get (basename a0) (outputFiles s) = None ->
   open_refused d (basename a0 ++ ".log") ModeW = true ->
   exists s',
     FlowIO.spawn d w (poll_signals w) a s = (Raise (OSError "open"), s')
     /\ Dict.get (basename a0) (outputPaths s') = Some (basename a0 ++ ".log")
     /\ Dict.get (basename a0) (outputFiles s') = None
     /\ nth a (heap s') [] = resolved a0 :: rest
     /\ trace s' = trace s
     /\ next_pid s' = next_pid s
     /\ proc s' = proc s)
  /\ (Dict.get (basename a0) (outputFiles s) <> None ->
      FlowIO.spawn d w (poll_signals w) a s = spawn w a s).
Proof.
  intros Hp Hn.
  pose proof (@silent_poll w s Hp) as Hs.
  pose proof (nth_nonnil_lt _ _ Hn) as Hlt.
  split.
  - intros Hget Hopen. rewrite <- (basename_resolved a0) in Hget, Hopen.
    rewrite (@spawn_open_refused_exec d w (poll_signals w) a a0 rest s
               Hs Hn Hget Hopen).
    eexists. split; [reflexivity|].
    rewrite <- (basename_resolved a0).
    cbn [outputPaths outputFiles set_outputPaths].
    split; [apply dict_get_set_same|].
    destruct (contains os_sep a0) eqn:Esep;
      cbn [outputFiles heap trace next_pid proc set_heap].
    + split; [exact Hget|]. split; [|repeat split].
      unfold resolved. rewrite Esep. exact Hn.
    + split; [exact Hget|]. split; [|repeat split].
      apply nth_replace_nth. exact Hlt.
  - intros Hget.
    unfold spawn, FlowIO.spawn, Flow.spawn, Flow.list_get0, Flow.list_set0,
      Flow.list_read, FlowIO.open_file, Flow.open_file, Flow.act.
    rewrite <- (basename_resolved a0) in Hget. unfold resolved in Hget.
    unfold bind, gets, modify, ret, raise. cbn [heap]. rewrite Hn.
    destruct (contains os_sep a0) eqn:Esep; cbn [negb];
      repeat first
        [ rewrite Hn
        | rewrite (Hs _ eq_refl)
        | rewrite (nth_replace_nth _ _ _ Hlt)
        | progress cbn -[path_join basename contains String.append] ];
      match goal with
      | |- context [Dict.get ?b (outputFiles s)] =>
          destruct (Dict.get b (outputFiles s)) as [f|] eqn:Eget
      end; try contradiction; reflexivity.
Qed.

Lemma spawn_open_failure_witness :
  exists s',
    FlowIO.spawn read_only_disk calm_world (poll_signals calm_world) 0
      one_list_state = (Raise (OSError "open"), s')
    /\ Dict.get "skald" (outputPaths s') = Some "skald.log"
    /\ Dict.get "skald" (outputFiles s') = None
    /\ nth 0 (heap s') [] = ["./skald"; "-u"; "url"]
    /\ trace s' = [].
Proof.
  destruct (proj1 (@spawn_open_failure read_only_disk calm_world one_list_state
                     0 "skald" ["-u"; "url"] eq_refl eq_refl)
              eq_refl eq_refl)
    as (s' & H1 & H2 & H3 & H4 & H5 & _).
  exists s'. repeat (split; [assumption|]). assumption.
Defined.

(* ================================================================== *)
(** ** The lookups of the script never fail *)

Lemma about_proc_steady J : about_proc J -> steady J.
Proof. intros H s p. apply H. reflexivity. Qed.

Lemma steady_any : steady any.
Proof. intros s p H. exact H. Qed.

Lemma about_proc_any : about_proc any.
Proof. intros s s' _ H. exact H. Qed.

Lemma about_proc_reader : about_proc reader_registered.
Proof. unfold reader_registered. intros s s' E H. rewrite E. exact H. Qed.

Lemma dict_del_some V k (d : Dict.t V) :
  Dict.get k d <> None -> Dict.del k d <> None.
Proof.
  induction d as [|[k' v'] d IH]; simpl; auto.
  destruct (String.eqb k k'); [discriminate|].
  intros H. specialize (IH H). destruct (Dict.del k d); [discriminate|contradiction].
Qed.

Section Expected.
Variable d : Disk.
Variable w : World.

Local Abbreviation cp := (poll_signals w).

(** A checkpoint either goes on or ends the run as the handler ends. *)
Lemma poll_expected P : steady P -> keeps P expected_end cp.
Proof.
  intros HP s Hs.
  destruct (poll_cases w s) as [(p & Hpoll & _)|(src & _ & Hpoll)]; rewrite Hpoll.
  - apply HP. exact Hs.
  - destruct src; cbn [on_signal]; rewrite ?timeout_exec, sigtermHandler_exec;
      unfold handler_outcome;
      match goal with
      | |- context [terms_accepted w ?d] =>
          destruct (terms_accepted w d), (kills_accepted w d)
      end; cbn; auto.
Qed.

Lemma act_expected P (Q : state -> Prop) f :
  steady P -> (forall s, P s -> Q (f s)) ->
  hoare P (Flow.act cp f) (fun _ => Q) expected_end.
Proof. intros HP Hf. apply hoare_act; [apply poll_expected; exact HP|exact Hf]. Qed.

Lemma act_any f : keeps any expected_end (Flow.act cp f).
Proof. apply act_expected; [exact steady_any|]. intros s _. exact I. Qed.

Lemma poll_any : keeps any expected_end cp.
Proof. apply poll_expected. exact steady_any. Qed.

Ltac expected_steps :=
  repeat first
    [ apply keeps_ret | apply keeps_gets
    | apply poll_any
    | apply act_any
    | apply hoare_modify; intros; exact I
    | apply hoare_raise; intros; cbn; solve [auto 6]
    | apply hoare_exit; intros; reflexivity
    | apply keeps_for_each; intros [? ?]
    | apply keeps_fold_each; intros ? [? ?]
    | (apply keeps_bind; [|intros ?])
    | match goal with
      | |- keeps _ _ (match ?x with _ => _ end) => destruct x
      | |- keeps _ _ (if ?x then _ else _) => destruct x
      end ].

Lemma terminateAll_expected : keeps any expected_end (terminateAll w).
Proof.
  unfold terminateAll, Flow.terminateAll, Flow.logger_debug,
    Flow.process_terminate, Flow.process_kill, Flow.process_poll,
    Flow.time_sleep, Flow.proc_clear.
  expected_steps.
Qed.

Lemma report_expected : keeps any expected_end (FlowIO.report d w cp).
Proof.
  unfold FlowIO.report, FlowIO.check_leaks, Flow.print_results,
    Flow.file_close, FlowIO.open_file, Flow.print. cbv zeta.
  expected_steps.
Qed.

(** *** [spawn] *)

Lemma list_get0_expected a J :
  hoare (fun s => J s /\ nonempty_at a s) (Flow.list_get0 a)
        (fun a0 s => J s /\ holds_list a a0 s) expected_end.
Proof.
  intros s [HJ Hne].
  unfold Flow.list_get0, Flow.list_read, bind, gets, ret, raise. cbn beta iota.
  unfold nonempty_at in Hne.
  destruct (nth a (heap s) []) as [|x rest] eqn:E; [contradiction|].
  split; [exact HJ|]. exists rest. exact E.
Qed.

Lemma holds_list_nonempty a a0 s : holds_list a a0 s -> nonempty_at a s.
Proof. intros [rest H]. unfold nonempty_at. rewrite H. discriminate. Qed.

Lemma list_set0_expected a x J :
  about_proc J ->
  hoare (fun s => J s /\ nonempty_at a s) (Flow.list_set0 cp a x)
        (fun _ s => J s /\ nonempty_at a s) expected_end.
Proof.
  intros HJ s [Hj Hne]. unfold Flow.list_set0.
  unfold bind at 1. unfold Flow.list_read, bind at 1, gets at 1, ret at 1.
  cbn beta iota. pose proof Hne as Hne'. unfold nonempty_at in Hne'.
  destruct (nth a (heap s) []) as [|y rest] eqn:E; [contradiction|].
  refine (@act_expected (fun s => J s /\ nonempty_at a s) _ _ _ _ s (conj Hj Hne)).
  - intros s0 p [H1 H2]. split; [apply (about_proc_steady HJ); exact H1|exact H2].
  - intros s0 [H1 H2]. split; [eapply HJ; [|exact H1]; reflexivity|].
    unfold nonempty_at in *. cbn [heap set_heap].
    destruct (nth a (heap s0) []) as [|z rest0] eqn:E0; [contradiction|].
    rewrite nth_replace_nth by (eapply nth_nonnil_lt; exact E0).
    discriminate.
Qed.

Lemma open_file_expected path m P :
  steady P ->
  (forall s e f, P s -> P (record e (set_next_fd f s))) ->
  hoare P (FlowIO.open_file d cp path m) (fun _ => P) expected_end.
Proof.
  intros HP Hf. unfold FlowIO.open_file.
  eapply hoare_bind; [apply poll_expected; exact HP|].
  intros ?. cbv beta. destruct (open_refused d path m).
  - apply hoare_raise. intros; reflexivity.
  - intros s Hs. unfold bind, gets, modify, ret. cbn beta iota.
    apply Hf. exact Hs.
Qed.

Lemma popen_expected argv out P (Q : state -> Prop) :
  steady P ->
  (forall s e p, P s -> Q (record e (set_next_pid p s))) ->
  hoare P (Flow.popen w cp argv out) (fun _ => Q) expected_end.
Proof.
  intros HP Hf. unfold Flow.popen.
  eapply hoare_bind; [apply poll_expected; exact HP|].
  intros ?. cbv beta. destruct (can_launch w argv).
  - intros s Hs. unfold bind, gets, modify, ret. cbn beta iota.
    apply Hf. exact Hs.
  - apply hoare_raise. intros; reflexivity.
Qed.

Section Spawn.
Variable a : loc.
Variable J : state -> Prop.
Hypothesis HJ : about_proc J.

Lemma listed_steady a0 : steady (fun s => J s /\ holds_list a a0 s).
Proof.
  intros s p [H1 H2]. split; [apply (about_proc_steady HJ); exact H1|exact H2].
Qed.

Lemma open_sink_expected a0 :
  hoare (fun s => J s /\ holds_list a a0 s)
    (Flow.act cp
       (fun s => set_outputPaths
                   (Dict.set (basename a0) (basename a0 ++ ".log") (outputPaths s)) s) ;;
     paths <- gets outputPaths ;;
     match Dict.get (basename a0) paths with
     | None => raise (KeyError (basename a0))
     | Some path =>
         f <- FlowIO.open_file d cp path ModeW ;;
         Flow.act cp
           (fun s => set_outputFiles (Dict.set (basename a0) f (outputFiles s)) s)
     end)
    (fun _ s => (J s /\ holds_list a a0 s)
                /\ Dict.get (basename a0) (outputFiles s) <> None)
    expected_end.
Proof.
  eapply hoare_bind
    with (Q := fun _ s => (J s /\ holds_list a a0 s)
                          /\ Dict.get (basename a0) (outputPaths s) <> None).
  { apply act_expected; [apply listed_steady|].
    intros s [H1 H2]. split; [split|].
    - eapply HJ; [|exact H1]. reflexivity.
    - exact H2.
    - cbn [outputPaths set_outputPaths]. rewrite dict_get_set_same. discriminate. }
  intros ? s [Hl Hpath]. unfold bind at 1. unfold gets at 1.
  destruct (Dict.get (basename a0) (outputPaths s)) as [path|]; [|contradiction].
  apply hoare_bind_at with (Q := fun _ s => J s /\ holds_list a a0 s).
  { refine (@open_file_expected path ModeW _ (@listed_steady a0) _ s Hl).
    intros s0 e f [H1 H2]. split; [eapply HJ; [|exact H1]; reflexivity|exact H2]. }
  intros f. apply act_expected; [apply listed_steady|].
  intros s0 [H1 H2]. split; [split|].
  - eapply HJ; [|exact H1]. reflexivity.
  - exact H2.
  - cbn [outputFiles set_outputFiles]. rewrite dict_get_set_same. discriminate.
Qed.

(** Given a list with a first element, no lookup of [spawn] fails. *)
Lemma spawn_expected :
  hoare (fun s => J s /\ nonempty_at a s) (FlowIO.spawn d w cp a) (fun _ => J)
        expected_end.
Proof.
  unfold FlowIO.spawn.
  eapply hoare_bind; [apply list_get0_expected|].
  intros a1. eapply hoare_bind with (Q := fun _ s => J s /\ nonempty_at a s).
  { destruct (negb (contains os_sep a1)).
    - eapply hoare_weaken; [apply list_set0_expected; exact HJ| |auto].
      intros s [H1 H2]. split; [exact H1|]. eapply holds_list_nonempty. exact H2.
    - intros s [H1 H2]. split; [exact H1|]. eapply holds_list_nonempty. exact H2. }
  intros u. eapply hoare_bind; [apply list_get0_expected|].
  intros a0. cbv beta zeta.
  intros s Hl. unfold bind at 1. unfold gets at 1. cbv beta iota.
  apply hoare_bind_at
    with (Q := fun _ s => (J s /\ holds_list a a0 s)
                          /\ Dict.get (basename a0) (outputFiles s) <> None).
  { destruct (Dict.get (basename a0) (outputFiles s)) eqn:E.
    - split; [exact Hl|]. rewrite E. discriminate.
    - exact (@open_sink_expected a0 s Hl). }
  clear s Hl. intros ? s [[Hj [rest Hl]] Hget].
  unfold bind at 1. unfold Flow.list_read, bind at 1, gets at 1, ret at 1.
  cbn beta iota. rewrite Hl.
  unfold bind at 1. unfold gets at 1.
  destruct (Dict.get (basename a0) (outputFiles s)) as [out|]; [|contradiction].
  refine (@popen_expected (a0 :: rest) out J J (about_proc_steady HJ) _ s Hj).
  intros s0 e p H. eapply HJ; [|exact H]. reflexivity.
Qed.

End Spawn.

Section Roles.
Variable J : state -> Prop.
Hypothesis HJ : about_proc J.

(** A list display has a first element when it is written with one. *)
Lemma new_list_expected x l :
  hoare J (Flow.new_list cp (x :: l))
        (fun b s => J s /\ nonempty_at b s) expected_end.
Proof.
  intros s Hs. unfold Flow.new_list.
  unfold bind at 1. unfold gets at 1.
  apply hoare_bind_at
    with (Q := fun _ s' => J s' /\ nonempty_at (List.length (heap s)) s').
  - refine (@act_expected (fun s' => J s' /\ heap s' = heap s) _ _ _ _ s
              (conj Hs eq_refl)).
    + intros s0 p [H1 H2]. split; [apply (about_proc_steady HJ); exact H1|exact H2].
    + intros s0 [H1 H2]. split; [eapply HJ; [|exact H1]; reflexivity|].
      unfold nonempty_at. cbn [heap set_heap]. rewrite H2.
      rewrite app_nth2, Nat.sub_diag by lia. discriminate.
  - intros ? s' H. exact H.
Qed.

(** Building the list, starting the process and registering it. *)
Lemma start_role_expected role x l (J' : state -> Prop) B (k : M B) Q :
  (forall s p, J s -> J' (set_proc (Dict.set role p (proc s)) s)) ->
  hoare J' k Q expected_end ->
  hoare J
    (b <- Flow.new_list cp (x :: l) ;;
     p <- FlowIO.spawn d w cp b ;;
     Flow.proc_set cp role p ;;
     k)
    Q expected_end.
Proof.
  intros Hset Hk.
  eapply hoare_bind; [apply new_list_expected|].
  intros b. eapply hoare_bind; [apply (@spawn_expected b J HJ)|].
  intros p. eapply hoare_bind; [|intros ?; exact Hk].
  unfold Flow.proc_set. apply act_expected; [exact (about_proc_steady HJ)|].
  intros s. apply Hset.
Qed.

Lemma record_expected e B (k : M B) Q :
  hoare J k Q expected_end ->
  hoare J (Flow.act cp (record e) ;; k) Q expected_end.
Proof.
  intros Hk. eapply hoare_bind; [|intros ?; exact Hk].
  apply act_expected; [exact (about_proc_steady HJ)|].
  intros s H. eapply HJ; [|exact H]. reflexivity.
Qed.
End Roles.

(** *** The scenarios *)

Lemma startSkaldReaderWriter_expected url aS aR aW :
  hoare any (FlowIO.startSkaldReaderWriter d w cp url aS aR aW)
        (fun _ => reader_registered) expected_end.
Proof.
  unfold FlowIO.startSkaldReaderWriter, Flow.logger_debug, Flow.time_sleep.
  apply (record_expected about_proc_any).
  cbn [app].
  apply (@start_role_expected any about_proc_any "skald" _ _ any);
    [intros; exact I|].
  apply (record_expected about_proc_any).
  apply (record_expected about_proc_any).
  apply (@start_role_expected any about_proc_any "reader" _ _ reader_registered).
  { intros s p _. unfold reader_registered. cbn [proc set_proc].
    rewrite dict_get_set_same. discriminate. }
  apply (record_expected about_proc_reader).
  apply (record_expected about_proc_reader).
  eapply hoare_bind; [apply (new_list_expected about_proc_reader)|].
  intros b. eapply hoare_bind; [apply (@spawn_expected b _ about_proc_reader)|].
  intros p. unfold Flow.proc_set.
  apply act_expected; [exact (about_proc_steady about_proc_reader)|].
  intros s H. unfold reader_registered in *. cbn [proc set_proc].
  rewrite dict_get_set_other by discriminate. exact H.
Qed.

Lemma waitReader_expected :
  hoare reader_registered (Flow.waitReader w cp) (fun _ => any) expected_end.
Proof.
  unfold Flow.waitReader, Flow.logger_debug.
  apply (record_expected about_proc_reader).
  intros s Hs. unfold bind at 1.
  unfold Flow.proc_lookup, bind at 1, gets at 1.
  pose proof Hs as Hget. unfold reader_registered in Hget.
  destruct (Dict.get "reader" (proc s)) as [p|] eqn:E; [|contradiction].
  unfold ret at 1.
  apply hoare_bind_at with (Q := fun _ => reader_registered).
  { unfold Flow.process_wait.
    apply hoare_bind_at with (Q := fun _ => reader_registered).
    - refine (@act_expected reader_registered _ _
                (about_proc_steady about_proc_reader) _ s Hs).
      intros s0 H. exact H.
    - intros ? s0 H. exact H. }
  intros ?. eapply hoare_bind with (Q := fun _ => any); [|intros ? s0 H; exact I].
  unfold Flow.proc_del. intros s0 H0. unfold bind at 1. unfold gets at 1.
  pose proof (dict_del_some _ _ H0) as Hdel.
  destruct (Dict.del "reader" (proc s0)) as [d'|]; [|contradiction].
  exact (@act_any _ s0 I).
Qed.

Lemma start_then_wait_expected url aS aR aW :
  keeps any expected_end
    (FlowIO.startSkaldReaderWriter d w cp url aS aR aW ;; Flow.waitReader w cp).
Proof.
  eapply hoare_bind; [apply startSkaldReaderWriter_expected|].
  intros ?. apply waitReader_expected.
Qed.

Lemma runTest_expected description timeout_ms (body : M bool) :
  keeps any expected_end body ->
  keeps any expected_end (Flow.runTest w cp description timeout_ms body).
Proof.
  intros Hbody.
  unfold Flow.runTest, Flow.proc_clear, Flow.logger_info,
    Flow.timer_start, Flow.timer_cancel, Flow.results_append.
  apply keeps_bind; [apply act_any|]. intros ?.
  apply keeps_bind; [apply act_any|]. intros ?.
  apply keeps_bind; [apply act_any|]. intros ?.
  apply keeps_bind; [exact Hbody|]. intros ?.
  apply keeps_bind; [apply act_any|]. intros ?.
  apply keeps_bind; [apply terminateAll_expected|]. intros ?.
  apply act_any.
Qed.

Lemma script_expected : keeps any expected_end (FlowIO.script d w cp).
Proof.
  unfold FlowIO.script, FlowIO.run_scenarios, FlowIO.testSendOneMsg,
    FlowIO.testSendFiveMsg, FlowIO.testSendOneMsgToGroup,
    FlowIO.testSendFiveMsgToGroup.
  apply keeps_bind; [|intros ?; apply report_expected].
  repeat (apply keeps_bind;
          [apply runTest_expected; apply start_then_wait_expected|intros ?]).
  apply runTest_expected. apply start_then_wait_expected.
Qed.
End Expected.

(** X8.  No lookup of the script ever fails.  Whatever the environment
    and the file system answer, whenever a signal arrives and from
    whatever state it starts, the script raises neither [IndexError] nor
    [KeyError]: [proc['reader']] and [del(proc['reader'])] come after
    the reader has been registered, [arguments[0]] is read from a list
    built with a first element, and [outputPaths[procname]] and
    [outputFiles[procname]] are read after they have been set. *)
Theorem script_lookups_never_fail d w s :
  forall e,
    fst (FlowIO.script d w (poll_signals w) s) = Raise e ->
    e <> IndexError /\ forall k, e <> KeyError k.
Proof.
  intros e He.
  pose proof (@script_expected d w s I) as H.
  destruct (FlowIO.script d w (poll_signals w) s) as [[u|c|e'] s'];
    cbn [fst] in He; try discriminate.
  inversion He; subst e'. cbn in H.
  split; [|intros k]; intros ->; discriminate H.
Qed.

Lemma script_lookups_never_fail_witness :
  fst (FlowIO.script read_only_disk calm_world (poll_signals calm_world)
         (initial None)) = Raise (OSError "open")
  /\ OSError "open" <> IndexError
  /\ forall k, OSError "open" <> KeyError k.
Proof.
  split; [vm_compute; reflexivity|].
  apply (@script_lookups_never_fail read_only_disk calm_world (initial None)).
  vm_compute; reflexivity.
Defined.

(* ================================================================== *)
(** ** The exit status, whenever a signal arrives *)

Lemma print_results_returns w leak s u s' :
  Flow.print_results (poll_signals w) leak s = (Ret u, s') ->
  Flow.count_failed (results s) = 0
  /\ leak = false
  /\ results s' = results s
  /\ trace s' = (trace s ++ [EvPrint (Flow.summary_pass (List.length (results s)))])%list.
Proof.
  unfold Flow.print_results. unfold bind at 1. unfold gets at 1.
  destruct (Nat.ltb 0 (Flow.count_failed (results s))) eqn:E.
  - intros H. ret_inv H. discriminate H.
  - destruct leak.
    + intros H. ret_inv H. discriminate H.
    + intros H. unfold Flow.print in H. apply act_returns in H.
      destruct H as [p ->]. apply Nat.ltb_ge in E.
      repeat split; try reflexivity. lia.
Qed.

(** X9.  From its first scenario on (its command line parsed, its
    handlers installed) and as long as writing to standard output
    succeeds: whatever the environment and the file system answer and
    whenever a signal arrives, the exit status of the script is 0 or 1,
    and it is 0 only when the script ran to its end: the last thing it
    did was then to print the PASS line, whose count is the number of
    recorded results, none of them a failure. *)
Theorem status_zero_only_after_pass_line d w s :
  let r := FlowIO.script d w (poll_signals w) s in
  (exit_status (fst r) = 0%Z \/ exit_status (fst r) = 1%Z)
  /\ (exit_status (fst r) = 0%Z ->
        fst r = Ret tt
        /\ Flow.count_failed (results (snd r)) = 0
        /\ exists before,
             trace (snd r) =
               (before ++
                [EvPrint (Flow.summary_pass (List.length (results (snd r))))])%list).
Proof.
  cbv zeta. pose proof (@script_expected d w s I) as H.
  destruct (FlowIO.script d w (poll_signals w) s) as [[[]|c|e] s'] eqn:E;
    cbn [fst snd exit_status].
  - split; [left; reflexivity|]. intros _. split; [reflexivity|].
    unfold FlowIO.script in E. ret_inv E.
    unfold FlowIO.report in E. ret_inv E.
    apply print_results_returns in E. destruct E as (E1 & _ & E3 & E4).
    rewrite E3. split; [exact E1|]. eexists. exact E4.
  - cbn in H. subst c. split; [right; reflexivity|]. discriminate.
  - split; [right; reflexivity|]. discriminate.
Qed.

(* ================================================================== *)
(** ** What the log shows without [-v] *)

Lemma log_lines_app v a b : log_lines v (a ++ b) = (log_lines v a ++ log_lines v b)%list.
Proof. apply flat_map_app. Qed.

Lemma log_lines_term_events w items : log_lines false (term_events w items) = [].
Proof.
  induction items as [|[name p] items IH]; [reflexivity|].
  cbn [term_events]. destruct (term_refused w p); [reflexivity|exact IH].
Qed.

Lemma log_lines_kill_events w items : log_lines false (kill_events w items) = [].
Proof.
  induction items as [|[name p] items IH]; [reflexivity|].
  cbn [kill_events].
  destruct (alive_after_grace w p); [|exact IH].
  destruct (kill_refused w p); [reflexivity|exact IH].
Qed.

Lemma log_lines_termination_events w items :
  log_lines false (termination_events w items) = [].
Proof.
  unfold termination_events.
  rewrite log_lines_app, log_lines_term_events.
  destruct (terms_accepted w items); [|reflexivity].
  rewrite !log_lines_app, log_lines_kill_events.
  destruct (kills_accepted w items); reflexivity.
Qed.

(** The interruption points of the main flow: a signal that is served
    logs the warning, and what [terminateAll] logs for the handler stays
    hidden. *)
Lemma poll_signals_warns_only w : warns_only (poll_signals w).
Proof.
  intros L s Hs.
  destruct (poll_cases w s) as [(p & Hpoll & _)|(src & _ & Hpoll)]; rewrite Hpoll.
  - exact Hs.
  - unfold shows in Hs.
    destruct src; cbn [on_signal]; rewrite ?timeout_exec, sigtermHandler_exec;
      unfold handler_outcome;
      match goal with
      | |- context [terms_accepted w ?d] =>
          destruct (terms_accepted w d), (kills_accepted w d)
      end; cbn [andb];
      exists 1;
      cbn [trace set_proc set_trace record set_timer_armed set_pending];
      rewrite !log_lines_app, log_lines_termination_events, Hs;
      cbn [log_lines flat_map]; rewrite ?app_nil_r; reflexivity.
Qed.

Section Shown.
Variable d : Disk.
Variable w : World.
Variable cp : M unit.
Hypothesis Hcp : warns_only cp.
Variable L : list string.

Local Abbreviation E := (warned L).

Lemma cp_shows : keeps (shows L) E cp.
Proof. apply Hcp. Qed.

Lemma shows_warned x s : shows L s -> warned L x s.
Proof. intros H. exists 0. cbn [repeat]. rewrite app_nil_r. exact H. Qed.

Lemma act_shows f :
  (forall s, log_lines false (trace (f s)) = log_lines false (trace s)) ->
  keeps (shows L) E (Flow.act cp f).
Proof.
  intros Hf. apply hoare_act; [exact cp_shows|].
  intros s Hs. unfold shows in *. rewrite Hf. exact Hs.
Qed.

Lemma modify_shows f :
  (forall s, log_lines false (trace (f s)) = log_lines false (trace s)) ->
  keeps (shows L) E (modify f).
Proof.
  intros Hf. apply hoare_modify.
  intros s Hs. unfold shows in *. rewrite Hf. exact Hs.
Qed.

Ltac same_lines :=
  intros;
  cbn [trace record set_trace set_proc set_heap set_results set_timer_armed
       set_pending set_next_pid set_next_fd set_outputFiles set_outputPaths];
  rewrite ?log_lines_app; cbn [log_lines flat_map];
  rewrite ?app_nil_r; reflexivity.

Ltac shown_steps :=
  repeat first
    [ apply keeps_ret | apply keeps_gets
    | exact cp_shows
    | apply act_shows; same_lines
    | apply modify_shows; same_lines
    | apply hoare_raise; intros; apply shows_warned; assumption
    | apply hoare_exit; intros; apply shows_warned; assumption
    | apply keeps_for_each; intros [? ?]
    | apply keeps_fold_each; intros ? [? ?]
    | (apply keeps_bind; [|intros ?])
    | match goal with
      | |- keeps _ _ (match ?x with _ => _ end) => destruct x
      | |- keeps _ _ (if ?x then _ else _) => destruct x
      end ].

Lemma terminateAll_shows : keeps (shows L) E (Flow.terminateAll w cp).
Proof.
  unfold Flow.terminateAll, Flow.logger_debug,
    Flow.process_terminate, Flow.process_kill, Flow.process_poll,
    Flow.time_sleep, Flow.proc_clear.
  shown_steps.
Qed.

Lemma report_shows : keeps (shows L) E (FlowIO.report d w cp).
Proof.
  unfold FlowIO.report, FlowIO.check_leaks, Flow.print_results,
    Flow.file_close, FlowIO.open_file, Flow.print. cbv zeta.
  shown_steps.
Qed.

Lemma spawn_shows a : keeps (shows L) E (FlowIO.spawn d w cp a).
Proof.
  unfold FlowIO.spawn, Flow.list_get0, Flow.list_set0, Flow.list_read,
    FlowIO.open_file, Flow.popen. cbv zeta.
  shown_steps.
Qed.

Lemma start_then_wait_shows url aS aR aW :
  keeps (shows L) E
    (FlowIO.startSkaldReaderWriter d w cp url aS aR aW ;; Flow.waitReader w cp).
Proof.
  unfold FlowIO.startSkaldReaderWriter, Flow.waitReader, Flow.logger_debug,
    Flow.time_sleep, Flow.new_list, Flow.proc_set, Flow.proc_lookup,
    Flow.process_wait, Flow.proc_del.
  repeat first [ apply spawn_shows | progress shown_steps ].
Qed.

Lemma runTest_shows description timeout_ms (body : M bool) :
  keeps (shows L) E body ->
  keeps (shows L) E (Flow.runTest w cp description timeout_ms body).
Proof.
  intros Hbody.
  unfold Flow.runTest, Flow.proc_clear, Flow.logger_info,
    Flow.timer_start, Flow.timer_cancel, Flow.results_append.
  apply keeps_bind; [apply act_shows; same_lines|]. intros ?.
  apply keeps_bind; [apply act_shows; same_lines|]. intros ?.
  apply keeps_bind; [apply act_shows; same_lines|]. intros ?.
  apply keeps_bind; [exact Hbody|]. intros ?.
  apply keeps_bind; [apply act_shows; same_lines|]. intros ?.
  apply keeps_bind; [apply terminateAll_shows|]. intros ?.
  apply act_shows; same_lines.
Qed.

Lemma script_shows : keeps (shows L) E (FlowIO.script d w cp).
Proof.
  unfold FlowIO.script, FlowIO.run_scenarios, FlowIO.testSendOneMsg,
    FlowIO.testSendFiveMsg, FlowIO.testSendOneMsgToGroup,
    FlowIO.testSendFiveMsgToGroup.
  apply keeps_bind; [|intros ?; apply report_shows].
  repeat (apply keeps_bind;
          [apply runTest_shows; apply start_then_wait_shows|intros ?]).
  apply runTest_shows. apply start_then_wait_shows.
Qed.
End Shown.


(* ================================================================== *)
(** ** The verdict of an undisturbed run *)

Section Output.
Variable w : World.
Variables P F : list string.

Local Abbreviation cp := (poll_signals w).
Local Abbreviation E := (fun (_ : abnormal) (_ : state) => True).

Lemma poll_output : keeps (output_is P F) E cp.
Proof.
  intros s Hs.
  destruct (poll_cases w s) as [(p & Hpoll & _)|(src & _ & Hpoll)]; rewrite Hpoll.
  - exact Hs.
  - match goal with |- context [on_signal w src ?s0] =>
      destruct (on_signal_ends w src s0) as (H1 & _);
      destruct (on_signal w src s0) as [[[]|c|e] s1]
    end; cbn [fst is_ret] in H1; try discriminate; exact I.
Qed.

Lemma act_output f :
  (forall s, printed (trace (f s)) = printed (trace s)
             /\ files_read (trace (f s)) = files_read (trace s)) ->
  keeps (output_is P F) E (Flow.act cp f).
Proof.
  intros Hf. apply hoare_act; [exact poll_output|].
  intros s [H1 H2]. destruct (Hf s) as [G1 G2].
  split; [rewrite G1; exact H1|rewrite G2; exact H2].
Qed.

Lemma modify_output f :
  (forall s, printed (trace (f s)) = printed (trace s)
             /\ files_read (trace (f s)) = files_read (trace s)) ->
  keeps (output_is P F) E (modify f).
Proof.
  intros Hf. apply hoare_modify.
  intros s [H1 H2]. destruct (Hf s) as [G1 G2].
  split; [rewrite G1; exact H1|rewrite G2; exact H2].
Qed.

Ltac same_output :=
  intros;
  cbn [trace record set_trace set_proc set_heap set_results set_timer_armed
       set_pending set_next_pid set_next_fd set_outputFiles set_outputPaths];
  rewrite ?printed_app, ?files_read_app; cbn [printed files_read flat_map];
  rewrite ?app_nil_r; split; reflexivity.

Ltac output_steps :=
  repeat first
    [ apply keeps_ret | apply keeps_gets
    | exact poll_output
    | apply act_output; same_output
    | apply modify_output; same_output
    | apply hoare_raise; intros; exact I
    | apply hoare_exit; intros; exact I
    | apply keeps_for_each; intros [? ?]
    | (apply keeps_bind; [|intros ?])
    | match goal with
      | |- keeps _ _ (match ?x with _ => _ end) => destruct x
      | |- keeps _ _ (if ?x then _ else _) => destruct x
      end ].

Lemma terminateAll_output : keeps (output_is P F) E (terminateAll w).
Proof.
  unfold terminateAll, Flow.terminateAll, Flow.logger_debug,
    Flow.process_terminate, Flow.process_kill, Flow.process_poll,
    Flow.time_sleep, Flow.proc_clear.
  output_steps.
Qed.

Lemma spawn_output a : keeps (output_is P F) E (spawn w a).
Proof.
  unfold spawn, Flow.spawn, Flow.list_get0, Flow.list_set0, Flow.list_read,
    Flow.open_file, Flow.popen. cbv zeta.
  output_steps.
Qed.

Lemma body_output sc : keeps (output_is P F) E (body_of w sc).
Proof.
  rewrite body_of_unfold.
  unfold Flow.startSkaldReaderWriter, Flow.waitReader, Flow.logger_debug,
    Flow.time_sleep, Flow.new_list, Flow.proc_set, Flow.proc_lookup,
    Flow.process_wait, Flow.proc_del.
  repeat first [ apply spawn_output | progress output_steps ].
Qed.

Lemma runTest_output sc :
  keeps (output_is P F) E (runTest w (description_of sc) 500 (body_of w sc)).
Proof.
  unfold runTest, Flow.runTest, Flow.proc_clear, Flow.logger_info,
    Flow.timer_start, Flow.timer_cancel, Flow.results_append.
  apply keeps_bind; [apply act_output; same_output|]. intros ?.
  apply keeps_bind; [apply act_output; same_output|]. intros ?.
  apply keeps_bind; [apply act_output; same_output|]. intros ?.
  apply keeps_bind; [apply body_output|]. intros ?.
  apply keeps_bind; [apply act_output; same_output|]. intros ?.
  apply keeps_bind; [apply terminateAll_output|]. intros ?.
  apply act_output; same_output.
Qed.

(** The scenarios print nothing and read no file, as long as they
    return. *)
Lemma run_scenarios_output : keeps (output_is P F) E (run_scenarios w).
Proof.
  rewrite run_scenarios_unfold.
  repeat (apply keeps_bind; [apply runTest_output|intros ?]).
  apply runTest_output.
Qed.
End Output.

Lemma leaking_logs_nil w paths :
  leaking w paths = false -> leaking_logs w paths = [].
Proof.
  unfold leaking, leaking_logs.
  induction paths as [|pp paths IH]; [reflexivity|].
  cbn [existsb filter]. intros H. apply orb_false_elim in H.
  destruct H as [H1 H2]. rewrite H1. apply IH. exact H2.
Qed.

(** The verdict of such a run, on the harness of [Flow]. *)
Lemma script_verdict w s :
  pending s = None ->
  outputFiles s = [] ->
  outputPaths s = [] ->
  results s = [] ->
  (forall argv, can_launch w argv = true) ->
  (forall p, term_refused w p = false) ->
  (forall p, kill_refused w p = false) ->
  let r := script w s in
  outputPaths (snd r) = role_logs
  /\ files_read (trace (snd r)) =
       (files_read (trace s) ++ ["skald.log"; "reader.log"; "writer.log"])%list
  /\ printed (trace (snd r)) =
       (printed (trace s) ++
        map (fun pp => Flow.leak_message (fst pp) (snd pp))
            (leaking_logs w role_logs) ++
        [if leaking w role_logs
         then Flow.summary_leaks 4 else Flow.summary_pass 4])%list
  /\ fst r = (if leaking w role_logs then Exit 1 else Ret tt).
Proof.
  intros Hp Hf Ho Hr Hl Ht Hk r.
  destruct (@run_scenarios_exec w s Hp Hl Ht Hk)
    as (s' & l1 & l2 & l3 & l4 & R & P & _ & _ & _ & _ & _ & _ & W & G).
  assert (Hlogs : logs_recorded [] s)
    by (split; [rewrite Hf; reflexivity|rewrite Ho; reflexivity]).
  apply G in Hlogs. destruct Hlogs as [_ Hpaths].
  change (paths_of (add_roles (add_roles (add_roles (add_roles [])))))
    with role_logs in Hpaths.
  rewrite Hr in W. cbn [app] in W.
  pose proof (@run_scenarios_output w (printed (trace s)) (files_read (trace s))
                s (conj eq_refl eq_refl)) as Hout.
  rewrite R in Hout. destruct Hout as [O1 O2].
  assert (Hrun : r = Flow.report w (poll_signals w) s').
  { unfold r, script, Flow.script. unfold bind.
    change (Flow.run_scenarios w (poll_signals w) s) with (run_scenarios w s).
    rewrite R. reflexivity. }
  rewrite Hrun.
  rewrite (@report_exec w (poll_signals w) s' (@silent_poll w s' P)).
  cbv zeta. cbn [fst snd outputPaths set_next_fd set_trace trace].
  rewrite Hpaths, W.
  change (Flow.count_failed _) with 0.
  split; [reflexivity|].
  rewrite !files_read_app, !printed_app, files_read_closes, printed_closes,
    files_read_scan_events, printed_scan_events, O1, O2.
  unfold verdict, summary_line. cbn [Nat.ltb Nat.leb List.length].
  split; [reflexivity|]. split; [|reflexivity].
  cbn [app]. destruct (leaking w role_logs); reflexivity.
Qed.

(** X11.  The verdict of a run that nothing disturbs, started as the
    script starts (no log on record, no result) with no signal, every
    executable starting, the system accepting every request, every file
    opening and every log decoding.  The four scenarios share three log
    files, [skald.log], [reader.log] and [writer.log], recorded in this
    order; the leak scan reads exactly these three; standard output gets
    one leak message for each of them that contains the marker, then the
    summary line, which counts 4 tests; the script returns when none of
    the three logs contains the marker and exits with status 1
    otherwise. *)
Theorem undisturbed_verdict d w s :
  pending s = None ->
  obliging d ->
  outputFiles s = [] ->
  outputPaths s = [] ->
  results s = [] ->
  (forall argv, can_launch w argv = true) ->
  (forall p, term_refused w p = false) ->
  (forall p, kill_refused w p = false) ->
  let r := FlowIO.script d w (poll_signals w) s in
  outputPaths (snd r) = role_logs
  /\ files_read (trace (snd r)) =
       (files_read (trace s) ++ ["skald.log"; "reader.log"; "writer.log"])%list
  /\ printed (trace (snd r)) =
       (printed (trace s) ++
        map (fun pp => Flow.leak_message (fst pp) (snd pp))
            (leaking_logs w role_logs) ++
        [if leaking w role_logs
         then Flow.summary_leaks 4 else Flow.summary_pass 4])%list
  /\ fst r = (if leaking w role_logs then Exit 1 else Ret tt).
Proof.
  intros Hp Hd Hf Ho Hr Hl Ht Hk r.
  unfold r. rewrite (@script_same d w (poll_signals w) Hd s).
  exact (@script_verdict w s Hp Hf Ho Hr Hl Ht Hk).
Qed.

Lemma undisturbed_verdict_witness :
  let r := FlowIO.script plain_disk leaky_world (poll_signals leaky_world)
             (initial None) in
  outputPaths (snd r) = role_logs
  /\ printed (trace (snd r)) =
       ["Memory leak detected for process 'reader'; please refer to file 'reader.log'";
        "INTEGRATION TEST FAIL - 4/4 integration tests passed, but with memory leaks"]
  /\ fst r = Exit 1.
Proof.
  destruct (@undisturbed_verdict plain_disk leaky_world (initial None) eq_refl
              (conj (fun _ _ => eq_refl) (fun _ => eq_refl))
              eq_refl eq_refl eq_refl (fun _ => eq_refl) (fun _ => eq_refl)
              (fun _ => eq_refl))
    as (H1 & _ & H3 & H4).
  split; [exact H1|]. split; [exact H3|exact H4].
Defined.
